(** * AI Voice Notes: the recording pipeline of [src/App.tsx]

    The source file holds two revisions of the [App] component.  Both are
    embedded here, each in a module of its own ([Rev1] for the first,
    [Rev2] for the second), over a shared prelude for the JavaScript
    built-ins they use and for the note store, which is the same in both.

    A React function component is a function from the committed state to
    a set of closures.  The model keeps that structure:
    - the [useState] cells are the record [Hooks], the [useRef] cells the
      record [Refs];
    - a handler installed on an object that outlives the render (a
      [MediaRecorder] callback, a timer) carries the values it closed
      over; the record button always runs the handler of the latest
      render;
    - an [async] function is cut at its [await]s: an invocation is stored
      with its closure and the stage it is suspended at, and is resumed by
      the event that settles the awaited promise;
    - every handler runs to its next suspension point without
      interruption (one thread), and the state setters it called are
      committed before the next event is handled;
    - [Date.now()] is an input: each event that reads the clock carries
      the readings;
    - the remote services, the file reader and [getUserMedia] are inputs
      too: the event that settles a promise carries its outcome.
    Times are integer milliseconds, strings are sequences of code units
    below 256.  The cleanup of the unmount effect and [formatDuration] are
    defined with the properties about them.  The markup, [copyToClipboard]
    and [formatTimestamp] are left out. *)

From Stdlib Require Import ZArith Lia Ascii String Strings.Byte.
From stdpp Require Import base decidable option list strings pretty.

Local Open Scope Z_scope.
Local Open Scope string_scope.
Local Open Scope list_scope.

(** ** JavaScript built-ins *)

Module Js.

(** Code units below 256 that [String.prototype.trim] strips: TAB, LF,
    VT, FF, CR, SPACE and NO-BREAK SPACE.  Strings are sequences of
    such code units. *)
Definition isWhiteSpace (c : ascii) : bool :=
  match c with
  | "009" | "010" | "011" | "012" | "013" | " " | "160" => true
  | _ => false
  end%char.

Fixpoint trimStart (s : string) : string :=
  match s with
  | String c s' => if isWhiteSpace c then trimStart s' else s
  | EmptyString => EmptyString
  end.

Definition trimEnd (s : string) : string :=
  String.rev (trimStart (String.rev s)).

Definition trim (s : string) : string := trimEnd (trimStart s).

(** A string in a condition: only the empty string is falsy. *)
Definition truthy (s : string) : bool :=
  match s with EmptyString => false | String _ _ => true end.

(** [Array.prototype.join]. *)
Fixpoint join (sep : string) (l : list string) : string :=
  match l with
  | [] => ""
  | [x] => x
  | x :: xs => (x ++ sep ++ join sep xs)%string
  end.

(** [Number.prototype.toString] on an integer. *)
Definition toString (n : Z) : string := pretty n.

(** [Math.floor(a / b)] on integers, [b] positive. *)
Definition floorDiv (a b : Z) : Z := a / b.

End Js.

(** ** Data shared by the two revisions *)

(** interface VoiceNote *)
Record VoiceNote := {
  note_id : string;
  note_text : string;
  note_timestamp : Z;
  note_duration : Z }.

(** An audio [Blob]: its bytes.  [new Blob(parts)] concatenates. *)
Definition Blob : Type := list byte.

Definition blob_size (b : Blob) : nat := length b.

Definition newBlob (parts : list Blob) : Blob := concat parts.

(** The two remote calls of [blink.ai], as they are issued. *)
Record GenerateRequest := {
  prompt : string;
  model : option string;
  maxTokens : Z }.

Inductive Effect :=
  | TranscribeAudio (audio : Blob) (language : string)
  | GenerateText (req : GenerateRequest)
  | ToastSuccess (msg : string)
  | ToastError (msg : string)
  | ConsoleError (msg : string).

(** How an awaited promise settles. *)
Inductive Outcome :=
  | Fulfilled (value : string)
  | Rejected.

(** How [getUserMedia] followed by [new MediaRecorder] goes. *)
Inductive MediaOutcome :=
  | Denied          (* getUserMedia rejects *)
  | Unsupported     (* the stream is granted, the MediaRecorder constructor throws *)
  | Granted.

Definition quote : string := String (ascii_of_nat 34) EmptyString.
Definition newline : string := String (ascii_of_nat 10) EmptyString.

Definition instructions : string :=
  "Please clean up and improve this transcribed text by making it more coherent and fixing any transcription errors. Keep the meaning intact but make it flow naturally as a single piece of text. Do not add any commentary, just return the improved text:".

(** The template literal passed as [prompt]. *)
Definition promptFor (combinedText : string) : string :=
  (instructions ++ newline ++ newline ++ quote ++ combinedText ++ quote)%string.

(** ** The note store *)

(** [prev => [newNote, ...prev]] *)
Definition insertNote (newNote : VoiceNote) (prev : list VoiceNote) : list VoiceNote :=
  newNote :: prev.

(** [prev => prev.filter(note => note.id !== id)] *)
Definition deleteNote (id : string) (prev : list VoiceNote) : list VoiceNote :=
  filter (λ note, note_id note ≠ id) prev.

(** The note built by [stopRecording]; the three clock readings are those
    of [duration], [id] and [timestamp], in the order the source takes
    them. *)
Definition makeNote (currentTranscript : string) (startTime : Z)
    (now_duration now_id now_timestamp : Z) : VoiceNote :=
  let duration := Js.floorDiv (now_duration - startTime) 1000 in
  {| note_id := Js.toString now_id;
     note_text := Js.trim currentTranscript;
     note_timestamp := now_timestamp;
     note_duration := duration |}.

(** The body of the [if (currentTranscript.trim())] of [stopRecording], as
    an update of the note list. *)
Definition saveNote (currentTranscript : string) (startTime : Z)
    (now_duration now_id now_timestamp : Z) (prev : list VoiceNote) : list VoiceNote :=
  if Js.truthy (Js.trim currentTranscript)
  then insertNote (makeNote currentTranscript startTime now_duration now_id now_timestamp) prev
  else prev.

(** * First revision of [App] *)

Module Rev1.

(** interface TranscriptChunk *)
Record TranscriptChunk := {
  id : string;
  text : string;
  timestamp : Z }.

(** The [useState] cells. *)
Record Hooks := {
  isRecording : bool;
  currentTranscript : string;
  transcriptChunks : list TranscriptChunk;
  voiceNotes : list VoiceNote;
  isProcessing : bool;
  recordingDuration : Z }.

(** The [useRef] cells; a recorder and a timer are named by their
    index in the lists of [World]. *)
Record Refs := {
  mediaRecorderRef : option nat;
  audioChunksRef : list Blob;
  recordingStartTimeRef : Z;
  chunkIntervalRef : option nat;
  durationIntervalRef : option nat }.

Inductive RecordingState := inactive | recording.

(** What a function created inside [startRecording] closes over: the
    [processAudioChunk] of the render (that is, its [transcriptChunks])
    and the [isRecording] of the render. *)
Record Closure := {
  closureChunks : list TranscriptChunk;
  closureIsRecording : bool }.

(** A [MediaRecorder] with the closure of its [onstop] handler. *)
Record MediaRecorder := {
  state : RecordingState;
  stopQueued : bool;      (* stop() was called: the last dataavailable and the stop event are queued *)
  tracksLive : bool;      (* the tracks of its stream are not stopped *)
  handlers : Closure }.

Inductive TimerKind :=
  | ChunkInterval (c : Closure)     (* setInterval(..., 5000) *)
  | ChunkDelay (c : Closure)        (* setTimeout(..., 100) *)
  | DurationInterval.               (* setInterval(..., 1000) *)

Record Timer := {
  kind : TimerKind;
  armed : bool }.

(** The [await] an invocation of [processAudioChunk] is suspended at. *)
Inductive Stage :=
  | AwaitFileReader (audioBlob : Blob)
  | AwaitTranscribeAudio
  | AwaitGenerateText (allChunks : list TranscriptChunk)
  | Settled.

(** [awaitedByOnstop]: the [onstop] handler of that recorder awaits
    this invocation and stops the tracks of the stream after it. *)
Record Invocation := {
  invChunks : list TranscriptChunk;       (* [transcriptChunks] of the callback *)
  stage : Stage;
  awaitedByOnstop : option nat }.

Record World := {
  hooks : Hooks;
  refs : Refs;
  recorders : list MediaRecorder;
  timers : list Timer;
  userMediaCalls : list (option Closure);   (* [startRecording]s awaiting getUserMedia *)
  invocations : list Invocation;
  effects : list Effect }.

Definition initial : World :=
  {| hooks := {| isRecording := false; currentTranscript := ""; transcriptChunks := [];
                 voiceNotes := []; isProcessing := false; recordingDuration := 0 |};
     refs := {| mediaRecorderRef := None; audioChunksRef := [];
                recordingStartTimeRef := 0; chunkIntervalRef := None;
                durationIntervalRef := None |};
     recorders := []; timers := []; userMediaCalls := [];
     invocations := []; effects := [] |}.

(** *** Setters *)

Definition withHooks (f : Hooks → Hooks) (w : World) : World :=
  {| hooks := f (hooks w); refs := refs w; recorders := recorders w;
     timers := timers w; userMediaCalls := userMediaCalls w;
     invocations := invocations w; effects := effects w |}.

Definition withRefs (f : Refs → Refs) (w : World) : World :=
  {| hooks := hooks w; refs := f (refs w); recorders := recorders w;
     timers := timers w; userMediaCalls := userMediaCalls w;
     invocations := invocations w; effects := effects w |}.

Definition withRecorders (f : list MediaRecorder → list MediaRecorder) (w : World) : World :=
  {| hooks := hooks w; refs := refs w; recorders := f (recorders w);
     timers := timers w; userMediaCalls := userMediaCalls w;
     invocations := invocations w; effects := effects w |}.

Definition withTimers (f : list Timer → list Timer) (w : World) : World :=
  {| hooks := hooks w; refs := refs w; recorders := recorders w;
     timers := f (timers w); userMediaCalls := userMediaCalls w;
     invocations := invocations w; effects := effects w |}.

Definition withUserMediaCalls (f : list (option Closure) → list (option Closure))
    (w : World) : World :=
  {| hooks := hooks w; refs := refs w; recorders := recorders w;
     timers := timers w; userMediaCalls := f (userMediaCalls w);
     invocations := invocations w; effects := effects w |}.

Definition withInvocations (f : list Invocation → list Invocation) (w : World) : World :=
  {| hooks := hooks w; refs := refs w; recorders := recorders w;
     timers := timers w; userMediaCalls := userMediaCalls w;
     invocations := f (invocations w); effects := effects w |}.

Definition emit (e : Effect) (w : World) : World :=
  {| hooks := hooks w; refs := refs w; recorders := recorders w;
     timers := timers w; userMediaCalls := userMediaCalls w;
     invocations := invocations w; effects := effects w ++ [e] |}.

Definition setIsRecording (b : bool) : World → World :=
  withHooks (λ h, {| isRecording := b; currentTranscript := currentTranscript h;
                     transcriptChunks := transcriptChunks h; voiceNotes := voiceNotes h;
                     isProcessing := isProcessing h;
                     recordingDuration := recordingDuration h |}).

Definition setCurrentTranscript (s : string) : World → World :=
  withHooks (λ h, {| isRecording := isRecording h; currentTranscript := s;
                     transcriptChunks := transcriptChunks h; voiceNotes := voiceNotes h;
                     isProcessing := isProcessing h;
                     recordingDuration := recordingDuration h |}).

(** [setTranscriptChunks(prev => f(prev))] *)
Definition setTranscriptChunks (f : list TranscriptChunk → list TranscriptChunk) :
    World → World :=
  withHooks (λ h, {| isRecording := isRecording h; currentTranscript := currentTranscript h;
                     transcriptChunks := f (transcriptChunks h); voiceNotes := voiceNotes h;
                     isProcessing := isProcessing h;
                     recordingDuration := recordingDuration h |}).

(** [setVoiceNotes(prev => f(prev))] *)
Definition setVoiceNotes (f : list VoiceNote → list VoiceNote) : World → World :=
  withHooks (λ h, {| isRecording := isRecording h; currentTranscript := currentTranscript h;
                     transcriptChunks := transcriptChunks h; voiceNotes := f (voiceNotes h);
                     isProcessing := isProcessing h;
                     recordingDuration := recordingDuration h |}).

Definition setIsProcessing (b : bool) : World → World :=
  withHooks (λ h, {| isRecording := isRecording h; currentTranscript := currentTranscript h;
                     transcriptChunks := transcriptChunks h; voiceNotes := voiceNotes h;
                     isProcessing := b;
                     recordingDuration := recordingDuration h |}).

Definition setRecordingDuration (d : Z) : World → World :=
  withHooks (λ h, {| isRecording := isRecording h; currentTranscript := currentTranscript h;
                     transcriptChunks := transcriptChunks h; voiceNotes := voiceNotes h;
                     isProcessing := isProcessing h;
                     recordingDuration := d |}).

Definition setMediaRecorderRef (r : option nat) : World → World :=
  withRefs (λ f, {| mediaRecorderRef := r; audioChunksRef := audioChunksRef f;
                    recordingStartTimeRef := recordingStartTimeRef f;
                    chunkIntervalRef := chunkIntervalRef f;
                    durationIntervalRef := durationIntervalRef f |}).

Definition setAudioChunksRef (l : list Blob) : World → World :=
  withRefs (λ f, {| mediaRecorderRef := mediaRecorderRef f; audioChunksRef := l;
                    recordingStartTimeRef := recordingStartTimeRef f;
                    chunkIntervalRef := chunkIntervalRef f;
                    durationIntervalRef := durationIntervalRef f |}).

Definition setRecordingStartTimeRef (t : Z) : World → World :=
  withRefs (λ f, {| mediaRecorderRef := mediaRecorderRef f;
                    audioChunksRef := audioChunksRef f;
                    recordingStartTimeRef := t;
                    chunkIntervalRef := chunkIntervalRef f;
                    durationIntervalRef := durationIntervalRef f |}).

Definition setChunkIntervalRef (t : option nat) : World → World :=
  withRefs (λ f, {| mediaRecorderRef := mediaRecorderRef f;
                    audioChunksRef := audioChunksRef f;
                    recordingStartTimeRef := recordingStartTimeRef f;
                    chunkIntervalRef := t;
                    durationIntervalRef := durationIntervalRef f |}).

Definition setDurationIntervalRef (t : option nat) : World → World :=
  withRefs (λ f, {| mediaRecorderRef := mediaRecorderRef f;
                    audioChunksRef := audioChunksRef f;
                    recordingStartTimeRef := recordingStartTimeRef f;
                    chunkIntervalRef := chunkIntervalRef f;
                    durationIntervalRef := t |}).

(** *** The browser objects *)

Definition newMediaRecorder (c : Closure) (w : World) : nat * World :=
  (length (recorders w),
   withRecorders (λ l, l ++ [{| state := inactive; stopQueued := false; tracksLive := true;
                                handlers := c |}]) w).

(** [mediaRecorder.start()] on a recorder that is inactive. *)
Definition recorderStart (r : nat) : World → World :=
  withRecorders (alter (λ m, {| state := recording; stopQueued := stopQueued m;
                                tracksLive := tracksLive m; handlers := handlers m |}) r).

(** [mediaRecorder.stop()]: the recorder is inactive at once; the last
    [dataavailable] and the [stop] event follow in a task of their own. *)
Definition recorderStop (r : nat) : World → World :=
  withRecorders (alter (λ m, {| state := inactive; stopQueued := true;
                                tracksLive := tracksLive m; handlers := handlers m |}) r).

(** [stream.getTracks().forEach(track => track.stop())] *)
Definition stopTracks (r : nat) : World → World :=
  withRecorders (alter (λ m, {| state := state m; stopQueued := stopQueued m;
                                tracksLive := false; handlers := handlers m |}) r).

Definition stopDelivered (r : nat) : World → World :=
  withRecorders (alter (λ m, {| state := state m; stopQueued := false;
                                tracksLive := tracksLive m; handlers := handlers m |}) r).

Definition isRecordingState (r : nat) (w : World) : bool :=
  match recorders w !! r with
  | Some {| state := recording |} => true
  | _ => false
  end.

Definition setTimer (k : TimerKind) (w : World) : nat * World :=
  (length (timers w), withTimers (λ l, l ++ [{| kind := k; armed := true |}]) w).

Definition clearTimer (t : nat) : World → World :=
  withTimers (alter (λ x, {| kind := kind x; armed := false |}) t).

(** *** [processAudioChunk]

    [transcriptChunks] is the value the callback closes over
    ([useCallback] with the dependency [transcriptChunks]). *)

Definition finally (w : World) : World := setIsProcessing false w.

Definition catch (w : World) : World :=
  emit (ConsoleError "Error processing audio chunk:") w.

(** From the call to the first [await]. *)
Definition processAudioChunk (transcriptChunks : list TranscriptChunk) (audioBlob : Blob)
    (awaitedBy : option nat) (w : World) : World :=
  let w := setIsProcessing true w in
  withInvocations (λ l, l ++ [{| invChunks := transcriptChunks;
                                 stage := AwaitFileReader audioBlob;
                                 awaitedByOnstop := awaitedBy |}]) w.

Definition suspend (i : nat) (s : Stage) : World → World :=
  withInvocations (alter (λ inv, {| invChunks := invChunks inv; stage := s;
                                    awaitedByOnstop := awaitedByOnstop inv |}) i).

(** The invocation returns; an [onstop] handler that awaited it goes on. *)
Definition settled (i : nat) (awaitedBy : option nat) (w : World) : World :=
  let w := suspend i Settled w in
  match awaitedBy with
  | Some r => stopTracks r w
  | None => w
  end.

(** From the settling of the awaited promise to the next [await], or
    to the end of the [finally] block.  The two readings of
    [Date.now()] are those of [chunkId] and of [timestamp]. *)
Definition processAudioChunk_resume (i : nat) (o : Outcome) (now_id now_timestamp : Z)
    (w : World) : World :=
  match invocations w !! i with
  | None => w
  | Some inv =>
    let transcriptChunks := invChunks inv in
    match stage inv, o with
    | Settled, _ => w
    | AwaitFileReader audioBlob, Fulfilled _ =>
        suspend i AwaitTranscribeAudio (emit (TranscribeAudio audioBlob "en") w)
    | AwaitTranscribeAudio, Fulfilled text0 =>
        if Js.truthy (Js.trim text0) then
          let chunkId := Js.toString now_id in
          let newChunk := {| id := chunkId; text := Js.trim text0;
                             timestamp := now_timestamp |} in
          let w := setTranscriptChunks (λ prev, prev ++ [newChunk]) w in
          let allChunks := transcriptChunks ++ [newChunk] in
          if decide (0 < length allChunks)%nat then
            let combinedText := Js.join " " (text <$> allChunks) in
            suspend i (AwaitGenerateText allChunks)
              (emit (GenerateText {| prompt := promptFor combinedText;
                                     model := None;
                                     maxTokens := 500 |}) w)
          else settled i (awaitedByOnstop inv) (finally w)
        else settled i (awaitedByOnstop inv) (finally w)
    | AwaitGenerateText _, Fulfilled improvedText =>
        let w := setCurrentTranscript (Js.trim improvedText) w in
        settled i (awaitedByOnstop inv) (finally w)
    | _, Rejected => settled i (awaitedByOnstop inv) (finally (catch w))
    end
  end.

(** *** [startRecording] *)

(** Up to [await navigator.mediaDevices.getUserMedia(...)]; [render] is
    the state of the render whose [startRecording] runs. *)
Definition startRecording (render : Hooks) : World → World :=
  withUserMediaCalls (λ l, l ++ [Some {| closureChunks := transcriptChunks render;
                                         closureIsRecording := isRecording render |}]).

Definition startRecording_resume (k : nat) (o : MediaOutcome) (now : Z) (w : World) : World :=
  match userMediaCalls w !! k with
  | Some (Some c) =>
    let w := withUserMediaCalls (<[k := None]>) w in
    match o with
    | Granted =>
      let '(mediaRecorder, w) := newMediaRecorder c w in
      let w := setMediaRecorderRef (Some mediaRecorder) w in
      let w := setAudioChunksRef [] w in
      let w := setTranscriptChunks (λ _, []) w in
      let w := setCurrentTranscript "" w in
      let w := setRecordingStartTimeRef now w in
      let w := setRecordingDuration 0 w in
      let w := recorderStart mediaRecorder w in
      let w := setIsRecording true w in
      let '(t, w) := setTimer (ChunkInterval c) w in
      let w := setChunkIntervalRef (Some t) w in
      let '(t, w) := setTimer DurationInterval w in
      let w := setDurationIntervalRef (Some t) w in
      emit (ToastSuccess "Recording started!") w
    | _ =>
      emit (ToastError "Failed to start recording. Please check microphone permissions.")
        (emit (ConsoleError "Error starting recording:") w)
    end
  | _ => w
  end.

(** *** The recorder's handlers and the timers' callbacks *)

(** [mediaRecorder.ondataavailable] *)
Definition ondataavailable (data : Blob) (w : World) : World :=
  if decide (0 < blob_size data)%nat
  then setAudioChunksRef (audioChunksRef (refs w) ++ [data]) w
  else w.

(** [mediaRecorder.onstop], up to its [await] *)
Definition onstop (r : nat) (c : Closure) (w : World) : World :=
  if decide (0 < length (audioChunksRef (refs w)))%nat then
    let finalBlob := newBlob (audioChunksRef (refs w)) in
    processAudioChunk (closureChunks c) finalBlob (Some r) w
  else stopTracks r w.

(** The callback of [setInterval(..., 5000)] *)
Definition chunkInterval (c : Closure) (w : World) : World :=
  match mediaRecorderRef (refs w) with
  | Some r =>
    if isRecordingState r w then
      let w := recorderStop r w in
      snd (setTimer (ChunkDelay c) w)
    else w
  | None => w
  end.

(** The callback of [setTimeout(..., 100)].  Its last statement is
    [mediaRecorderRef.current?.start()], which throws on a recorder that
    is recording and so does nothing there. *)
Definition chunkDelay (c : Closure) (w : World) : World :=
  let w :=
    if decide (0 < length (audioChunksRef (refs w)))%nat then
      let chunkBlob := newBlob (audioChunksRef (refs w)) in
      let w := processAudioChunk (closureChunks c) chunkBlob None w in
      setAudioChunksRef [] w
    else w in
  if closureIsRecording c then
    match mediaRecorderRef (refs w) with
    | Some r => if isRecordingState r w then w else recorderStart r w
    | None => w
    end
  else w.

(** The callback of [setInterval(..., 1000)] *)
Definition durationTick (now : Z) (w : World) : World :=
  setRecordingDuration (Js.floorDiv (now - recordingStartTimeRef (refs w)) 1000) w.

(** *** [stopRecording]

    [currentTranscript] is the one of the render whose [stopRecording]
    runs. *)
Definition stopRecording (currentTranscript : string)
    (now_duration now_id now_timestamp : Z) (w : World) : World :=
  let w := match mediaRecorderRef (refs w) with
           | Some r => if isRecordingState r w then recorderStop r w else w
           | None => w
           end in
  let w := match chunkIntervalRef (refs w) with
           | Some t => clearTimer t w
           | None => w
           end in
  let w := match durationIntervalRef (refs w) with
           | Some t => clearTimer t w
           | None => w
           end in
  let w := setIsRecording false w in
  if Js.truthy (Js.trim currentTranscript) then
    let startTime := recordingStartTimeRef (refs w) in
    let newNote := makeNote currentTranscript startTime now_duration now_id now_timestamp in
    emit (ToastSuccess "Voice note saved!") (setVoiceNotes (insertNote newNote) w)
  else w.

(** *** The other handlers *)

(** [deleteNote] of the component. *)
Definition deleteNoteClick (id : string) (w : World) : World :=
  emit (ToastSuccess "Note deleted") (setVoiceNotes (deleteNote id) w).

(** The record button: [onClick={isRecording ? stopRecording : startRecording}],
    [disabled={isProcessing}]. *)
Definition click (now_duration now_id now_timestamp : Z) (w : World) : World :=
  let render := hooks w in
  if isProcessing render then w
  else if isRecording render
       then stopRecording (currentTranscript render) now_duration now_id now_timestamp w
       else startRecording render w.

(** *** The event loop *)

Inductive Event :=
  | Click (now_duration now_id now_timestamp : Z)    (* on the record button *)
  | UserMediaSettles (k : nat) (o : MediaOutcome) (now : Z)
  | RecorderStops (r : nat) (data : Blob)            (* the task queued by stop() *)
  | TimerFires (t : nat) (now : Z)
  | PromiseSettles (i : nat) (o : Outcome) (now_id now_timestamp : Z)
  | DeleteClick (id : string).

Definition step (w : World) (e : Event) : World :=
  match e with
  | Click now_duration now_id now_timestamp => click now_duration now_id now_timestamp w
  | UserMediaSettles k o now => startRecording_resume k o now w
  | RecorderStops r data =>
      match recorders w !! r with
      | Some {| stopQueued := true; handlers := c |} =>
          onstop r c (ondataavailable data (stopDelivered r w))
      | _ => w
      end
  | TimerFires t now =>
      match timers w !! t with
      | Some {| kind := k; armed := true |} =>
          match k with
          | ChunkInterval c => chunkInterval c w
          | ChunkDelay c => chunkDelay c (clearTimer t w)
          | DurationInterval => durationTick now w
          end
      | _ => w
      end
  | PromiseSettles i o now_id now_timestamp =>
      processAudioChunk_resume i o now_id now_timestamp w
  | DeleteClick id => deleteNoteClick id w
  end.

Definition run (w : World) (events : list Event) : World :=
  fold_left step events w.

End Rev1.

(** * Second revision of [App] *)

Module Rev2.

(** interface TranscriptChunk *)
Record TranscriptChunk := {
  id : string;
  text : string }.

(** The [useState] cells. *)
Record Hooks := {
  isRecording : bool;
  currentTranscript : string;
  transcriptChunks : list TranscriptChunk;
  voiceNotes : list VoiceNote;
  isProcessing : bool;
  recordingDuration : Z }.

(** The [useRef] cells; a recorder and a timer are named by their
    index in the lists of [World]. *)
Record Refs := {
  mediaRecorderRef : option nat;
  recordingStartTimeRef : Z;
  durationIntervalRef : option nat }.

Inductive RecordingState := inactive | recording.

(** A [MediaRecorder] with the closure of its [ondataavailable]
    handler: the handler calls the [processAudioChunk] of the render in
    which [startRecording] was invoked, and that callback closes over
    the [transcriptChunks] of that render. *)
Record MediaRecorder := {
  state : RecordingState;
  stopQueued : bool;      (* stop() was called: the last dataavailable and the stop event are queued *)
  tracksLive : bool;      (* the tracks of its stream are not stopped *)
  handlerChunks : list TranscriptChunk }.

(** The [await] an invocation of [processAudioChunk] is suspended at. *)
Inductive Stage :=
  | AwaitFileReader (audioBlob : Blob)
  | AwaitTranscribeAudio
  | AwaitGenerateText (updatedChunks : list TranscriptChunk)
  | Settled.

Record Invocation := {
  closureChunks : list TranscriptChunk;   (* [transcriptChunks] of the callback *)
  stage : Stage }.

Record World := {
  hooks : Hooks;
  refs : Refs;
  recorders : list MediaRecorder;
  intervals : list bool;                      (* duration timers: still set? *)
  timeouts : list (option string);            (* stop's timers: the [currentTranscript] closed over, while pending *)
  userMediaCalls : list (option (list TranscriptChunk));
                                              (* [startRecording]s awaiting getUserMedia, with the chunks of their render *)
  invocations : list Invocation;
  effects : list Effect }.

Definition initial : World :=
  {| hooks := {| isRecording := false; currentTranscript := ""; transcriptChunks := [];
                 voiceNotes := []; isProcessing := false; recordingDuration := 0 |};
     refs := {| mediaRecorderRef := None; recordingStartTimeRef := 0;
                durationIntervalRef := None |};
     recorders := []; intervals := []; timeouts := []; userMediaCalls := [];
     invocations := []; effects := [] |}.

(** *** Setters *)

Definition withHooks (f : Hooks → Hooks) (w : World) : World :=
  {| hooks := f (hooks w); refs := refs w; recorders := recorders w;
     intervals := intervals w; timeouts := timeouts w;
     userMediaCalls := userMediaCalls w; invocations := invocations w;
     effects := effects w |}.

Definition withRefs (f : Refs → Refs) (w : World) : World :=
  {| hooks := hooks w; refs := f (refs w); recorders := recorders w;
     intervals := intervals w; timeouts := timeouts w;
     userMediaCalls := userMediaCalls w; invocations := invocations w;
     effects := effects w |}.

Definition withRecorders (f : list MediaRecorder → list MediaRecorder) (w : World) : World :=
  {| hooks := hooks w; refs := refs w; recorders := f (recorders w);
     intervals := intervals w; timeouts := timeouts w;
     userMediaCalls := userMediaCalls w; invocations := invocations w;
     effects := effects w |}.

Definition withIntervals (f : list bool → list bool) (w : World) : World :=
  {| hooks := hooks w; refs := refs w; recorders := recorders w;
     intervals := f (intervals w); timeouts := timeouts w;
     userMediaCalls := userMediaCalls w; invocations := invocations w;
     effects := effects w |}.

Definition withTimeouts (f : list (option string) → list (option string)) (w : World) : World :=
  {| hooks := hooks w; refs := refs w; recorders := recorders w;
     intervals := intervals w; timeouts := f (timeouts w);
     userMediaCalls := userMediaCalls w; invocations := invocations w;
     effects := effects w |}.

Definition withUserMediaCalls
    (f : list (option (list TranscriptChunk)) → list (option (list TranscriptChunk)))
    (w : World) : World :=
  {| hooks := hooks w; refs := refs w; recorders := recorders w;
     intervals := intervals w; timeouts := timeouts w;
     userMediaCalls := f (userMediaCalls w); invocations := invocations w;
     effects := effects w |}.

Definition withInvocations (f : list Invocation → list Invocation) (w : World) : World :=
  {| hooks := hooks w; refs := refs w; recorders := recorders w;
     intervals := intervals w; timeouts := timeouts w;
     userMediaCalls := userMediaCalls w; invocations := f (invocations w);
     effects := effects w |}.

Definition emit (e : Effect) (w : World) : World :=
  {| hooks := hooks w; refs := refs w; recorders := recorders w;
     intervals := intervals w; timeouts := timeouts w;
     userMediaCalls := userMediaCalls w; invocations := invocations w;
     effects := effects w ++ [e] |}.

Definition setIsRecording (b : bool) : World → World :=
  withHooks (λ h, {| isRecording := b; currentTranscript := currentTranscript h;
                     transcriptChunks := transcriptChunks h; voiceNotes := voiceNotes h;
                     isProcessing := isProcessing h;
                     recordingDuration := recordingDuration h |}).

Definition setCurrentTranscript (s : string) : World → World :=
  withHooks (λ h, {| isRecording := isRecording h; currentTranscript := s;
                     transcriptChunks := transcriptChunks h; voiceNotes := voiceNotes h;
                     isProcessing := isProcessing h;
                     recordingDuration := recordingDuration h |}).

Definition setTranscriptChunks (l : list TranscriptChunk) : World → World :=
  withHooks (λ h, {| isRecording := isRecording h; currentTranscript := currentTranscript h;
                     transcriptChunks := l; voiceNotes := voiceNotes h;
                     isProcessing := isProcessing h;
                     recordingDuration := recordingDuration h |}).

(** [setVoiceNotes(prev => f(prev))] *)
Definition setVoiceNotes (f : list VoiceNote → list VoiceNote) : World → World :=
  withHooks (λ h, {| isRecording := isRecording h; currentTranscript := currentTranscript h;
                     transcriptChunks := transcriptChunks h; voiceNotes := f (voiceNotes h);
                     isProcessing := isProcessing h;
                     recordingDuration := recordingDuration h |}).

Definition setIsProcessing (b : bool) : World → World :=
  withHooks (λ h, {| isRecording := isRecording h; currentTranscript := currentTranscript h;
                     transcriptChunks := transcriptChunks h; voiceNotes := voiceNotes h;
                     isProcessing := b;
                     recordingDuration := recordingDuration h |}).

Definition setRecordingDuration (d : Z) : World → World :=
  withHooks (λ h, {| isRecording := isRecording h; currentTranscript := currentTranscript h;
                     transcriptChunks := transcriptChunks h; voiceNotes := voiceNotes h;
                     isProcessing := isProcessing h;
                     recordingDuration := d |}).

Definition setMediaRecorderRef (r : option nat) : World → World :=
  withRefs (λ f, {| mediaRecorderRef := r; recordingStartTimeRef := recordingStartTimeRef f;
                    durationIntervalRef := durationIntervalRef f |}).

Definition setRecordingStartTimeRef (t : Z) : World → World :=
  withRefs (λ f, {| mediaRecorderRef := mediaRecorderRef f; recordingStartTimeRef := t;
                    durationIntervalRef := durationIntervalRef f |}).

Definition setDurationIntervalRef (t : option nat) : World → World :=
  withRefs (λ f, {| mediaRecorderRef := mediaRecorderRef f;
                    recordingStartTimeRef := recordingStartTimeRef f;
                    durationIntervalRef := t |}).

(** *** The browser objects *)

(** [new MediaRecorder(stream, ...)] with its handlers, then
    [mediaRecorder.start(5000)]. *)
Definition newMediaRecorder (handlerChunks : list TranscriptChunk) (w : World) : nat * World :=
  (length (recorders w),
   withRecorders (λ l, l ++ [{| state := inactive; stopQueued := false; tracksLive := true;
                                handlerChunks := handlerChunks |}]) w).

Definition recorderStart (r : nat) : World → World :=
  withRecorders (alter (λ m, {| state := recording; stopQueued := stopQueued m;
                                tracksLive := tracksLive m;
                                handlerChunks := handlerChunks m |}) r).

(** [mediaRecorder.stop()]: the recorder is inactive at once; the last
    [dataavailable] and the [stop] event follow in a task of their own. *)
Definition recorderStop (r : nat) : World → World :=
  withRecorders (alter (λ m, {| state := inactive; stopQueued := true;
                                tracksLive := tracksLive m;
                                handlerChunks := handlerChunks m |}) r).

(** [mediaRecorder.onstop]: [stream.getTracks().forEach(track => track.stop())]. *)
Definition onstop (r : nat) : World → World :=
  withRecorders (alter (λ m, {| state := state m; stopQueued := false;
                                tracksLive := false;
                                handlerChunks := handlerChunks m |}) r).

Definition isRecordingState (r : nat) (w : World) : bool :=
  match recorders w !! r with
  | Some {| state := recording |} => true
  | _ => false
  end.

Definition setInterval (w : World) : nat * World :=
  (length (intervals w), withIntervals (λ l, l ++ [true]) w).

Definition clearInterval (t : nat) : World → World :=
  withIntervals (<[t := false]>).

Definition setTimeout (currentTranscript : string) : World → World :=
  withTimeouts (λ l, l ++ [Some currentTranscript]).

(** *** [processAudioChunk]

    [transcriptChunks] is the value the callback closes over
    ([useCallback] with the dependency [transcriptChunks]). *)

Definition finally (w : World) : World := setIsProcessing false w.

Definition catch (w : World) : World :=
  emit (ToastError "Error transcribing audio.")
    (emit (ConsoleError "Error processing audio chunk:") w).

(** From the call to the first [await]. *)
Definition processAudioChunk (transcriptChunks : list TranscriptChunk) (audioBlob : Blob)
    (w : World) : World :=
  if decide (blob_size audioBlob = 0%nat) then w
  else
    let w := setIsProcessing true w in
    withInvocations (λ l, l ++ [{| closureChunks := transcriptChunks;
                                   stage := AwaitFileReader audioBlob |}]) w.

Definition suspend (i : nat) (s : Stage) : World → World :=
  withInvocations (alter (λ inv, {| closureChunks := closureChunks inv; stage := s |}) i).

(** From the settling of the awaited promise to the next [await], or
    to the end of the [finally] block.  [now] is the reading of
    [Date.now()]. *)
Definition processAudioChunk_resume (i : nat) (o : Outcome) (now : Z) (w : World) : World :=
  match invocations w !! i with
  | None => w
  | Some inv =>
    let transcriptChunks := closureChunks inv in
    match stage inv, o with
    | Settled, _ => w
    | AwaitFileReader audioBlob, Fulfilled _ =>
        suspend i AwaitTranscribeAudio (emit (TranscribeAudio audioBlob "en") w)
    | AwaitTranscribeAudio, Fulfilled text0 =>
        if Js.truthy (Js.trim text0) then
          let newChunk := {| id := Js.toString now; text := Js.trim text0 |} in
          let updatedChunks := transcriptChunks ++ [newChunk] in
          let w := setTranscriptChunks updatedChunks w in
          let combinedText := Js.join " " (text <$> updatedChunks) in
          suspend i (AwaitGenerateText updatedChunks)
            (emit (GenerateText {| prompt := promptFor combinedText;
                                   model := Some "gpt-4o-mini";
                                   maxTokens := 1024 |}) w)
        else suspend i Settled (finally w)
    | AwaitGenerateText _, Fulfilled improvedText =>
        let w := setCurrentTranscript (Js.trim improvedText) w in
        suspend i Settled (finally w)
    | _, Rejected => suspend i Settled (finally (catch w))
    end
  end.

(** *** [startRecording] *)

(** Up to [await navigator.mediaDevices.getUserMedia(...)].
    [transcriptChunks] is the one of the render whose [startRecording]
    runs: it is what the [processAudioChunk] named in the body closes
    over. *)
Definition startRecording (transcriptChunks : list TranscriptChunk) : World → World :=
  withUserMediaCalls (λ l, l ++ [Some transcriptChunks]).

Definition startRecording_resume (k : nat) (o : MediaOutcome) (now : Z) (w : World) : World :=
  match userMediaCalls w !! k with
  | Some (Some transcriptChunks) =>
    let w := withUserMediaCalls (<[k := None]>) w in
    let failed w :=
      emit (ToastError "Failed to start recording. Please check microphone permissions.")
        (emit (ConsoleError "Error starting recording:") w) in
    match o with
    | Denied => failed w
    | _ =>
      let w := setCurrentTranscript "" w in
      let w := setTranscriptChunks [] w in
      let w := setRecordingDuration 0 w in
      let w := setRecordingStartTimeRef now w in
      match o with
      | Granted =>
        let '(mediaRecorder, w) := newMediaRecorder transcriptChunks w in
        let w := setMediaRecorderRef (Some mediaRecorder) w in
        let w := recorderStart mediaRecorder w in
        let w := setIsRecording true w in
        let '(t, w) := setInterval w in
        let w := setDurationIntervalRef (Some t) w in
        emit (ToastSuccess "Recording started!") w
      | _ => failed w
      end
    end
  | _ => w
  end.

(** *** [stopRecording]

    [currentTranscript] is the one of the render whose [stopRecording]
    runs; the function passed to [setTimeout] keeps it. *)
Definition stopRecording (currentTranscript : string) (w : World) : World :=
  let w := match mediaRecorderRef (refs w) with
           | Some r => if isRecordingState r w then recorderStop r w else w
           | None => w
           end in
  let w := match durationIntervalRef (refs w) with
           | Some t => clearInterval t w
           | None => w
           end in
  let w := setIsRecording false w in
  let w := setIsProcessing false w in
  setTimeout currentTranscript w.

(** The function passed to [setTimeout], when the timer fires. *)
Definition stopRecording_timeout (k : nat) (now_duration now_id now_timestamp : Z)
    (w : World) : World :=
  match timeouts w !! k with
  | Some (Some currentTranscript) =>
    let w := withTimeouts (<[k := None]>) w in
    let startTime := recordingStartTimeRef (refs w) in
    let w := setVoiceNotes
               (saveNote currentTranscript startTime now_duration now_id now_timestamp) w in
    if Js.truthy (Js.trim currentTranscript)
    then emit (ToastSuccess "Voice note saved!") w
    else w
  | _ => w
  end.

(** *** The other handlers *)

(** [deleteNote] of the component. *)
Definition deleteNoteClick (id : string) (w : World) : World :=
  emit (ToastSuccess "Note deleted") (setVoiceNotes (deleteNote id) w).

(** The record button: [onClick={isRecording ? stopRecording : startRecording}],
    [disabled={isRecording && isProcessing}]. *)
Definition click (w : World) : World :=
  let render := hooks w in
  if isRecording render && isProcessing render then w
  else if isRecording render then stopRecording (currentTranscript render) w
  else startRecording (transcriptChunks render) w.

(** [mediaRecorder.ondataavailable = (event) => processAudioChunk(event.data)] *)
Definition ondataavailable (r : nat) (data : Blob) (w : World) : World :=
  match recorders w !! r with
  | Some m => processAudioChunk (handlerChunks m) data w
  | None => w
  end.

(** The callback of the duration timer. *)
Definition durationTick (now : Z) (w : World) : World :=
  setRecordingDuration (Js.floorDiv (now - recordingStartTimeRef (refs w)) 1000) w.

(** *** The event loop *)

Inductive Event :=
  | Click                                            (* on the record button *)
  | UserMediaSettles (k : nat) (o : MediaOutcome) (now : Z)
  | Timeslice (r : nat) (data : Blob)                (* 5000 ms of recording elapsed *)
  | RecorderStops (r : nat) (data : Blob)            (* the task queued by stop() *)
  | DurationTimer (t : nat) (now : Z)
  | StopTimer (k : nat) (now_duration now_id now_timestamp : Z)
  | PromiseSettles (i : nat) (o : Outcome) (now : Z)
  | DeleteClick (id : string).

Definition step (w : World) (e : Event) : World :=
  match e with
  | Click => click w
  | UserMediaSettles k o now => startRecording_resume k o now w
  | Timeslice r data =>
      if isRecordingState r w then ondataavailable r data w else w
  | RecorderStops r data =>
      match recorders w !! r with
      | Some {| stopQueued := true |} => onstop r (ondataavailable r data w)
      | _ => w
      end
  | DurationTimer t now =>
      match intervals w !! t with
      | Some true => durationTick now w
      | _ => w
      end
  | StopTimer k now_duration now_id now_timestamp =>
      stopRecording_timeout k now_duration now_id now_timestamp w
  | PromiseSettles i o now => processAudioChunk_resume i o now w
  | DeleteClick id => deleteNoteClick id w
  end.

Definition run (w : World) (events : list Event) : World :=
  fold_left step events w.

End Rev2.

(** * Auxiliary definitions for the properties *)

(** The stage of invocation [i], if there is one. *)
Definition stage1 (w : Rev1.World) (i : nat) : option Rev1.Stage :=
  Rev1.stage <$> Rev1.invocations w !! i.

Definition stage2 (w : Rev2.World) (i : nat) : option Rev2.Stage :=
  Rev2.stage <$> Rev2.invocations w !! i.

(** The number of promises an invocation may still await. *)
Definition awaits1 (w : Rev1.World) (i : nat) : nat :=
  match stage1 w i with
  | Some (Rev1.AwaitFileReader _) => 3
  | Some Rev1.AwaitTranscribeAudio => 2
  | Some (Rev1.AwaitGenerateText _) => 1
  | _ => 0
  end.

Definition awaits2 (w : Rev2.World) (i : nat) : nat :=
  match stage2 w i with
  | Some (Rev2.AwaitFileReader _) => 3
  | Some Rev2.AwaitTranscribeAudio => 2
  | Some (Rev2.AwaitGenerateText _) => 1
  | _ => 0
  end.

Definition dataUrl : string := "data:audio/webm;base64,AQ==".

(** A recording stopped before the first 5000 ms are over, second
    revision: the only segment is the one flushed by [stop()]. *)
Definition shortRecording2 : list Rev2.Event :=
  [ Rev2.Click; Rev2.UserMediaSettles 0 Granted 1000;
    Rev2.Click;
    Rev2.RecorderStops 0 [x01];
    Rev2.PromiseSettles 0 (Fulfilled dataUrl) 3010;
    Rev2.PromiseSettles 0 (Fulfilled "hello") 3200;
    Rev2.PromiseSettles 0 (Fulfilled "Hello.") 3400;
    Rev2.StopTimer 0 3500 3500 3500 ].

(** A recording with one full segment and the flushed one, second
    revision. *)
Definition twoSegments2 : list Rev2.Event :=
  [ Rev2.Click; Rev2.UserMediaSettles 0 Granted 1000;
    Rev2.Timeslice 0 [x01];
    Rev2.PromiseSettles 0 (Fulfilled dataUrl) 6010;
    Rev2.PromiseSettles 0 (Fulfilled "hello") 6200;
    Rev2.PromiseSettles 0 (Fulfilled "Hello.") 6400;
    Rev2.Click;
    Rev2.RecorderStops 0 [x02];
    Rev2.PromiseSettles 1 (Fulfilled dataUrl) 8010;
    Rev2.PromiseSettles 1 (Fulfilled "world") 8200;
    Rev2.PromiseSettles 1 (Fulfilled "Hello world.") 8400;
    Rev2.StopTimer 0 8500 8500 8500 ].

(** The same short recording in the first revision: the note is decided
    in the click, before the flushed segment is even delivered. *)
Definition shortRecording1 : list Rev1.Event :=
  [ Rev1.Click 0 0 0; Rev1.UserMediaSettles 0 Granted 1000;
    Rev1.Click 3000 3000 3000;
    Rev1.RecorderStops 0 [x01];
    Rev1.PromiseSettles 0 (Fulfilled dataUrl) 3010 3010;
    Rev1.PromiseSettles 0 (Fulfilled "hello") 3200 3200;
    Rev1.PromiseSettles 0 (Fulfilled "Hello.") 3400 3400 ].

(** The clock reading that an event would turn into a note id is not the
    id of a stored note. *)
Definition freshId1 (w : Rev1.World) (e : Rev1.Event) : bool :=
  match e with
  | Rev1.Click _ now_id _ =>
      bool_decide (Js.toString now_id ∉ note_id <$> Rev1.voiceNotes (Rev1.hooks w))
  | _ => true
  end.

Definition freshId2 (w : Rev2.World) (e : Rev2.Event) : bool :=
  match e with
  | Rev2.StopTimer _ _ now_id _ =>
      bool_decide (Js.toString now_id ∉ note_id <$> Rev2.voiceNotes (Rev2.hooks w))
  | _ => true
  end.

(** It is so at every event of a run. *)
Fixpoint freshRun1 (w : Rev1.World) (events : list Rev1.Event) : bool :=
  match events with
  | [] => true
  | e :: events => freshId1 w e && freshRun1 (Rev1.step w e) events
  end.

Fixpoint freshRun2 (w : Rev2.World) (events : list Rev2.Event) : bool :=
  match events with
  | [] => true
  | e :: events => freshId2 w e && freshRun2 (Rev2.step w e) events
  end.

(** Two recordings saved at the same reading of the clock, second
    revision. *)
Definition sameClock2 : list Rev2.Event :=
  [ Rev2.Click; Rev2.UserMediaSettles 0 Granted 1000;
    Rev2.Timeslice 0 [x01];
    Rev2.PromiseSettles 0 (Fulfilled dataUrl) 6010;
    Rev2.PromiseSettles 0 (Fulfilled "hello") 6200;
    Rev2.PromiseSettles 0 (Fulfilled "Hello.") 6400;
    Rev2.Click;
    Rev2.StopTimer 0 9000 9000 9000;
    Rev2.Click; Rev2.UserMediaSettles 1 Granted 2000;
    Rev2.Timeslice 1 [x02];
    Rev2.PromiseSettles 1 (Fulfilled dataUrl) 7010;
    Rev2.PromiseSettles 1 (Fulfilled "world") 7200;
    Rev2.PromiseSettles 1 (Fulfilled "World.") 7400;
    Rev2.Click;
    Rev2.StopTimer 1 9000 9000 9000 ].

(** The status the second revision displays: ['Recording...'] while
    [isRecording]; otherwise ['Finalizing note...'] while [isProcessing];
    otherwise nothing. *)
Inductive Status := Idle | Recording | Finalizing.

Definition status2 (w : Rev2.World) : Status :=
  if Rev2.isRecording (Rev2.hooks w) then Recording
  else if Rev2.isProcessing (Rev2.hooks w) then Finalizing
  else Idle.

(** A short recording is stopped and its flushed segment is being
    processed. *)
Definition finalizing2 : list Rev2.Event :=
  [ Rev2.Click; Rev2.UserMediaSettles 0 Granted 1000;
    Rev2.Click;
    Rev2.RecorderStops 0 [x01];
    Rev2.PromiseSettles 0 (Fulfilled dataUrl) 3010;
    Rev2.PromiseSettles 0 (Fulfilled "hello") 3200 ].

(** The button is clicked twice before [getUserMedia] answers. *)
Definition doubleStart2 : list Rev2.Event :=
  [ Rev2.Click; Rev2.Click;
    Rev2.UserMediaSettles 0 Granted 1000;
    Rev2.UserMediaSettles 1 Granted 1001 ].









(** A first-revision recording whose segment is waiting for its file
    reader, twice (once for the [onstop] handler, once for the 100 ms
    timer). *)
Definition segmentRead1 : list Rev1.Event :=
  [ Rev1.Click 0 0 0; Rev1.UserMediaSettles 0 Granted 1000;
    Rev1.TimerFires 0 6000;
    Rev1.RecorderStops 0 [x01];
    Rev1.TimerFires 2 6100 ].

(** ... then for its two transcriptions ... *)
Definition segmentSent1 : list Rev1.Event :=
  segmentRead1
  ++ [ Rev1.PromiseSettles 0 (Fulfilled dataUrl) 6110 6110;
       Rev1.PromiseSettles 1 (Fulfilled dataUrl) 6120 6120 ].

(** ... then for its two enhancements ... *)
Definition segmentTranscribed1 : list Rev1.Event :=
  segmentSent1
  ++ [ Rev1.PromiseSettles 0 (Fulfilled "hello") 6300 6300;
       Rev1.PromiseSettles 1 (Fulfilled "hello there") 6400 6400 ].

(** ... then enhanced, with the recording still on. *)
Definition segmentEnhanced1 : list Rev1.Event :=
  segmentTranscribed1
  ++ [ Rev1.PromiseSettles 0 (Fulfilled "Hello.") 6500 6500;
       Rev1.PromiseSettles 1 (Fulfilled "Hello there.") 6600 6600 ].

(** Two second-revision segments waiting for their transcriptions ... *)
Definition segmentsSent2 : list Rev2.Event :=
  [ Rev2.Click; Rev2.UserMediaSettles 0 Granted 1000;
    Rev2.Timeslice 0 [x01];
    Rev2.PromiseSettles 0 (Fulfilled dataUrl) 6010;
    Rev2.Timeslice 0 [x02];
    Rev2.PromiseSettles 1 (Fulfilled dataUrl) 11010 ].

(** ... then for their enhancements ... *)
Definition segmentsTranscribed2 : list Rev2.Event :=
  segmentsSent2
  ++ [ Rev2.PromiseSettles 0 (Fulfilled "hello") 11200;
       Rev2.PromiseSettles 1 (Fulfilled "world") 11300 ].

(** ... then enhanced, with the recording still on. *)
Definition segmentsEnhanced2 : list Rev2.Event :=
  segmentsTranscribed2
  ++ [ Rev2.PromiseSettles 0 (Fulfilled "Hello.") 11400;
       Rev2.PromiseSettles 1 (Fulfilled "World.") 11500 ].

(** * Definitions for the further properties *)

(** A string that does not start with white space. *)
Definition headOk (s : string) : Prop :=
  match s with
  | String c _ => Js.isWhiteSpace c = false
  | EmptyString => True
  end.

(** A text that neither starts nor ends with white space. *)
Definition Trimmed (s : string) : Prop := headOk s ∧ headOk (String.rev s).

(** What a stored text is: not empty, and trimmed. *)
Definition goodText (s : string) : Prop := s ≠ "" ∧ Trimmed s.

Definition goodChunks1 (l : list Rev1.TranscriptChunk) : Prop :=
  Forall (λ chunk, goodText (Rev1.text chunk)) l.

Definition goodChunks2 (l : list Rev2.TranscriptChunk) : Prop :=
  Forall (λ chunk, goodText (Rev2.text chunk)) l.

(** Second revision: the fragment lists that closures hold. *)
Definition closuresGood2 (w : Rev2.World) : Prop :=
  goodChunks2 (Rev2.transcriptChunks (Rev2.hooks w))
  ∧ Forall (λ m, goodChunks2 (Rev2.handlerChunks m)) (Rev2.recorders w)
  ∧ Forall (λ c, from_option goodChunks2 True c) (Rev2.userMediaCalls w)
  ∧ Forall (λ inv, goodChunks2 (Rev2.closureChunks inv)) (Rev2.invocations w).

(** A transcription request carries audio. *)
Definition audioNonEmpty (e : Effect) : Prop :=
  match e with
  | TranscribeAudio audio _ => audio ≠ []
  | _ => True
  end.

(** An invocation that still has to read its blob has a non-empty one. *)
Definition pendingAudio1 (inv : Rev1.Invocation) : Prop :=
  match Rev1.stage inv with
  | Rev1.AwaitFileReader audioBlob => audioBlob ≠ []
  | _ => True
  end.

Definition pendingAudio2 (inv : Rev2.Invocation) : Prop :=
  match Rev2.stage inv with
  | Rev2.AwaitFileReader audioBlob => audioBlob ≠ []
  | _ => True
  end.

Definition audioInvariant1 (w : Rev1.World) : Prop :=
  Forall audioNonEmpty (Rev1.effects w)
  ∧ Forall pendingAudio1 (Rev1.invocations w)
  ∧ Forall (λ blob : Blob, blob ≠ []) (Rev1.audioChunksRef (Rev1.refs w)).

Definition audioInvariant2 (w : Rev2.World) : Prop :=
  Forall audioNonEmpty (Rev2.effects w)
  ∧ Forall pendingAudio2 (Rev2.invocations w).

(** Second revision: while [isRecording] is true, the recorder that
    [mediaRecorderRef] holds is recording. *)
Definition recordingConsistent2 (w : Rev2.World) : Prop :=
  Rev2.isRecording (Rev2.hooks w) = true →
  ∃ r, Rev2.mediaRecorderRef (Rev2.refs w) = Some r ∧ Rev2.isRecordingState r w = true.



(** First revision: the [isRecording] that the closures made by
    [startRecording] hold is false. *)
Definition timerClosureNotRecording (t : Rev1.Timer) : Prop :=
  match Rev1.kind t with
  | Rev1.ChunkInterval c | Rev1.ChunkDelay c => Rev1.closureIsRecording c = false
  | Rev1.DurationInterval => True
  end.

Definition closuresNotRecording1 (w : Rev1.World) : Prop :=
  Forall (λ c, from_option (λ c, Rev1.closureIsRecording c = false) True c)
    (Rev1.userMediaCalls w)
  ∧ Forall timerClosureNotRecording (Rev1.timers w).

(** An event that is not a click on a delete button. *)
Definition notDelete1 (e : Rev1.Event) : bool :=
  match e with Rev1.DeleteClick _ => false | _ => true end.

Definition notDelete2 (e : Rev2.Event) : bool :=
  match e with Rev2.DeleteClick _ => false | _ => true end.

(** An event other than a microphone that is granted and recorded from. *)
Definition notGranted1 (e : Rev1.Event) : bool :=
  match e with Rev1.UserMediaSettles _ Granted _ => false | _ => true end.

Definition notGranted2 (e : Rev2.Event) : bool :=
  match e with Rev2.UserMediaSettles _ Granted _ => false | _ => true end.

(** An effect that is no request to a remote service. *)
Definition noRequest (e : Effect) : Prop :=
  match e with
  | TranscribeAudio _ _ | GenerateText _ => False
  | _ => True
  end.

(** Nothing of a recording exists. *)
Definition neverStarted1 (w : Rev1.World) : Prop :=
  Rev1.recorders w = [] ∧ Rev1.timers w = [] ∧ Rev1.invocations w = []
  ∧ Rev1.isRecording (Rev1.hooks w) = false
  ∧ Rev1.currentTranscript (Rev1.hooks w) = ""
  ∧ Rev1.voiceNotes (Rev1.hooks w) = []
  ∧ Forall noRequest (Rev1.effects w).

Definition neverStarted2 (w : Rev2.World) : Prop :=
  Rev2.recorders w = [] ∧ Rev2.intervals w = [] ∧ Rev2.timeouts w = []
  ∧ Rev2.invocations w = []
  ∧ Rev2.isRecording (Rev2.hooks w) = false
  ∧ Rev2.currentTranscript (Rev2.hooks w) = ""
  ∧ Rev2.voiceNotes (Rev2.hooks w) = []
  ∧ Forall noRequest (Rev2.effects w).

(** Second revision: the fragment lists are bounded by the number of
    recorders made so far; the list that the handler of recorder [j]
    holds has at most [j] fragments. *)
Definition chunksBounded2 (w : Rev2.World) : Prop :=
  (∀ j m, Rev2.recorders w !! j = Some m → (length (Rev2.handlerChunks m) ≤ j)%nat)
  ∧ Forall (λ c, from_option (λ l : list Rev2.TranscriptChunk,
                                (length l ≤ length (Rev2.recorders w))%nat) True c)
      (Rev2.userMediaCalls w)
  ∧ Forall (λ inv, (length (Rev2.closureChunks inv) < length (Rev2.recorders w))%nat)
      (Rev2.invocations w)
  ∧ (length (Rev2.transcriptChunks (Rev2.hooks w)) ≤ length (Rev2.recorders w))%nat.

(** The cleanup function that [useEffect(..., [])] returns; React calls
    it when the component unmounts.  It reads the refs as they are then.
    First revision: [stop()] is called whatever the state of the recorder
    is; on a recorder that is inactive it changes nothing, and it is the
    last statement of the function. *)
Definition cleanup1 (w : Rev1.World) : Rev1.World :=
  let w := match Rev1.chunkIntervalRef (Rev1.refs w) with
           | Some t => Rev1.clearTimer t w
           | None => w
           end in
  let w := match Rev1.durationIntervalRef (Rev1.refs w) with
           | Some t => Rev1.clearTimer t w
           | None => w
           end in
  match Rev1.mediaRecorderRef (Rev1.refs w) with
  | Some r => if Rev1.isRecordingState r w then Rev1.recorderStop r w else w
  | None => w
  end.

Definition cleanup2 (w : Rev2.World) : Rev2.World :=
  let w := match Rev2.durationIntervalRef (Rev2.refs w) with
           | Some t => Rev2.clearInterval t w
           | None => w
           end in
  match Rev2.mediaRecorderRef (Rev2.refs w) with
  | Some r => if Rev2.isRecordingState r w then Rev2.recorderStop r w else w
  | None => w
  end.

(** Second revision: the stop event of recorder [r] is queued. *)
Definition stopPending2 (r : nat) (w : Rev2.World) : Prop :=
  ∃ m, Rev2.recorders w !! r = Some m ∧ Rev2.stopQueued m = true.

(** Second revision: the tracks of the stream of recorder [r] are
    stopped (the microphone is released). *)
Definition released2 (r : nat) (w : Rev2.World) : Prop :=
  ∃ m, Rev2.recorders w !! r = Some m ∧ Rev2.tracksLive m = false.

(** An event other than the delivery of the stop event of recorder [r]. *)
Definition notStopOf2 (r : nat) (e : Rev2.Event) : bool :=
  match e with
  | Rev2.RecorderStops r' _ => negb (Nat.eqb r' r)
  | _ => true
  end.




(** The number of elements of a list that satisfy a test. *)
Fixpoint countIf {A : Type} (p : A → bool) (l : list A) : nat :=
  match l with
  | [] => 0
  | x :: l => (if p x then 1 else 0) + countIf p l
  end%nat.

Definition isTranscribeAudio (e : Effect) : bool :=
  match e with TranscribeAudio _ _ => true | _ => false end.

Definition isGenerateText (e : Effect) : bool :=
  match e with GenerateText _ => true | _ => false end.

Definition atFileReader1 (inv : Rev1.Invocation) : bool :=
  match Rev1.stage inv with Rev1.AwaitFileReader _ => true | _ => false end.

Definition atTranscribeAudio1 (inv : Rev1.Invocation) : bool :=
  match Rev1.stage inv with Rev1.AwaitTranscribeAudio => true | _ => false end.

Definition atFileReader2 (inv : Rev2.Invocation) : bool :=
  match Rev2.stage inv with Rev2.AwaitFileReader _ => true | _ => false end.

Definition atTranscribeAudio2 (inv : Rev2.Invocation) : bool :=
  match Rev2.stage inv with Rev2.AwaitTranscribeAudio => true | _ => false end.

(** The requests made so far, against the invocations of
    [processAudioChunk]: an enhancement request was made only by an
    invocation that is past its transcription, a transcription request
    only by one that is past the reading of its blob. *)
Definition requestsBounded1 (w : Rev1.World) : Prop :=
  (countIf isGenerateText (Rev1.effects w) + countIf atTranscribeAudio1 (Rev1.invocations w)
   ≤ countIf isTranscribeAudio (Rev1.effects w))%nat
  ∧ (countIf isTranscribeAudio (Rev1.effects w) + countIf atFileReader1 (Rev1.invocations w)
     ≤ length (Rev1.invocations w))%nat.

Definition requestsBounded2 (w : Rev2.World) : Prop :=
  (countIf isGenerateText (Rev2.effects w) + countIf atTranscribeAudio2 (Rev2.invocations w)
   ≤ countIf isTranscribeAudio (Rev2.effects w))%nat
  ∧ (countIf isTranscribeAudio (Rev2.effects w) + countIf atFileReader2 (Rev2.invocations w)
     ≤ length (Rev2.invocations w))%nat.

(** First revision: the stop event of the recorder has been handled. *)
Definition stopHandled1 (m : Rev1.MediaRecorder) : Prop :=
  Rev1.state m = Rev1.inactive ∧ Rev1.stopQueued m = false.

(** First revision: every recorder whose stop event has been handled and
    whose tracks are live is awaited for by a call of [processAudioChunk]
    that has not returned: the one its [onstop] handler awaits. *)
Definition tracksHeld1 (rs : list Rev1.MediaRecorder) (invs : list Rev1.Invocation) : Prop :=
  ∀ r m, rs !! r = Some m → stopHandled1 m → Rev1.tracksLive m = true →
    ∃ i inv, invs !! i = Some inv ∧ Rev1.awaitedByOnstop inv = Some r
             ∧ Rev1.stage inv ≠ Rev1.Settled.

(** Second revision: the timer of a [stopRecording] has not fired. *)
Definition isPending (c : option string) : bool :=
  match c with Some _ => true | None => false end.

(** The notes, the stops that have not saved yet and the recording
    under way, against the recordings started. *)
Definition notesBounded1 (w : Rev1.World) : Prop :=
  (length (Rev1.voiceNotes (Rev1.hooks w))
   + (if Rev1.isRecording (Rev1.hooks w) then 1 else 0)
   ≤ length (Rev1.recorders w))%nat.

Definition notesBounded2 (w : Rev2.World) : Prop :=
  (length (Rev2.voiceNotes (Rev2.hooks w))
   + countIf isPending (Rev2.timeouts w)
   + (if Rev2.isRecording (Rev2.hooks w) then 1 else 0)
   ≤ length (Rev2.recorders w))%nat.

(** A text that [trim] leaves as it is. *)
Definition isTrimmed (s : string) : Prop := Js.trim s = s.

(** Second revision: the transcript shown and the transcripts that the
    timers of [stopRecording] hold are trimmed. *)
Definition transcriptsTrimmed2 (w : Rev2.World) : Prop :=
  isTrimmed (Rev2.currentTranscript (Rev2.hooks w))
  ∧ Forall (λ c, from_option isTrimmed True c) (Rev2.timeouts w).

(** * Properties *)

(** The handlers are straight-line code over a few tests: a property of
    the fields they leave alone is settled by going through the tests. *)
Ltac by_cases := by repeat (case_match; simpl).

(** ** The note store: deletion *)

Lemma deleteNote_absent (id : string) (notes : list VoiceNote) :
  id ∉ note_id <$> notes → deleteNote id notes = notes.
Proof.
  unfold deleteNote. induction notes as [|n notes IH]; intros Hid; [done|].
  rewrite fmap_cons, not_elem_of_cons in Hid. destruct Hid as [Hne Hid].
  rewrite filter_cons_True by done. f_equal. by apply IH.
Qed.

Lemma deleteNote_removes (id : string) (notes : list VoiceNote) :
  id ∉ note_id <$> deleteNote id notes.
Proof.
  unfold deleteNote. intros Hin. apply list_elem_of_fmap in Hin as (n & Hn & Hin).
  apply list_elem_of_filter in Hin as [Hne _]. congruence.
Qed.

Lemma deleteNote_idempotent (id : string) (notes : list VoiceNote) :
  deleteNote id (deleteNote id notes) = deleteNote id notes.
Proof. apply deleteNote_absent, deleteNote_removes. Qed.

(** C8.  Deleting an id that no stored note has leaves the note list of
    either revision as it is (the handler is a total function: there is
    no error path), and deleting an id twice is deleting it once. *)
Theorem C8_delete_absent_id_is_noop (id : string)
    (w1 : Rev1.World) (w2 : Rev2.World) :
  id ∉ note_id <$> Rev1.voiceNotes (Rev1.hooks w1) →
  id ∉ note_id <$> Rev2.voiceNotes (Rev2.hooks w2) →
  Rev1.voiceNotes (Rev1.hooks (Rev1.step w1 (Rev1.DeleteClick id)))
    = Rev1.voiceNotes (Rev1.hooks w1)
  ∧ Rev2.voiceNotes (Rev2.hooks (Rev2.step w2 (Rev2.DeleteClick id)))
    = Rev2.voiceNotes (Rev2.hooks w2)
  ∧ (∀ notes, deleteNote id (deleteNote id notes) = deleteNote id notes).
Proof.
  intros H1 H2. simpl. repeat split.
  - by apply deleteNote_absent.
  - by apply deleteNote_absent.
  - intros notes. apply deleteNote_idempotent.
Qed.

Lemma C8_delete_absent_id_is_noop_witness :
  let w1 := Rev1.run Rev1.initial (segmentEnhanced1 ++ [Rev1.Click 9000 9000 9000]) in
  let w2 := Rev2.run Rev2.initial twoSegments2 in
  note_id <$> Rev1.voiceNotes (Rev1.hooks w1) = ["9000"]
  ∧ note_id <$> Rev2.voiceNotes (Rev2.hooks w2) = ["8500"]
  ∧ Rev1.voiceNotes (Rev1.hooks (Rev1.step w1 (Rev1.DeleteClick "1234")))
    = Rev1.voiceNotes (Rev1.hooks w1)
  ∧ Rev2.voiceNotes (Rev2.hooks (Rev2.step w2 (Rev2.DeleteClick "1234")))
    = Rev2.voiceNotes (Rev2.hooks w2).
Proof.
  intros w1 w2. split; [vm_compute; reflexivity|]. split; [vm_compute; reflexivity|].
  destruct (C8_delete_absent_id_is_noop "1234" w1 w2) as (H1 & H2 & _).
  - compute_done.
  - compute_done.
  - split; [exact H1|exact H2].
Defined.

(** ** [processAudioChunk]: what one resumption does *)

Lemma stage1_suspend (w : Rev1.World) (i : nat) (s : Rev1.Stage) :
  is_Some (Rev1.invocations w !! i) → stage1 (Rev1.suspend i s w) i = Some s.
Proof.
  intros [inv Hi]. unfold stage1, Rev1.suspend. simpl.
  by rewrite list_lookup_alter_eq, Hi.
Qed.

Lemma stage1_settled (w : Rev1.World) (i : nat) (by_ : option nat) :
  is_Some (Rev1.invocations w !! i) → stage1 (Rev1.settled i by_ w) i = Some Rev1.Settled.
Proof.
  intros Hi. unfold Rev1.settled. destruct by_; by apply stage1_suspend.
Qed.

Lemma stage2_suspend (w : Rev2.World) (i : nat) (s : Rev2.Stage) :
  is_Some (Rev2.invocations w !! i) → stage2 (Rev2.suspend i s w) i = Some s.
Proof.
  intros [inv Hi]. unfold stage2, Rev2.suspend. simpl.
  by rewrite list_lookup_alter_eq, Hi.
Qed.

Lemma Rev1_empty_transcription (w : Rev1.World) (i : nat) (text0 : string)
    (now_id now_timestamp : Z) :
  stage1 w i = Some Rev1.AwaitTranscribeAudio →
  Js.trim text0 = "" →
  let w' := Rev1.step w (Rev1.PromiseSettles i (Fulfilled text0) now_id now_timestamp) in
  Rev1.transcriptChunks (Rev1.hooks w') = Rev1.transcriptChunks (Rev1.hooks w)
  ∧ Rev1.effects w' = Rev1.effects w
  ∧ stage1 w' i = Some Rev1.Settled.
Proof.
  unfold stage1. intros Hst Htrim; simpl. unfold Rev1.processAudioChunk_resume.
  destruct (Rev1.invocations w !! i) as [inv|] eqn:Hi; [|done].
  simpl in Hst. injection Hst as Hst. rewrite Hst, Htrim. simpl.
  split_and!.
  - by destruct (Rev1.awaitedByOnstop inv).
  - by destruct (Rev1.awaitedByOnstop inv).
  - apply stage1_settled. simpl. by rewrite Hi.
Qed.

Lemma Rev2_empty_transcription (w : Rev2.World) (i : nat) (text0 : string) (now : Z) :
  stage2 w i = Some Rev2.AwaitTranscribeAudio →
  Js.trim text0 = "" →
  let w' := Rev2.step w (Rev2.PromiseSettles i (Fulfilled text0) now) in
  Rev2.transcriptChunks (Rev2.hooks w') = Rev2.transcriptChunks (Rev2.hooks w)
  ∧ Rev2.effects w' = Rev2.effects w
  ∧ stage2 w' i = Some Rev2.Settled.
Proof.
  unfold stage2. intros Hst Htrim; simpl. unfold Rev2.processAudioChunk_resume.
  destruct (Rev2.invocations w !! i) as [inv|] eqn:Hi; [|done].
  simpl in Hst. injection Hst as Hst. rewrite Hst, Htrim. simpl.
  split_and!; [done..|]. by rewrite list_lookup_alter_eq, Hi.
Qed.

(** C5.  When the transcription call of an invocation returns a text that
    is empty after trimming, the fragment list is unchanged, no call is
    issued (the list of effects, which records every [generateText]
    request, is unchanged) and the invocation has returned; in both
    revisions. *)
Theorem C5_empty_transcription_contributes_nothing :
  (∀ (w : Rev1.World) (i : nat) (text0 : string) (now_id now_timestamp : Z),
     stage1 w i = Some Rev1.AwaitTranscribeAudio →
     Js.trim text0 = "" →
     let w' := Rev1.step w (Rev1.PromiseSettles i (Fulfilled text0) now_id now_timestamp) in
     Rev1.transcriptChunks (Rev1.hooks w') = Rev1.transcriptChunks (Rev1.hooks w)
     ∧ Rev1.effects w' = Rev1.effects w
     ∧ stage1 w' i = Some Rev1.Settled)
  ∧
  (∀ (w : Rev2.World) (i : nat) (text0 : string) (now : Z),
     stage2 w i = Some Rev2.AwaitTranscribeAudio →
     Js.trim text0 = "" →
     let w' := Rev2.step w (Rev2.PromiseSettles i (Fulfilled text0) now) in
     Rev2.transcriptChunks (Rev2.hooks w') = Rev2.transcriptChunks (Rev2.hooks w)
     ∧ Rev2.effects w' = Rev2.effects w
     ∧ stage2 w' i = Some Rev2.Settled).
Proof.
  split.
  - intros. by apply Rev1_empty_transcription.
  - intros. by apply Rev2_empty_transcription.
Qed.

Lemma C5_empty_transcription_contributes_nothing_witness :
  (let w := Rev1.run Rev1.initial segmentSent1 in
   let w' := Rev1.step w (Rev1.PromiseSettles 0 (Fulfilled "  ") 6300 6300) in
   Rev1.transcriptChunks (Rev1.hooks w') = Rev1.transcriptChunks (Rev1.hooks w)
   ∧ Rev1.effects w' = Rev1.effects w
   ∧ stage1 w' 0 = Some Rev1.Settled)
  ∧
  (let w := Rev2.run Rev2.initial segmentsSent2 in
   let w' := Rev2.step w (Rev2.PromiseSettles 1 (Fulfilled "  ") 11200) in
   Rev2.transcriptChunks (Rev2.hooks w') = Rev2.transcriptChunks (Rev2.hooks w)
   ∧ Rev2.effects w' = Rev2.effects w
   ∧ stage2 w' 1 = Some Rev2.Settled).
Proof.
  destruct C5_empty_transcription_contributes_nothing as [H1 H2]. split.
  - intros w. apply (H1 w 0%nat "  " 6300 6300); vm_compute; reflexivity.
  - intros w. apply (H2 w 1%nat "  " 11200); vm_compute; reflexivity.
Defined.

(** ** Failures *)

Lemma Rev1_isRecordingState_stopTracks (r r' : nat) (w : Rev1.World) :
  Rev1.isRecordingState r (Rev1.stopTracks r' w) = Rev1.isRecordingState r w.
Proof.
  unfold Rev1.isRecordingState, Rev1.stopTracks. simpl.
  rewrite list_lookup_alter. case_decide; [subst|done].
  by destruct (Rev1.recorders w !! r) as [[]|].
Qed.

Lemma Rev1_rejected (w : Rev1.World) (i : nat) (now_id now_timestamp : Z) :
  let w' := Rev1.step w (Rev1.PromiseSettles i Rejected now_id now_timestamp) in
  Rev1.currentTranscript (Rev1.hooks w') = Rev1.currentTranscript (Rev1.hooks w)
  ∧ Rev1.transcriptChunks (Rev1.hooks w') = Rev1.transcriptChunks (Rev1.hooks w)
  ∧ Rev1.voiceNotes (Rev1.hooks w') = Rev1.voiceNotes (Rev1.hooks w)
  ∧ Rev1.isRecording (Rev1.hooks w') = Rev1.isRecording (Rev1.hooks w)
  ∧ Rev1.refs w' = Rev1.refs w
  ∧ Rev1.timers w' = Rev1.timers w
  ∧ (∀ r, Rev1.isRecordingState r w' = Rev1.isRecordingState r w)
  ∧ (∀ j, j ≠ i → Rev1.invocations w' !! j = Rev1.invocations w !! j)
  ∧ (Rev1.effects w' = Rev1.effects w
     ∨ Rev1.effects w' = Rev1.effects w ++ [ConsoleError "Error processing audio chunk:"]).
Proof.
  simpl. unfold Rev1.processAudioChunk_resume.
  destruct (Rev1.invocations w !! i) as [inv|] eqn:Hi; [|by split_and!; auto].
  assert (∀ w0 : Rev1.World,
    let w' := Rev1.settled i (Rev1.awaitedByOnstop inv) (Rev1.finally (Rev1.catch w0)) in
    Rev1.currentTranscript (Rev1.hooks w') = Rev1.currentTranscript (Rev1.hooks w0)
    ∧ Rev1.transcriptChunks (Rev1.hooks w') = Rev1.transcriptChunks (Rev1.hooks w0)
    ∧ Rev1.voiceNotes (Rev1.hooks w') = Rev1.voiceNotes (Rev1.hooks w0)
    ∧ Rev1.isRecording (Rev1.hooks w') = Rev1.isRecording (Rev1.hooks w0)
    ∧ Rev1.refs w' = Rev1.refs w0
    ∧ Rev1.timers w' = Rev1.timers w0
    ∧ (∀ r, Rev1.isRecordingState r w' = Rev1.isRecordingState r w0)
    ∧ (∀ j, j ≠ i → Rev1.invocations w' !! j = Rev1.invocations w0 !! j)
    ∧ (Rev1.effects w' = Rev1.effects w0
       ∨ Rev1.effects w' = Rev1.effects w0 ++ [ConsoleError "Error processing audio chunk:"]))
    as Hcatch.
  { intros w0. unfold Rev1.settled.
    destruct (Rev1.awaitedByOnstop inv) as [r0|]; simpl; split_and!; auto.
    - intros r. by rewrite Rev1_isRecordingState_stopTracks.
    - intros j Hj. by rewrite list_lookup_alter_ne.
    - intros j Hj. by rewrite list_lookup_alter_ne. }
  destruct (Rev1.stage inv); try apply Hcatch.
  by split_and!; auto.
Qed.

Lemma Rev2_rejected (w : Rev2.World) (i : nat) (now : Z) :
  let w' := Rev2.step w (Rev2.PromiseSettles i Rejected now) in
  Rev2.currentTranscript (Rev2.hooks w') = Rev2.currentTranscript (Rev2.hooks w)
  ∧ Rev2.transcriptChunks (Rev2.hooks w') = Rev2.transcriptChunks (Rev2.hooks w)
  ∧ Rev2.voiceNotes (Rev2.hooks w') = Rev2.voiceNotes (Rev2.hooks w)
  ∧ Rev2.isRecording (Rev2.hooks w') = Rev2.isRecording (Rev2.hooks w)
  ∧ Rev2.refs w' = Rev2.refs w
  ∧ Rev2.recorders w' = Rev2.recorders w
  ∧ Rev2.intervals w' = Rev2.intervals w
  ∧ Rev2.timeouts w' = Rev2.timeouts w
  ∧ (∀ j, j ≠ i → Rev2.invocations w' !! j = Rev2.invocations w !! j)
  ∧ (Rev2.effects w' = Rev2.effects w
     ∨ Rev2.effects w' = Rev2.effects w ++ [ConsoleError "Error processing audio chunk:";
                                           ToastError "Error transcribing audio."]).
Proof.
  simpl. unfold Rev2.processAudioChunk_resume.
  destruct (Rev2.invocations w !! i) as [inv|] eqn:Hi; [|by split_and!; auto].
  destruct (Rev2.stage inv); simpl; split_and!; auto;
    try (intros j Hj; by rewrite list_lookup_alter_ne);
    right; by rewrite <- app_assoc.
Qed.

(** C7.  When a promise awaited by an invocation of [processAudioChunk]
    rejects (the file reader, the transcription call or the enhancement
    call), the step changes neither [currentTranscript] nor the fragment
    list nor the notes; the session goes on: [isRecording], the refs,
    the timers, the recording state of every recorder and every other
    invocation are as before; and the only effects are the error
    reports.  In both revisions. *)
Theorem C7_failure_keeps_transcript_and_session :
  (∀ (w : Rev1.World) (i : nat) (now_id now_timestamp : Z),
     let w' := Rev1.step w (Rev1.PromiseSettles i Rejected now_id now_timestamp) in
     Rev1.currentTranscript (Rev1.hooks w') = Rev1.currentTranscript (Rev1.hooks w)
     ∧ Rev1.transcriptChunks (Rev1.hooks w') = Rev1.transcriptChunks (Rev1.hooks w)
     ∧ Rev1.voiceNotes (Rev1.hooks w') = Rev1.voiceNotes (Rev1.hooks w)
     ∧ Rev1.isRecording (Rev1.hooks w') = Rev1.isRecording (Rev1.hooks w)
     ∧ Rev1.refs w' = Rev1.refs w
     ∧ Rev1.timers w' = Rev1.timers w
     ∧ (∀ r, Rev1.isRecordingState r w' = Rev1.isRecordingState r w)
     ∧ (∀ j, j ≠ i → Rev1.invocations w' !! j = Rev1.invocations w !! j)
     ∧ (Rev1.effects w' = Rev1.effects w
        ∨ Rev1.effects w' = Rev1.effects w ++ [ConsoleError "Error processing audio chunk:"]))
  ∧
  (∀ (w : Rev2.World) (i : nat) (now : Z),
     let w' := Rev2.step w (Rev2.PromiseSettles i Rejected now) in
     Rev2.currentTranscript (Rev2.hooks w') = Rev2.currentTranscript (Rev2.hooks w)
     ∧ Rev2.transcriptChunks (Rev2.hooks w') = Rev2.transcriptChunks (Rev2.hooks w)
     ∧ Rev2.voiceNotes (Rev2.hooks w') = Rev2.voiceNotes (Rev2.hooks w)
     ∧ Rev2.isRecording (Rev2.hooks w') = Rev2.isRecording (Rev2.hooks w)
     ∧ Rev2.refs w' = Rev2.refs w
     ∧ Rev2.recorders w' = Rev2.recorders w
     ∧ Rev2.intervals w' = Rev2.intervals w
     ∧ Rev2.timeouts w' = Rev2.timeouts w
     ∧ (∀ j, j ≠ i → Rev2.invocations w' !! j = Rev2.invocations w !! j)
     ∧ (Rev2.effects w' = Rev2.effects w
        ∨ Rev2.effects w' = Rev2.effects w ++ [ConsoleError "Error processing audio chunk:";
                                              ToastError "Error transcribing audio."])).
Proof.
  split.
  - intros. apply Rev1_rejected.
  - intros. apply Rev2_rejected.
Qed.

Lemma C7_failure_keeps_transcript_and_session_witness :
  (let w := Rev1.run Rev1.initial
              (segmentTranscribed1 ++ [Rev1.PromiseSettles 0 (Fulfilled "Hello.") 6500 6500]) in
   let w' := Rev1.step w (Rev1.PromiseSettles 1 Rejected 6600 6600) in
   Rev1.currentTranscript (Rev1.hooks w) = "Hello."
   ∧ Rev1.currentTranscript (Rev1.hooks w') = Rev1.currentTranscript (Rev1.hooks w)
   ∧ Rev1.transcriptChunks (Rev1.hooks w') = Rev1.transcriptChunks (Rev1.hooks w)
   ∧ Rev1.isRecording (Rev1.hooks w') = Rev1.isRecording (Rev1.hooks w)
   ∧ Rev1.invocations w' !! 0%nat = Rev1.invocations w !! 0%nat)
  ∧
  (let w := Rev2.run Rev2.initial
              (segmentsTranscribed2 ++ [Rev2.PromiseSettles 0 (Fulfilled "Hello.") 11400]) in
   let w' := Rev2.step w (Rev2.PromiseSettles 1 Rejected 11500) in
   Rev2.currentTranscript (Rev2.hooks w) = "Hello."
   ∧ Rev2.currentTranscript (Rev2.hooks w') = Rev2.currentTranscript (Rev2.hooks w)
   ∧ Rev2.transcriptChunks (Rev2.hooks w') = Rev2.transcriptChunks (Rev2.hooks w)
   ∧ Rev2.isRecording (Rev2.hooks w') = Rev2.isRecording (Rev2.hooks w)
   ∧ Rev2.invocations w' !! 0%nat = Rev2.invocations w !! 0%nat).
Proof.
  destruct C7_failure_keeps_transcript_and_session as [H1 H2]. split.
  - intros w. destruct (H1 w 1%nat 6600 6600) as (Ha & Hb & _ & Hd & _ & _ & _ & Hh & _).
    split; [vm_compute; reflexivity|].
    split; [exact Ha|]. split; [exact Hb|]. split; [exact Hd|].
    apply Hh. lia.
  - intros w. destruct (H2 w 1%nat 11500) as (Ha & Hb & _ & Hd & _ & _ & _ & _ & Hh & _).
    split; [vm_compute; reflexivity|].
    split; [exact Ha|]. split; [exact Hb|]. split; [exact Hd|].
    apply Hh. lia.
Defined.

(** ** The processing flag *)

Lemma Rev1_isProcessing_settled (i : nat) (by_ : option nat) (w : Rev1.World) :
  Rev1.isProcessing (Rev1.hooks (Rev1.settled i by_ (Rev1.finally w))) = false.
Proof. unfold Rev1.settled. by destruct by_. Qed.

Lemma Rev1_settles_with_flag_off (w : Rev1.World) (i : nat) (o : Outcome)
    (now_id now_timestamp : Z) :
  let w' := Rev1.step w (Rev1.PromiseSettles i o now_id now_timestamp) in
  stage1 w i ≠ Some Rev1.Settled →
  stage1 w' i = Some Rev1.Settled →
  Rev1.isProcessing (Rev1.hooks w') = false.
Proof.
  simpl. unfold stage1, Rev1.processAudioChunk_resume.
  destruct (Rev1.invocations w !! i) as [inv|] eqn:Hi; [|by rewrite Hi].
  simpl. intros Hpending.
  destruct (Rev1.stage inv) eqn:Hst, o as [v|];
    try (intros _; apply Rev1_isProcessing_settled); try done.
  - simpl. by rewrite list_lookup_alter_eq, Hi.
  - destruct (Js.truthy (Js.trim v)); [|intros _; apply Rev1_isProcessing_settled].
    case_decide; [|intros _; apply Rev1_isProcessing_settled].
    simpl. by rewrite list_lookup_alter_eq, Hi.
Qed.

Lemma Rev2_settles_with_flag_off (w : Rev2.World) (i : nat) (o : Outcome) (now : Z) :
  let w' := Rev2.step w (Rev2.PromiseSettles i o now) in
  stage2 w i ≠ Some Rev2.Settled →
  stage2 w' i = Some Rev2.Settled →
  Rev2.isProcessing (Rev2.hooks w') = false.
Proof.
  simpl. unfold stage2, Rev2.processAudioChunk_resume.
  destruct (Rev2.invocations w !! i) as [inv|] eqn:Hi; [|by rewrite Hi].
  simpl. intros Hpending.
  destruct (Rev2.stage inv) eqn:Hst, o as [v|]; try done.
  - simpl. by rewrite list_lookup_alter_eq, Hi.
  - destruct (Js.truthy (Js.trim v)); [|done].
    simpl. by rewrite list_lookup_alter_eq, Hi.
Qed.

Lemma stage1_settled_world (w : Rev1.World) (i : nat) (inv : Rev1.Invocation)
    (by_ : option nat) :
  Rev1.invocations w !! i = Some inv →
  stage1 (Rev1.settled i by_ w) i = Some Rev1.Settled.
Proof. intros Hi. apply stage1_settled. eauto. Qed.

Lemma Rev1_progress (w : Rev1.World) (i : nat) (o : Outcome) (now_id now_timestamp : Z) :
  let w' := Rev1.step w (Rev1.PromiseSettles i o now_id now_timestamp) in
  (is_Some (Rev1.invocations w !! i) → is_Some (Rev1.invocations w' !! i))
  ∧ (awaits1 w' i ≤ pred (awaits1 w i))%nat.
Proof.
  simpl. unfold Rev1.processAudioChunk_resume.
  destruct (Rev1.invocations w !! i) as [inv|] eqn:Hi;
    [|split; [by intros []|unfold awaits1, stage1; rewrite Hi; simpl; lia]].
  assert (Hs : ∀ w0 : Rev1.World, Rev1.invocations w0 !! i = Some inv →
            let w' := Rev1.settled i (Rev1.awaitedByOnstop inv) w0 in
            (is_Some (Some inv) → is_Some (Rev1.invocations w' !! i))
            ∧ (awaits1 w' i ≤ pred (awaits1 w i))%nat).
  { intros w0 H0. simpl. split.
    - intros _. pose proof (stage1_settled_world w0 i inv (Rev1.awaitedByOnstop inv) H0) as E.
      unfold stage1 in E. apply (fmap_is_Some Rev1.stage). rewrite E. eauto.
    - unfold awaits1 at 1. erewrite stage1_settled_world by done. lia. }
  assert (Hw : awaits1 w i = match Rev1.stage inv with
                             | Rev1.AwaitFileReader _ => 3%nat
                             | Rev1.AwaitTranscribeAudio => 2%nat
                             | Rev1.AwaitGenerateText _ => 1%nat
                             | Rev1.Settled => 0%nat
                             end).
  { unfold awaits1, stage1. rewrite Hi. simpl. by destruct (Rev1.stage inv). }
  destruct (Rev1.stage inv) eqn:Hst, o as [v|]; try (by apply Hs).
  - split; [intros _; simpl; rewrite list_lookup_alter_eq, Hi; eauto|].
    unfold awaits1 at 1. rewrite stage1_suspend by (simpl; eauto). lia.
  - destruct (Js.truthy (Js.trim v)); [|by apply Hs].
    case_decide; [|by apply Hs].
    split; [intros _; simpl; rewrite list_lookup_alter_eq, Hi; eauto|].
    unfold awaits1 at 1. rewrite stage1_suspend by (simpl; eauto). lia.
  - split; [by rewrite Hi|lia].
  - split; [by rewrite Hi|lia].
Qed.

Lemma Rev2_progress (w : Rev2.World) (i : nat) (o : Outcome) (now : Z) :
  let w' := Rev2.step w (Rev2.PromiseSettles i o now) in
  (is_Some (Rev2.invocations w !! i) → is_Some (Rev2.invocations w' !! i))
  ∧ (awaits2 w' i ≤ pred (awaits2 w i))%nat.
Proof.
  simpl. unfold Rev2.processAudioChunk_resume.
  destruct (Rev2.invocations w !! i) as [inv|] eqn:Hi;
    [|split; [by intros []|unfold awaits2, stage2; rewrite Hi; simpl; lia]].
  assert (Hs : ∀ (w0 : Rev2.World) (s : Rev2.Stage),
            Rev2.invocations w0 !! i = Some inv →
            let w' := Rev2.suspend i s w0 in
            (is_Some (Some inv) → is_Some (Rev2.invocations w' !! i))
            ∧ stage2 w' i = Some s).
  { intros w0 s H0. simpl. rewrite stage2_suspend by eauto.
    rewrite list_lookup_alter_eq, H0. eauto. }
  assert (Hw : awaits2 w i = match Rev2.stage inv with
                             | Rev2.AwaitFileReader _ => 3%nat
                             | Rev2.AwaitTranscribeAudio => 2%nat
                             | Rev2.AwaitGenerateText _ => 1%nat
                             | Rev2.Settled => 0%nat
                             end).
  { unfold awaits2, stage2. rewrite Hi. simpl. by destruct (Rev2.stage inv). }
  destruct (Rev2.stage inv) eqn:Hst, o as [v|];
    try destruct (Js.truthy (Js.trim v));
    try (match goal with |- context [Rev2.suspend i ?s ?w0] =>
           destruct (Hs w0 s) as [H1 H2]; [done|];
           split; [done|]; unfold awaits2 at 1; rewrite H2; lia end).
  all: split; [by rewrite Hi|lia].
Qed.

(** Three settlements are enough for an invocation to return, whatever
    the outcomes. *)
Lemma Rev1_returns (w : Rev1.World) (i : nat) (o1 o2 o3 : Outcome)
    (n1 n2 n3 n4 n5 n6 : Z) :
  is_Some (Rev1.invocations w !! i) →
  stage1 (Rev1.run w [Rev1.PromiseSettles i o1 n1 n2; Rev1.PromiseSettles i o2 n3 n4;
                      Rev1.PromiseSettles i o3 n5 n6]) i = Some Rev1.Settled.
Proof.
  intros H0. unfold Rev1.run. simpl fold_left.
  destruct (Rev1_progress w i o1 n1 n2) as [H1 L1].
  set (w1 := Rev1.step w _) in *.
  destruct (Rev1_progress w1 i o2 n3 n4) as [H2 L2].
  set (w2 := Rev1.step w1 _) in *.
  destruct (Rev1_progress w2 i o3 n5 n6) as [H3 L3].
  set (w3 := Rev1.step w2 _) in *.
  assert (awaits1 w i ≤ 3)%nat
    by (unfold awaits1; destruct (stage1 w i) as [[]|]; lia).
  assert (E : awaits1 w3 i = 0%nat) by lia.
  destruct (H3 (H2 (H1 H0))) as [inv Hinv].
  change (stage1 w3 i = Some Rev1.Settled).
  unfold awaits1 in E. unfold stage1 in *. rewrite Hinv in *. simpl in *.
  by destruct (Rev1.stage inv).
Qed.

Lemma Rev2_returns (w : Rev2.World) (i : nat) (o1 o2 o3 : Outcome) (n1 n2 n3 : Z) :
  is_Some (Rev2.invocations w !! i) →
  stage2 (Rev2.run w [Rev2.PromiseSettles i o1 n1; Rev2.PromiseSettles i o2 n2;
                      Rev2.PromiseSettles i o3 n3]) i = Some Rev2.Settled.
Proof.
  intros H0. unfold Rev2.run. simpl fold_left.
  destruct (Rev2_progress w i o1 n1) as [H1 L1].
  set (w1 := Rev2.step w _) in *.
  destruct (Rev2_progress w1 i o2 n2) as [H2 L2].
  set (w2 := Rev2.step w1 _) in *.
  destruct (Rev2_progress w2 i o3 n3) as [H3 L3].
  set (w3 := Rev2.step w2 _) in *.
  assert (awaits2 w i ≤ 3)%nat
    by (unfold awaits2; destruct (stage2 w i) as [[]|]; lia).
  assert (E : awaits2 w3 i = 0%nat) by lia.
  destruct (H3 (H2 (H1 H0))) as [inv Hinv].
  change (stage2 w3 i = Some Rev2.Settled).
  unfold awaits2 in E. unfold stage2 in *. rewrite Hinv in *. simpl in *.
  by destruct (Rev2.stage inv).
Qed.

Lemma Rev1_settled_is_final (w : Rev1.World) (i : nat) (o : Outcome) (n n' : Z) :
  stage1 w i = Some Rev1.Settled →
  Rev1.step w (Rev1.PromiseSettles i o n n') = w.
Proof.
  unfold stage1. simpl. unfold Rev1.processAudioChunk_resume.
  destruct (Rev1.invocations w !! i) as [inv|]; [|done].
  simpl. intros [= ->]. by destruct o.
Qed.

Lemma Rev2_settled_is_final (w : Rev2.World) (i : nat) (o : Outcome) (n : Z) :
  stage2 w i = Some Rev2.Settled →
  Rev2.step w (Rev2.PromiseSettles i o n) = w.
Proof.
  unfold stage2. simpl. unfold Rev2.processAudioChunk_resume.
  destruct (Rev2.invocations w !! i) as [inv|]; [|done].
  simpl. intros [= ->]. by destruct o.
Qed.

Lemma Rev1_stage_cases (w : Rev1.World) (i : nat) :
  stage1 w i = Some Rev1.Settled ∨ stage1 w i ≠ Some Rev1.Settled.
Proof. destruct (stage1 w i) as [[]|]; auto. Qed.

Lemma Rev2_stage_cases (w : Rev2.World) (i : nat) :
  stage2 w i = Some Rev2.Settled ∨ stage2 w i ≠ Some Rev2.Settled.
Proof. destruct (stage2 w i) as [[]|]; auto. Qed.

Lemma Rev1_returns_with_flag_off (w : Rev1.World) (i : nat) (o1 o2 o3 : Outcome)
    (n1 n2 n3 n4 n5 n6 : Z) :
  is_Some (Rev1.invocations w !! i) →
  stage1 w i ≠ Some Rev1.Settled →
  let w' := Rev1.run w [Rev1.PromiseSettles i o1 n1 n2; Rev1.PromiseSettles i o2 n3 n4;
                        Rev1.PromiseSettles i o3 n5 n6] in
  stage1 w' i = Some Rev1.Settled ∧ Rev1.isProcessing (Rev1.hooks w') = false.
Proof.
  intros H0 Hp w'. split; [by apply Rev1_returns|].
  pose proof (Rev1_returns w i o1 o2 o3 n1 n2 n3 n4 n5 n6 H0) as Hret.
  subst w'.
  change (Rev1.run w _)
    with (Rev1.step (Rev1.step (Rev1.step w (Rev1.PromiseSettles i o1 n1 n2))
                       (Rev1.PromiseSettles i o2 n3 n4))
            (Rev1.PromiseSettles i o3 n5 n6)) in *.
  set (w1 := Rev1.step w (Rev1.PromiseSettles i o1 n1 n2)) in *.
  set (w2 := Rev1.step w1 (Rev1.PromiseSettles i o2 n3 n4)) in *.
  destruct (Rev1_stage_cases w1 i) as [S1|S1].
  - assert (E2 : w2 = w1) by (by apply Rev1_settled_is_final).
    rewrite E2 in *. rewrite (Rev1_settled_is_final w1) by done.
    by apply (Rev1_settles_with_flag_off w i o1 n1 n2).
  - destruct (Rev1_stage_cases w2 i) as [S2|S2].
    + rewrite (Rev1_settled_is_final w2) by done.
      by apply (Rev1_settles_with_flag_off w1 i o2 n3 n4).
    + by apply (Rev1_settles_with_flag_off w2 i o3 n5 n6).
Qed.

Lemma Rev2_returns_with_flag_off (w : Rev2.World) (i : nat) (o1 o2 o3 : Outcome)
    (n1 n2 n3 : Z) :
  is_Some (Rev2.invocations w !! i) →
  stage2 w i ≠ Some Rev2.Settled →
  let w' := Rev2.run w [Rev2.PromiseSettles i o1 n1; Rev2.PromiseSettles i o2 n2;
                        Rev2.PromiseSettles i o3 n3] in
  stage2 w' i = Some Rev2.Settled ∧ Rev2.isProcessing (Rev2.hooks w') = false.
Proof.
  intros H0 Hp w'. split; [by apply Rev2_returns|].
  pose proof (Rev2_returns w i o1 o2 o3 n1 n2 n3 H0) as Hret.
  subst w'.
  change (Rev2.run w _)
    with (Rev2.step (Rev2.step (Rev2.step w (Rev2.PromiseSettles i o1 n1))
                       (Rev2.PromiseSettles i o2 n2))
            (Rev2.PromiseSettles i o3 n3)) in *.
  set (w1 := Rev2.step w (Rev2.PromiseSettles i o1 n1)) in *.
  set (w2 := Rev2.step w1 (Rev2.PromiseSettles i o2 n2)) in *.
  destruct (Rev2_stage_cases w1 i) as [S1|S1].
  - assert (E2 : w2 = w1) by (by apply Rev2_settled_is_final).
    rewrite E2 in *. rewrite (Rev2_settled_is_final w1) by done.
    by apply (Rev2_settles_with_flag_off w i o1 n1).
  - destruct (Rev2_stage_cases w2 i) as [S2|S2].
    + rewrite (Rev2_settled_is_final w2) by done.
      by apply (Rev2_settles_with_flag_off w1 i o2 n2).
    + by apply (Rev2_settles_with_flag_off w2 i o3 n3).
Qed.

(** The invocation a call creates. *)
Lemma Rev1_call (chunks : list Rev1.TranscriptChunk) (blob : Blob) (by_ : option nat)
    (w : Rev1.World) :
  let w' := Rev1.processAudioChunk chunks blob by_ w in
  Rev1.invocations w' !! length (Rev1.invocations w)
  = Some {| Rev1.invChunks := chunks; Rev1.stage := Rev1.AwaitFileReader blob;
            Rev1.awaitedByOnstop := by_ |}.
Proof. simpl. by rewrite lookup_app_r, Nat.sub_diag. Qed.

Lemma Rev2_call (chunks : list Rev2.TranscriptChunk) (blob : Blob) (w : Rev2.World) :
  blob ≠ [] →
  let w' := Rev2.processAudioChunk chunks blob w in
  Rev2.invocations w' !! length (Rev2.invocations w)
  = Some {| Rev2.closureChunks := chunks; Rev2.stage := Rev2.AwaitFileReader blob |}.
Proof.
  intros Hne. unfold Rev2.processAudioChunk, blob_size.
  destruct (decide (length blob = 0%nat)) as [E|_];
    [by apply nil_length_inv in E|].
  simpl. by rewrite lookup_app_r, Nat.sub_diag.
Qed.

(** Counterexample to C10 as stated (second revision).  A session is
    recording and the invocation for a first, non-empty segment is
    suspended, so the flag is on.  The recorder then delivers an empty
    segment: that invocation of [processAudioChunk] returns at its first
    line, suspends nothing, and the flag is still on when it has
    returned. *)
Lemma C10_empty_blob_returns_with_flag_on :
  let w := Rev2.run Rev2.initial
             [Rev2.Click; Rev2.UserMediaSettles 0 Granted 0; Rev2.Timeslice 0 [x01]] in
  let w' := Rev2.step w (Rev2.Timeslice 0 []) in
  w' = Rev2.processAudioChunk [] [] w
  ∧ Rev2.invocations w' = Rev2.invocations w
  ∧ Rev2.isProcessing (Rev2.hooks w') = true.
Proof. by vm_compute. Qed.

(** C10, amended.  In both revisions, at the step at which an invocation
    of [processAudioChunk] that was suspended returns (on success, on an
    empty transcription or on a failure), [isProcessing] is false; and an
    invocation that has set the flag does return, three settlements after
    the call at the latest, with the flag false.  In the first revision
    this covers every call; in the second, every call on a non-empty
    blob: a call on an empty blob returns at once and leaves the flag as
    it is. *)
Theorem C10_returning_invocation_clears_flag :
  (∀ (w : Rev1.World) (i : nat) (o : Outcome) (now_id now_timestamp : Z),
     let w' := Rev1.step w (Rev1.PromiseSettles i o now_id now_timestamp) in
     stage1 w i ≠ Some Rev1.Settled → stage1 w' i = Some Rev1.Settled →
     Rev1.isProcessing (Rev1.hooks w') = false)
  ∧ (∀ (w : Rev1.World) chunks blob by_ (o1 o2 o3 : Outcome) (n1 n2 n3 n4 n5 n6 : Z),
     let i := length (Rev1.invocations w) in
     let w' := Rev1.run (Rev1.processAudioChunk chunks blob by_ w)
                 [Rev1.PromiseSettles i o1 n1 n2; Rev1.PromiseSettles i o2 n3 n4;
                  Rev1.PromiseSettles i o3 n5 n6] in
     stage1 w' i = Some Rev1.Settled ∧ Rev1.isProcessing (Rev1.hooks w') = false)
  ∧ (∀ (w : Rev2.World) (i : nat) (o : Outcome) (now : Z),
     let w' := Rev2.step w (Rev2.PromiseSettles i o now) in
     stage2 w i ≠ Some Rev2.Settled → stage2 w' i = Some Rev2.Settled →
     Rev2.isProcessing (Rev2.hooks w') = false)
  ∧ (∀ (w : Rev2.World) chunks blob (o1 o2 o3 : Outcome) (n1 n2 n3 : Z),
     blob ≠ [] →
     let i := length (Rev2.invocations w) in
     let w' := Rev2.run (Rev2.processAudioChunk chunks blob w)
                 [Rev2.PromiseSettles i o1 n1; Rev2.PromiseSettles i o2 n2;
                  Rev2.PromiseSettles i o3 n3] in
     stage2 w' i = Some Rev2.Settled ∧ Rev2.isProcessing (Rev2.hooks w') = false)
  ∧ (∀ (w : Rev2.World) chunks, Rev2.processAudioChunk chunks [] w = w).
Proof.
  split_and!.
  - intros w i o n n'. apply Rev1_settles_with_flag_off.
  - intros w chunks blob by_ o1 o2 o3 n1 n2 n3 n4 n5 n6 i.
    pose proof (Rev1_call chunks blob by_ w) as Hc. cbv zeta in Hc. subst i.
    apply Rev1_returns_with_flag_off.
    + rewrite Hc. eauto.
    + unfold stage1. by rewrite Hc.
  - intros w i o n. apply Rev2_settles_with_flag_off.
  - intros w chunks blob o1 o2 o3 n1 n2 n3 Hne i.
    pose proof (Rev2_call chunks blob w Hne) as Hc. cbv zeta in Hc. subst i.
    apply Rev2_returns_with_flag_off.
    + rewrite Hc. eauto.
    + unfold stage2. by rewrite Hc.
  - done.
Qed.

Lemma C10_returning_invocation_clears_flag_witness :
  (let w := Rev1.run Rev1.initial segmentTranscribed1 in
   let w' := Rev1.step w (Rev1.PromiseSettles 0 (Fulfilled "Hello.") 6500 6500) in
   Rev1.isProcessing (Rev1.hooks w) = true ∧ Rev1.isProcessing (Rev1.hooks w') = false)
  ∧
  (let w := Rev2.run Rev2.initial segmentsTranscribed2 in
   let w' := Rev2.step w (Rev2.PromiseSettles 0 Rejected 11400) in
   Rev2.isProcessing (Rev2.hooks w) = true ∧ Rev2.isProcessing (Rev2.hooks w') = false)
  ∧
  (let w := Rev2.run Rev2.initial [Rev2.Click; Rev2.UserMediaSettles 0 Granted 1000] in
   let w' := Rev2.run (Rev2.processAudioChunk [] [x01] w)
               [Rev2.PromiseSettles 0 (Fulfilled dataUrl) 6010;
                Rev2.PromiseSettles 0 (Fulfilled " ") 6200;
                Rev2.PromiseSettles 0 Rejected 6400] in
   stage2 w' 0 = Some Rev2.Settled ∧ Rev2.isProcessing (Rev2.hooks w') = false).
Proof.
  destruct C10_returning_invocation_clears_flag as (H1 & _ & H3 & H4 & _). split_and!.
  - intros w. split; [vm_compute; reflexivity|].
    apply (H1 w 0%nat (Fulfilled "Hello.") 6500 6500).
    + vm_compute. discriminate.
    + vm_compute. reflexivity.
  - intros w. split; [vm_compute; reflexivity|].
    apply (H3 w 0%nat Rejected 11400).
    + vm_compute. discriminate.
    + vm_compute. reflexivity.
  - intros w.
    apply (H4 w [] [x01] (Fulfilled dataUrl) (Fulfilled " ") Rejected 6010 6200 6400).
    discriminate.
Defined.

(** ** [stopRecording] and the saved note *)

Lemma truthy_true (s : string) : Js.truthy s = true ↔ s ≠ "".
Proof. destruct s; simpl; split; congruence. Qed.


Lemma Rev1_stopRecording_notes (ct : string) (nd ni nt : Z) (w : Rev1.World) :
  Rev1.voiceNotes (Rev1.hooks (Rev1.stopRecording ct nd ni nt w))
  = saveNote ct (Rev1.recordingStartTimeRef (Rev1.refs w)) nd ni nt
      (Rev1.voiceNotes (Rev1.hooks w)).
Proof.
  unfold Rev1.stopRecording, saveNote.
  destruct (Js.truthy (Js.trim ct)); by_cases.
Qed.

Lemma Rev2_stopRecording_frame (ct : string) (w : Rev2.World) :
  let w' := Rev2.stopRecording ct w in
  Rev2.voiceNotes (Rev2.hooks w') = Rev2.voiceNotes (Rev2.hooks w)
  ∧ Rev2.currentTranscript (Rev2.hooks w') = Rev2.currentTranscript (Rev2.hooks w)
  ∧ Rev2.timeouts w' = Rev2.timeouts w ++ [Some ct].
Proof.
  unfold Rev2.stopRecording. by_cases.
Qed.







(** ** Finalisation does not wait (C3) *)

(** C3 (the code departs from the claim).  In each run every invocation
    triggered by the flush of [stop()] has returned, and in the second
    revision it has returned before the timer of [stopRecording] fires.
    Yet: after the short recording the transcript is ["Hello."] and no
    note exists, in either revision; after the two segments the
    transcript is ["Hello world."] and the note holds ["Hello."], the
    value that the closure of the timer captured at the click. *)
Theorem C3_note_ignores_work_settled_after_stop :
  (let w := Rev2.run Rev2.initial shortRecording2 in
   Rev2.stage <$> Rev2.invocations w = [Rev2.Settled]
   ∧ Rev2.timeouts w = [None]
   ∧ Rev2.currentTranscript (Rev2.hooks w) = "Hello."
   ∧ Rev2.voiceNotes (Rev2.hooks w) = [])
  ∧
  (let w := Rev2.run Rev2.initial twoSegments2 in
   Rev2.stage <$> Rev2.invocations w = [Rev2.Settled; Rev2.Settled]
   ∧ Rev2.timeouts w = [None]
   ∧ Rev2.currentTranscript (Rev2.hooks w) = "Hello world."
   ∧ note_text <$> Rev2.voiceNotes (Rev2.hooks w) = ["Hello."])
  ∧
  (let w := Rev1.run Rev1.initial shortRecording1 in
   Rev1.stage <$> Rev1.invocations w = [Rev1.Settled]
   ∧ Rev1.currentTranscript (Rev1.hooks w) = "Hello."
   ∧ Rev1.voiceNotes (Rev1.hooks w) = []).
Proof. by vm_compute. Qed.

(** ** Note ids (C9) *)

Lemma deleteNote_NoDup (id : string) (notes : list VoiceNote) :
  NoDup (note_id <$> notes) → NoDup (note_id <$> deleteNote id notes).
Proof.
  intros Hnd. eapply sublist_NoDup; [exact Hnd|].
  apply fmap_sublist, sublist_filter.
Qed.

Lemma saveNote_NoDup (ct : string) (start nd ni nt : Z) (notes : list VoiceNote) :
  Js.toString ni ∉ note_id <$> notes →
  NoDup (note_id <$> notes) →
  NoDup (note_id <$> saveNote ct start nd ni nt notes).
Proof.
  intros Hfresh Hnd. unfold saveNote.
  destruct (Js.truthy (Js.trim ct)); [|done].
  unfold insertNote. rewrite fmap_cons. by apply NoDup_cons.
Qed.

(** The note list after one event, first revision. *)
Lemma Rev1_step_voiceNotes (w : Rev1.World) (e : Rev1.Event) :
  Rev1.voiceNotes (Rev1.hooks (Rev1.step w e)) =
  let notes := Rev1.voiceNotes (Rev1.hooks w) in
  match e with
  | Rev1.Click nd ni nt =>
      if negb (Rev1.isProcessing (Rev1.hooks w)) && Rev1.isRecording (Rev1.hooks w)
      then saveNote (Rev1.currentTranscript (Rev1.hooks w))
             (Rev1.recordingStartTimeRef (Rev1.refs w)) nd ni nt notes
      else notes
  | Rev1.DeleteClick id => deleteNote id notes
  | _ => notes
  end.
Proof.
  destruct e as [nd ni nt|k o now|r data|t now|i o n n'|id]; simpl.
  - unfold Rev1.click.
    destruct (Rev1.isProcessing (Rev1.hooks w)), (Rev1.isRecording (Rev1.hooks w));
      cbn [andb negb]; try done.
    apply Rev1_stopRecording_notes.
  - unfold Rev1.startRecording_resume. by_cases.
  - unfold Rev1.onstop, Rev1.ondataavailable. by_cases.
  - unfold Rev1.chunkInterval, Rev1.chunkDelay. by_cases.
  - unfold Rev1.processAudioChunk_resume, Rev1.settled. by_cases.
  - done.
Qed.

(** The note list after one event, second revision. *)
Lemma Rev2_step_voiceNotes (w : Rev2.World) (e : Rev2.Event) :
  Rev2.voiceNotes (Rev2.hooks (Rev2.step w e)) =
  let notes := Rev2.voiceNotes (Rev2.hooks w) in
  match e with
  | Rev2.StopTimer k nd ni nt =>
      match Rev2.timeouts w !! k with
      | Some (Some ct) =>
          saveNote ct (Rev2.recordingStartTimeRef (Rev2.refs w)) nd ni nt notes
      | _ => notes
      end
  | Rev2.DeleteClick id => deleteNote id notes
  | _ => notes
  end.
Proof.
  destruct e as [|k o now|r data|r data|t now|k nd ni nt|i o n|id]; simpl.
  - unfold Rev2.click.
    destruct (Rev2.isRecording (Rev2.hooks w)), (Rev2.isProcessing (Rev2.hooks w));
      cbn [andb]; try done.
    apply (Rev2_stopRecording_frame (Rev2.currentTranscript (Rev2.hooks w)) w).
  - unfold Rev2.startRecording_resume. by_cases.
  - unfold Rev2.ondataavailable, Rev2.processAudioChunk. by_cases.
  - unfold Rev2.ondataavailable, Rev2.processAudioChunk. by_cases.
  - by_cases.
  - unfold Rev2.stopRecording_timeout. by_cases.
  - unfold Rev2.processAudioChunk_resume. by_cases.
  - done.
Qed.

Lemma Rev1_step_NoDup (w : Rev1.World) (e : Rev1.Event) :
  freshId1 w e = true →
  NoDup (note_id <$> Rev1.voiceNotes (Rev1.hooks w)) →
  NoDup (note_id <$> Rev1.voiceNotes (Rev1.hooks (Rev1.step w e))).
Proof.
  intros Hfresh Hnd. rewrite Rev1_step_voiceNotes. cbv zeta.
  destruct e; simpl in *; try done.
  - case_match; [|done]. apply saveNote_NoDup; [|done]. by apply bool_decide_eq_true_1 in Hfresh.
  - by apply deleteNote_NoDup.
Qed.

Lemma Rev2_step_NoDup (w : Rev2.World) (e : Rev2.Event) :
  freshId2 w e = true →
  NoDup (note_id <$> Rev2.voiceNotes (Rev2.hooks w)) →
  NoDup (note_id <$> Rev2.voiceNotes (Rev2.hooks (Rev2.step w e))).
Proof.
  intros Hfresh Hnd. rewrite Rev2_step_voiceNotes. cbv zeta.
  destruct e; simpl in *; try done.
  - repeat case_match; try done.
    apply saveNote_NoDup; [|done]. by apply bool_decide_eq_true_1 in Hfresh.
  - by apply deleteNote_NoDup.
Qed.

Lemma Rev1_run_NoDup (events : list Rev1.Event) (w : Rev1.World) :
  freshRun1 w events = true →
  NoDup (note_id <$> Rev1.voiceNotes (Rev1.hooks w)) →
  NoDup (note_id <$> Rev1.voiceNotes (Rev1.hooks (Rev1.run w events))).
Proof.
  revert w. induction events as [|e events IH]; intros w Hfresh Hnd; [done|].
  simpl in Hfresh. apply andb_true_iff in Hfresh as [He Hes].
  apply (IH (Rev1.step w e)); [done|]. by apply Rev1_step_NoDup.
Qed.

Lemma Rev2_run_NoDup (events : list Rev2.Event) (w : Rev2.World) :
  freshRun2 w events = true →
  NoDup (note_id <$> Rev2.voiceNotes (Rev2.hooks w)) →
  NoDup (note_id <$> Rev2.voiceNotes (Rev2.hooks (Rev2.run w events))).
Proof.
  revert w. induction events as [|e events IH]; intros w Hfresh Hnd; [done|].
  simpl in Hfresh. apply andb_true_iff in Hfresh as [He Hes].
  apply (IH (Rev2.step w e)); [done|]. by apply Rev2_step_NoDup.
Qed.

(** Counterexample to C9 as stated.  Note ids are readings of
    [Date.now()], and nothing compares a new id with the stored ones:
    when the clock gives the same reading at the creation of two notes
    (here after it was set back between two recordings), the two notes
    share their id. *)
Lemma C9_two_notes_share_an_id :
  let w := Rev2.run Rev2.initial sameClock2 in
  note_id <$> Rev2.voiceNotes (Rev2.hooks w) = ["9000"; "9000"]
  ∧ note_text <$> Rev2.voiceNotes (Rev2.hooks w) = ["World."; "Hello."]
  ∧ ¬ NoDup (note_id <$> Rev2.voiceNotes (Rev2.hooks w)).
Proof.
  assert (E : note_id <$> Rev2.voiceNotes (Rev2.hooks (Rev2.run Rev2.initial sameClock2))
              = ["9000"; "9000"]) by (by vm_compute).
  cbv zeta. split_and!.
  - exact E.
  - by vm_compute.
  - rewrite E. intros Hnd. apply NoDup_cons in Hnd as [Hnotin _].
    apply Hnotin. by left.
Qed.

(** C9, amended.  In a run from the initial state in which every clock
    reading used as a note id differs from the ids of the notes stored
    at that moment, no two stored notes share an id, whatever the
    insertions and deletions; in both revisions. *)
Theorem C9_ids_unique_when_clock_readings_fresh :
  (∀ events : list Rev1.Event,
     freshRun1 Rev1.initial events = true →
     NoDup (note_id <$> Rev1.voiceNotes (Rev1.hooks (Rev1.run Rev1.initial events))))
  ∧
  (∀ events : list Rev2.Event,
     freshRun2 Rev2.initial events = true →
     NoDup (note_id <$> Rev2.voiceNotes (Rev2.hooks (Rev2.run Rev2.initial events)))).
Proof.
  split; intros events Hfresh.
  - apply Rev1_run_NoDup; [done|]. simpl. constructor.
  - apply Rev2_run_NoDup; [done|]. simpl. constructor.
Qed.

Lemma C9_ids_unique_when_clock_readings_fresh_witness :
  (let events := segmentEnhanced1 ++ [Rev1.Click 9000 9001 9002; Rev1.DeleteClick "77"] in
   note_id <$> Rev1.voiceNotes (Rev1.hooks (Rev1.run Rev1.initial events)) = ["9001"]
   ∧ NoDup (note_id <$> Rev1.voiceNotes (Rev1.hooks (Rev1.run Rev1.initial events))))
  ∧
  (let events := take 15 sameClock2 ++ [Rev2.StopTimer 1 9900 9900 9900] in
   note_id <$> Rev2.voiceNotes (Rev2.hooks (Rev2.run Rev2.initial events)) = ["9900"; "9000"]
   ∧ NoDup (note_id <$> Rev2.voiceNotes (Rev2.hooks (Rev2.run Rev2.initial events)))).
Proof.
  destruct C9_ids_unique_when_clock_readings_fresh as [H1 H2]. split.
  - intros events. split; [vm_compute; reflexivity|].
    apply (H1 events). vm_compute. reflexivity.
  - intros events. split; [vm_compute; reflexivity|].
    apply (H2 events). vm_compute. reflexivity.
Defined.

(** ** Starting while not idle (C4) *)

(** Counterexample to C4 as stated (second revision).
    First run: the component shows ['Finalizing note...'] and the
    fragment list holds one fragment; a click is accepted as a start:
    once the microphone is granted the fragments are reset and a second
    recorder is recording.
    Second run: the second [startRecording] resumes while the session
    started by the first is recording; both recorders are then
    recording and [mediaRecorderRef] only knows the second. *)
Lemma C4_start_accepted_when_not_idle :
  (let w := Rev2.run Rev2.initial finalizing2 in
   let w' := Rev2.run w [Rev2.Click; Rev2.UserMediaSettles 1 Granted 4000] in
   status2 w = Finalizing
   ∧ length (Rev2.transcriptChunks (Rev2.hooks w)) = 1%nat
   ∧ Rev2.userMediaCalls (Rev2.step w Rev2.Click) = [None; Some (Rev2.transcriptChunks (Rev2.hooks w))]
   ∧ status2 w' = Recording
   ∧ Rev2.transcriptChunks (Rev2.hooks w') = []
   ∧ Rev2.recordingStartTimeRef (Rev2.refs w') = 4000
   ∧ Rev2.isRecordingState 1 w' = true)
  ∧
  (let w := Rev2.run Rev2.initial (take 3 doubleStart2) in
   let w' := Rev2.run Rev2.initial doubleStart2 in
   status2 w = Recording
   ∧ Rev2.isRecordingState 0 w' = true
   ∧ Rev2.isRecordingState 1 w' = true
   ∧ Rev2.mediaRecorderRef (Rev2.refs w') = Some 1%nat).
Proof. by vm_compute. Qed.

Lemma Rev1_isRecordingState_stop (r r' : nat) (w : Rev1.World) :
  Rev1.isRecordingState r (Rev1.recorderStop r' w) = true →
  Rev1.isRecordingState r w = true.
Proof.
  unfold Rev1.isRecordingState, Rev1.recorderStop. simpl.
  rewrite list_lookup_alter. case_decide; [subst|done].
  by destruct (Rev1.recorders w !! r) as [[]|].
Qed.

Lemma Rev2_isRecordingState_stop (r r' : nat) (w : Rev2.World) :
  Rev2.isRecordingState r (Rev2.recorderStop r' w) = true →
  Rev2.isRecordingState r w = true.
Proof.
  unfold Rev2.isRecordingState, Rev2.recorderStop. simpl.
  rewrite list_lookup_alter. case_decide; [subst|done].
  by destruct (Rev2.recorders w !! r) as [[]|].
Qed.

Lemma Rev1_stopRecording_starts_nothing (ct : string) (nd ni nt : Z) (w : Rev1.World) :
  let w' := Rev1.stopRecording ct nd ni nt w in
  Rev1.userMediaCalls w' = Rev1.userMediaCalls w
  ∧ length (Rev1.recorders w') = length (Rev1.recorders w)
  ∧ (∀ r, Rev1.isRecordingState r w' = true → Rev1.isRecordingState r w = true).
Proof.
  unfold Rev1.stopRecording.
  destruct (Rev1.mediaRecorderRef (Rev1.refs w)) as [r0|] eqn:Href;
    [destruct (Rev1.isRecordingState r0 w) eqn:Hrec|];
    repeat (case_match; simpl); split_and!; try done;
    try (by rewrite length_alter); intros r; apply Rev1_isRecordingState_stop.
Qed.

Lemma Rev2_stopRecording_starts_nothing (ct : string) (w : Rev2.World) :
  let w' := Rev2.stopRecording ct w in
  Rev2.userMediaCalls w' = Rev2.userMediaCalls w
  ∧ length (Rev2.recorders w') = length (Rev2.recorders w)
  ∧ (∀ r, Rev2.isRecordingState r w' = true → Rev2.isRecordingState r w = true).
Proof.
  unfold Rev2.stopRecording.
  destruct (Rev2.mediaRecorderRef (Rev2.refs w)) as [r0|] eqn:Href;
    [destruct (Rev2.isRecordingState r0 w) eqn:Hrec|];
    repeat (case_match; simpl); split_and!; try done;
    try (by rewrite length_alter); intros r; apply Rev2_isRecordingState_stop.
Qed.

(** C4, amended.  [startRecording] has no guard of its own; what keeps
    it from running during a recording is the record button, which is a
    toggle on [isRecording].  In both revisions: while [isRecording] is
    true a click calls no [getUserMedia], creates no recorder and sets
    no recorder recording; while [isRecording] is false (and, in the
    first revision, [isProcessing] is false) a click is a start: it
    calls [getUserMedia], whatever work of an earlier session or start
    is still pending. *)
Theorem C4_button_starts_only_when_not_recording :
  (∀ (w : Rev1.World) (nd ni nt : Z),
     Rev1.isRecording (Rev1.hooks w) = true →
     let w' := Rev1.step w (Rev1.Click nd ni nt) in
     Rev1.userMediaCalls w' = Rev1.userMediaCalls w
     ∧ length (Rev1.recorders w') = length (Rev1.recorders w)
     ∧ (∀ r, Rev1.isRecordingState r w' = true → Rev1.isRecordingState r w = true))
  ∧
  (∀ (w : Rev2.World),
     Rev2.isRecording (Rev2.hooks w) = true →
     let w' := Rev2.step w Rev2.Click in
     Rev2.userMediaCalls w' = Rev2.userMediaCalls w
     ∧ length (Rev2.recorders w') = length (Rev2.recorders w)
     ∧ (∀ r, Rev2.isRecordingState r w' = true → Rev2.isRecordingState r w = true))
  ∧
  (∀ (w : Rev1.World) (nd ni nt : Z),
     Rev1.isRecording (Rev1.hooks w) = false →
     Rev1.isProcessing (Rev1.hooks w) = false →
     let w' := Rev1.step w (Rev1.Click nd ni nt) in
     Rev1.userMediaCalls w' =
       Rev1.userMediaCalls w
       ++ [Some {| Rev1.closureChunks := Rev1.transcriptChunks (Rev1.hooks w);
                   Rev1.closureIsRecording := false |}]
     ∧ Rev1.hooks w' = Rev1.hooks w)
  ∧
  (∀ (w : Rev2.World),
     Rev2.isRecording (Rev2.hooks w) = false →
     let w' := Rev2.step w Rev2.Click in
     Rev2.userMediaCalls w' =
       Rev2.userMediaCalls w ++ [Some (Rev2.transcriptChunks (Rev2.hooks w))]
     ∧ Rev2.hooks w' = Rev2.hooks w).
Proof.
  split_and!.
  - intros w nd ni nt Hrec w'. subst w'. simpl. unfold Rev1.click. rewrite Hrec.
    destruct (Rev1.isProcessing (Rev1.hooks w)); [done|].
    apply Rev1_stopRecording_starts_nothing.
  - intros w Hrec w'. subst w'. simpl. unfold Rev2.click. rewrite Hrec.
    destruct (Rev2.isProcessing (Rev2.hooks w)); [done|]. cbn [andb].
    apply Rev2_stopRecording_starts_nothing.
  - intros w nd ni nt Hrec Hproc w'. subst w'. simpl. unfold Rev1.click.
    rewrite Hrec, Hproc. unfold Rev1.startRecording. simpl. by rewrite Hrec.
  - intros w Hrec w'. subst w'. simpl. unfold Rev2.click. by rewrite Hrec.
Qed.

Lemma C4_button_starts_only_when_not_recording_witness :
  (let w := Rev1.run Rev1.initial segmentEnhanced1 in
   let w' := Rev1.step w (Rev1.Click 9000 9001 9002) in
   Rev1.isRecording (Rev1.hooks w) = true
   ∧ Rev1.userMediaCalls w' = Rev1.userMediaCalls w
   ∧ length (Rev1.recorders w') = length (Rev1.recorders w))
  ∧
  (let w := Rev2.run Rev2.initial segmentsEnhanced2 in
   let w' := Rev2.step w Rev2.Click in
   Rev2.isRecording (Rev2.hooks w) = true
   ∧ Rev2.userMediaCalls w' = Rev2.userMediaCalls w
   ∧ length (Rev2.recorders w') = length (Rev2.recorders w))
  ∧
  (let w := Rev1.run Rev1.initial (segmentEnhanced1 ++ [Rev1.Click 9000 9001 9002]) in
   let w' := Rev1.step w (Rev1.Click 9500 9501 9502) in
   length (Rev1.userMediaCalls w') = 2%nat ∧ Rev1.hooks w' = Rev1.hooks w)
  ∧
  (let w := Rev2.run Rev2.initial finalizing2 in
   let w' := Rev2.step w Rev2.Click in
   length (Rev2.userMediaCalls w') = 2%nat ∧ Rev2.hooks w' = Rev2.hooks w).
Proof.
  destruct C4_button_starts_only_when_not_recording as (H1 & H2 & H3 & H4). split_and!.
  - intros w. split; [vm_compute; reflexivity|].
    destruct (H1 w 9000 9001 9002) as (Ha & Hb & _); [vm_compute; reflexivity|].
    split; [exact Ha|exact Hb].
  - intros w. split; [vm_compute; reflexivity|].
    destruct (H2 w) as (Ha & Hb & _); [vm_compute; reflexivity|].
    split; [exact Ha|exact Hb].
  - intros w.
    destruct (H3 w 9500 9501 9502) as [Ha Hb];
      [vm_compute; reflexivity|vm_compute; reflexivity|].
    split; [|exact Hb]. cbv zeta. rewrite Ha. vm_compute. reflexivity.
  - intros w.
    destruct (H4 w) as [Ha Hb]; [vm_compute; reflexivity|].
    split; [|exact Hb]. cbv zeta. rewrite Ha. vm_compute. reflexivity.
Defined.

(** ** Enhancement results are applied as they arrive (C1) *)








(** ** Fragments are in completion order (C2) *)




(** Second revision: the fragment list and the join sent for enhancement
    are built from the chunks the invocation closed over, and these are
    the chunks of the recorder's handler, fixed when the recording was
    started. *)
Lemma Rev2_join_from_closure (w : Rev2.World) (i : nat) (inv : Rev2.Invocation)
    (text0 : string) (now : Z) :
  Rev2.invocations w !! i = Some inv →
  Rev2.stage inv = Rev2.AwaitTranscribeAudio →
  Js.trim text0 ≠ "" →
  let updatedChunks :=
    Rev2.closureChunks inv ++ [{| Rev2.id := Js.toString now; Rev2.text := Js.trim text0 |}] in
  let w' := Rev2.step w (Rev2.PromiseSettles i (Fulfilled text0) now) in
  Rev2.transcriptChunks (Rev2.hooks w') = updatedChunks
  ∧ stage2 w' i = Some (Rev2.AwaitGenerateText updatedChunks)
  ∧ Rev2.effects w' =
      Rev2.effects w
      ++ [GenerateText {| prompt := promptFor (Js.join " " (Rev2.text <$> updatedChunks));
                          model := Some "gpt-4o-mini"; maxTokens := 1024 |}].
Proof.
  intros Hi Hst Ht%truthy_true. simpl. unfold stage2, Rev2.processAudioChunk_resume.
  rewrite Hi, Hst, Ht. simpl. split_and!; [done| |done].
  by rewrite list_lookup_alter_eq, Hi.
Qed.

Lemma Rev2_handler_closure (w : Rev2.World) (r : nat) (m : Rev2.MediaRecorder) (data : Blob) :
  Rev2.recorders w !! r = Some m →
  data ≠ [] →
  Rev2.invocations (Rev2.ondataavailable r data w)
  = Rev2.invocations w
    ++ [{| Rev2.closureChunks := Rev2.handlerChunks m;
           Rev2.stage := Rev2.AwaitFileReader data |}].
Proof.
  intros Hr Hne. unfold Rev2.ondataavailable, Rev2.processAudioChunk, blob_size.
  rewrite Hr. destruct (decide (length data = 0%nat)) as [E|_]; [|done].
  by apply nil_length_inv in E.
Qed.




(** * Further properties of the code *)

(** ** [trim] *)

Lemma rev_app_rev_app (a b c : string) :
  String.rev_app (String.rev_app a b) c = String.rev_app b (a +:+ c).
Proof.
  revert b c. induction a as [|x a IH]; intros b c; [done|].
  simpl. by rewrite IH.
Qed.

Lemma string_app_nil_r (s : string) : s +:+ "" = s.
Proof. induction s as [|x s IH]; [done|]. unfold String.app in *. simpl. by rewrite IH. Qed.

Lemma rev_involutive (s : string) : String.rev (String.rev s) = s.
Proof. unfold String.rev. by rewrite rev_app_rev_app, string_app_nil_r. Qed.

Lemma rev_app_snoc (u acc : string) (c : ascii) :
  String.rev_app (u +:+ String c "") acc = String c (String.rev_app u acc).
Proof.
  revert acc. induction u as [|x u IH]; intros acc; [done|].
  unfold String.app in *. simpl. by rewrite IH.
Qed.

Lemma string_app_assoc (a b c : string) : (a +:+ b) +:+ c = a +:+ (b +:+ c).
Proof. induction a as [|x a IH]; [done|]. unfold String.app in *. simpl. by rewrite IH. Qed.

Lemma rev_app_acc (u acc : string) : String.rev_app u acc = String.rev u +:+ acc.
Proof.
  unfold String.rev. revert acc. induction u as [|x u IH]; intros acc; [done|].
  simpl. rewrite (IH (String x "")), IH. by rewrite string_app_assoc.
Qed.

Lemma rev_cons (u : string) (c : ascii) :
  String.rev (String c u) = String.rev u +:+ String c "".
Proof. unfold String.rev at 1. simpl. apply rev_app_acc. Qed.

Lemma trimStart_headOk (s : string) : headOk (Js.trimStart s).
Proof.
  induction s as [|c s IH]; [done|]. simpl.
  by destruct (Js.isWhiteSpace c) eqn:E.
Qed.

Lemma trimStart_fixed (s : string) : headOk s → Js.trimStart s = s.
Proof. destruct s as [|c s]; [done|]. simpl. by intros ->. Qed.

Lemma trimStart_idempotent (s : string) : Js.trimStart (Js.trimStart s) = Js.trimStart s.
Proof. apply trimStart_fixed, trimStart_headOk. Qed.

Lemma trimStart_snoc (a : string) (c : ascii) :
  Js.isWhiteSpace c = false →
  ∃ u, Js.trimStart (a +:+ String c "") = u +:+ String c "".
Proof.
  intros Hc. induction a as [|x a IH].
  - exists "". unfold String.app. simpl. by rewrite Hc.
  - unfold String.app in *. simpl. destruct (Js.isWhiteSpace x); [done|].
    by exists (String x a).
Qed.

Lemma trimEnd_headOk (s : string) : headOk s → headOk (Js.trimEnd s).
Proof.
  destruct s as [|c s]; [done|]. simpl. intros Hc.
  unfold Js.trimEnd. rewrite rev_cons.
  destruct (trimStart_snoc (String.rev s) c Hc) as [u ->].
  unfold String.rev. by rewrite rev_app_snoc.
Qed.

Lemma trimEnd_idempotent (s : string) : Js.trimEnd (Js.trimEnd s) = Js.trimEnd s.
Proof. unfold Js.trimEnd. by rewrite rev_involutive, trimStart_idempotent. Qed.

Lemma trim_headOk (s : string) : headOk (Js.trim s).
Proof. apply trimEnd_headOk, trimStart_headOk. Qed.

Lemma trim_idempotent (s : string) : Js.trim (Js.trim s) = Js.trim s.
Proof.
  unfold Js.trim at 1. rewrite (trimStart_fixed (Js.trim s)) by apply trim_headOk.
  unfold Js.trim. apply trimEnd_idempotent.
Qed.

Lemma trim_Trimmed (s : string) : Trimmed (Js.trim s).
Proof.
  split; [apply trim_headOk|].
  unfold Js.trim, Js.trimEnd. rewrite rev_involutive. apply trimStart_headOk.
Qed.

Lemma trim_goodText (s : string) : Js.truthy (Js.trim s) = true → goodText (Js.trim s).
Proof. intros Ht%truthy_true. split; [done|apply trim_Trimmed]. Qed.

(** ** Induction over runs *)

Lemma Rev1_run_snoc (w : Rev1.World) (events : list Rev1.Event) (e : Rev1.Event) :
  Rev1.run w (events ++ [e]) = Rev1.step (Rev1.run w events) e.
Proof. unfold Rev1.run. by rewrite fold_left_app. Qed.

Lemma Rev2_run_snoc (w : Rev2.World) (events : list Rev2.Event) (e : Rev2.Event) :
  Rev2.run w (events ++ [e]) = Rev2.step (Rev2.run w events) e.
Proof. unfold Rev2.run. by rewrite fold_left_app. Qed.

Lemma Rev1_run_invariant (P : Rev1.World → Prop) (w : Rev1.World) :
  P w → (∀ w e, P w → P (Rev1.step w e)) → ∀ events, P (Rev1.run w events).
Proof.
  intros H0 Hstep events. induction events as [|e events IH] using rev_ind; [done|].
  rewrite Rev1_run_snoc. by apply Hstep.
Qed.

Lemma Rev2_run_invariant (P : Rev2.World → Prop) (w : Rev2.World) :
  P w → (∀ w e, P w → P (Rev2.step w e)) → ∀ events, P (Rev2.run w events).
Proof.
  intros H0 Hstep events. induction events as [|e events IH] using rev_ind; [done|].
  rewrite Rev2_run_snoc. by apply Hstep.
Qed.

(** ** Stored texts are non-empty and trimmed *)

Lemma saveNote_goodText (ct : string) (start nd ni nt : Z) (notes : list VoiceNote) :
  Forall (λ n, goodText (note_text n)) notes →
  Forall (λ n, goodText (note_text n)) (saveNote ct start nd ni nt notes).
Proof.
  intros Hn. unfold saveNote. destruct (Js.truthy (Js.trim ct)) eqn:Ht; [|done].
  apply Forall_cons. split; [|done]. by apply trim_goodText.
Qed.

Lemma deleteNote_Forall (P : VoiceNote → Prop) (id : string) (notes : list VoiceNote) :
  Forall P notes → Forall P (deleteNote id notes).
Proof.
  intros Hn. apply Forall_forall. intros n Hin%list_elem_of_filter.
  rewrite Forall_forall in Hn. apply Hn, Hin.
Qed.

(** X1.  In every run of either revision, every note in the note list
    has a text that is not empty and neither starts nor ends with white
    space. *)
Theorem X1_saved_notes_have_trimmed_nonempty_text :
  (∀ events : list Rev1.Event,
     Forall (λ n, goodText (note_text n))
       (Rev1.voiceNotes (Rev1.hooks (Rev1.run Rev1.initial events))))
  ∧
  (∀ events : list Rev2.Event,
     Forall (λ n, goodText (note_text n))
       (Rev2.voiceNotes (Rev2.hooks (Rev2.run Rev2.initial events)))).
Proof.
  split.
  - apply (Rev1_run_invariant
             (λ w, Forall (λ n, goodText (note_text n)) (Rev1.voiceNotes (Rev1.hooks w))));
      [constructor|].
    intros w e Hw. rewrite Rev1_step_voiceNotes. cbv zeta.
    destruct e; try done.
    + case_match; [|done]. by apply saveNote_goodText.
    + by apply deleteNote_Forall.
  - apply (Rev2_run_invariant
             (λ w, Forall (λ n, goodText (note_text n)) (Rev2.voiceNotes (Rev2.hooks w))));
      [constructor|].
    intros w e Hw. rewrite Rev2_step_voiceNotes. cbv zeta.
    destruct e; try done.
    + repeat case_match; try done. by apply saveNote_goodText.
    + by apply deleteNote_Forall.
Qed.

Lemma Rev1_step_goodChunks (w : Rev1.World) (e : Rev1.Event) :
  goodChunks1 (Rev1.transcriptChunks (Rev1.hooks w)) →
  goodChunks1 (Rev1.transcriptChunks (Rev1.hooks (Rev1.step w e))).
Proof.
  intros Hw. unfold goodChunks1 in *.
  destruct e as [nd ni nt|k o now|r data|t now|i o n n'|id]; simpl.
  - unfold Rev1.click, Rev1.stopRecording, Rev1.startRecording. by_cases.
  - unfold Rev1.startRecording_resume. repeat (case_match; simpl); try done.
  - unfold Rev1.onstop, Rev1.ondataavailable. by_cases.
  - unfold Rev1.chunkInterval, Rev1.chunkDelay. by_cases.
  - unfold Rev1.processAudioChunk_resume, Rev1.settled.
    repeat (case_match; simpl); try done;
      apply Forall_app; (split; [done|]); apply Forall_singleton; by apply trim_goodText.
  - done.
Qed.

Lemma Rev2_step_closuresGood (w : Rev2.World) (e : Rev2.Event) :
  closuresGood2 w → closuresGood2 (Rev2.step w e).
Proof.
  intros (Hh & Hr & Hu & Hi). unfold closuresGood2.
  assert (Halter : ∀ f r, (∀ m, Rev2.handlerChunks (f m) = Rev2.handlerChunks m) →
            Forall (λ m, goodChunks2 (Rev2.handlerChunks m)) (alter f r (Rev2.recorders w))).
  { intros f r Hf. apply Forall_alter; [done|]. intros m _. by rewrite Hf. }
  assert (Hsusp : ∀ f i, (∀ m, Rev2.closureChunks (f m) = Rev2.closureChunks m) →
            Forall (λ inv, goodChunks2 (Rev2.closureChunks inv))
              (alter f i (Rev2.invocations w))).
  { intros f i Hf. apply Forall_alter; [done|]. intros m _. by rewrite Hf. }
  destruct e as [|k o now|r data|r data|t now|k nd ni nt|i o n|id]; simpl.
  - unfold Rev2.click, Rev2.stopRecording, Rev2.startRecording.
    repeat (case_match; simpl); split_and!; try done; try (by apply Halter).
    all: apply Forall_app; split; [done|]; by apply Forall_singleton.
  - unfold Rev2.startRecording_resume.
    destruct (Rev2.userMediaCalls w !! k) as [[chunks|]|] eqn:Hk; try done.
    assert (goodChunks2 chunks) by apply (Forall_lookup_1 _ _ _ _ Hu Hk).
    assert (Forall (λ c, from_option goodChunks2 True c) (<[k:=None]> (Rev2.userMediaCalls w)))
      by (by apply Forall_insert).
    destruct o; simpl; split_and!; try done; try constructor.
    apply Forall_alter; [|done].
    apply Forall_app; split; [done|]. by apply Forall_singleton.
  - unfold Rev2.ondataavailable, Rev2.processAudioChunk.
    destruct (Rev2.isRecordingState r w); [|done].
    destruct (Rev2.recorders w !! r) as [m|] eqn:Hm; [|done].
    case_decide; [done|]. simpl. split_and!; try done.
    apply Forall_app; split; [done|]. apply Forall_singleton. simpl.
    apply (Forall_lookup_1 _ _ _ _ Hr Hm).
  - unfold Rev2.ondataavailable, Rev2.processAudioChunk, Rev2.onstop.
    destruct (Rev2.recorders w !! r) as [m|] eqn:Hm; [|done].
    destruct m as [st [] tl hc]; [|done].
    case_decide; simpl; split_and!; try done; try (by apply Halter).
    apply Forall_app; split; [done|]. apply Forall_singleton. simpl.
    apply (Forall_lookup_1 _ _ _ _ Hr Hm).
  - by repeat (case_match; simpl).
  - unfold Rev2.stopRecording_timeout. by repeat (case_match; simpl).
  - unfold Rev2.processAudioChunk_resume.
    destruct (Rev2.invocations w !! i) as [inv|] eqn:Hinv; [|done].
    assert (goodChunks2 (Rev2.closureChunks inv)) by apply (Forall_lookup_1 _ _ _ _ Hi Hinv).
    destruct (Rev2.stage inv), o as [v|]; simpl; try done;
      try destruct (Js.truthy (Js.trim v)) eqn:Ht; simpl;
      split_and!; try done; try (by apply Hsusp).
    apply Forall_app; split; [done|]. apply Forall_singleton. by apply trim_goodText.
  - done.
Qed.

(** X2.  In every run of either revision, every fragment of the
    fragment list has a text that is not empty and neither starts nor
    ends with white space.  In the second revision, where the list is
    rebuilt from the chunks a closure holds, the same is true of the
    chunks held by every recorder handler, by every pending
    [startRecording] and by every invocation. *)
Theorem X2_fragments_have_trimmed_nonempty_text :
  (∀ events : list Rev1.Event,
     goodChunks1 (Rev1.transcriptChunks (Rev1.hooks (Rev1.run Rev1.initial events))))
  ∧
  (∀ events : list Rev2.Event, closuresGood2 (Rev2.run Rev2.initial events)).
Proof.
  split.
  - apply (Rev1_run_invariant
             (λ w, goodChunks1 (Rev1.transcriptChunks (Rev1.hooks w)))); [constructor|].
    intros w e. apply Rev1_step_goodChunks.
  - apply Rev2_run_invariant; [|intros w e; apply Rev2_step_closuresGood].
    repeat split; constructor.
Qed.

(** ** No transcription request without audio *)

Lemma newBlob_nonempty (parts : list Blob) :
  (0 < length parts)%nat → Forall (λ blob : Blob, blob ≠ []) parts → newBlob parts ≠ [].
Proof.
  destruct parts as [|b parts]; [simpl; lia|]. intros _ [Hb _]%Forall_cons.
  unfold newBlob. simpl. by destruct b.
Qed.

Lemma Rev1_step_audioInvariant (w : Rev1.World) (e : Rev1.Event) :
  audioInvariant1 w → audioInvariant1 (Rev1.step w e).
Proof.
  intros (He & Hi & Ha). unfold audioInvariant1.
  assert (Hemit : ∀ x, audioNonEmpty x → Forall audioNonEmpty (Rev1.effects w ++ [x])).
  { intros x Hx. apply Forall_app. split; [done|]. by apply Forall_singleton. }
  destruct e as [nd ni nt|k o now|r data|t now|i o n n'|id]; simpl.
  - unfold Rev1.click, Rev1.stopRecording, Rev1.startRecording.
    repeat (case_match; simpl); split_and!; try done; by apply Hemit.
  - unfold Rev1.startRecording_resume.
    repeat (case_match; simpl); split_and!; try done; try constructor;
      try (by apply Hemit).
    all: apply Forall_app; split; [by apply Hemit|]; by apply Forall_singleton.
  - destruct (Rev1.recorders w !! r) as [[st [] tl c]|]; try done.
    unfold Rev1.onstop, Rev1.ondataavailable, blob_size.
    destruct (decide (0 < length data)%nat) as [Hd|Hd]; simpl.
    + assert (Forall (λ blob : Blob, blob ≠ []) (Rev1.audioChunksRef (Rev1.refs w) ++ [data])).
      { apply Forall_app. split; [done|]. apply Forall_singleton.
        destruct data; [simpl in Hd; lia|done]. }
      case_decide; simpl; split_and!; try done.
      apply Forall_app. split; [done|]. apply Forall_singleton.
      unfold pendingAudio1. simpl. by apply newBlob_nonempty.
    + case_decide; simpl; split_and!; try done.
      apply Forall_app. split; [done|]. apply Forall_singleton.
      unfold pendingAudio1. simpl. by apply newBlob_nonempty.
  - destruct (Rev1.timers w !! t) as [[[c|c|] []]|]; try done.
    + unfold Rev1.chunkInterval. repeat (case_match; simpl); by split_and!.
    + unfold Rev1.chunkDelay. simpl.
      destruct (decide (0 < length (Rev1.audioChunksRef (Rev1.refs w)))%nat); simpl;
        repeat (case_match; simpl); split_and!; try done; try constructor.
      all: apply Forall_app; (split; [done|]); apply Forall_singleton;
        unfold pendingAudio1; simpl; by apply newBlob_nonempty.
  - unfold Rev1.processAudioChunk_resume.
    destruct (Rev1.invocations w !! i) as [inv|] eqn:Hinv; [|done].
    pose proof (Forall_lookup_1 _ _ _ _ Hi Hinv) as Hp. unfold pendingAudio1 in Hp.
    assert (Hsusp : ∀ s, (∀ b, s ≠ Rev1.AwaitFileReader b) →
              Forall pendingAudio1
                (alter (λ inv0, {| Rev1.invChunks := Rev1.invChunks inv0; Rev1.stage := s;
                                   Rev1.awaitedByOnstop := Rev1.awaitedByOnstop inv0 |})
                   i (Rev1.invocations w))).
    { intros s Hs. apply Forall_alter; [done|]. intros x _ _. unfold pendingAudio1. simpl.
      destruct s; try done. by destruct (Hs audioBlob). }
    unfold Rev1.settled.
    destruct (Rev1.stage inv), o as [v|]; simpl;
      repeat (case_match; simpl); split_and!; try done;
      try (by apply Hsusp); try (by apply Hemit).
  - split_and!; try done. by apply Hemit.
Qed.

Lemma Rev2_step_audioInvariant (w : Rev2.World) (e : Rev2.Event) :
  audioInvariant2 w → audioInvariant2 (Rev2.step w e).
Proof.
  intros (He & Hi). unfold audioInvariant2.
  assert (Hemit : ∀ x, audioNonEmpty x → Forall audioNonEmpty (Rev2.effects w ++ [x])).
  { intros x Hx. apply Forall_app. split; [done|]. by apply Forall_singleton. }
  assert (Hcall : ∀ chunks data,
            Forall audioNonEmpty (Rev2.effects (Rev2.processAudioChunk chunks data w))
            ∧ Forall pendingAudio2 (Rev2.invocations (Rev2.processAudioChunk chunks data w))).
  { intros chunks data. unfold Rev2.processAudioChunk, blob_size.
    case_decide as Hd; simpl; split; try done.
    apply Forall_app. split; [done|]. apply Forall_singleton. unfold pendingAudio2. simpl.
    intros ->. by apply Hd. }
  destruct e as [|k o now|r data|r data|t now|k nd ni nt|i o n|id]; simpl.
  - unfold Rev2.click, Rev2.stopRecording, Rev2.startRecording.
    repeat (case_match; simpl); by split_and!.
  - unfold Rev2.startRecording_resume.
    repeat (case_match; simpl); split_and!; try done; try (by apply Hemit).
    all: apply Forall_app; split; [by apply Hemit|]; by apply Forall_singleton.
  - unfold Rev2.ondataavailable. repeat case_match; first [done|apply Hcall].
  - unfold Rev2.ondataavailable, Rev2.onstop. repeat case_match; first [done|apply Hcall].
  - by repeat (case_match; simpl).
  - unfold Rev2.stopRecording_timeout. repeat (case_match; simpl); split_and!; try done.
    by apply Hemit.
  - unfold Rev2.processAudioChunk_resume.
    destruct (Rev2.invocations w !! i) as [inv|] eqn:Hinv; [|done].
    pose proof (Forall_lookup_1 _ _ _ _ Hi Hinv) as Hp. unfold pendingAudio2 in Hp.
    assert (Hsusp : ∀ s, (∀ b, s ≠ Rev2.AwaitFileReader b) →
              Forall pendingAudio2
                (alter (λ inv0, {| Rev2.closureChunks := Rev2.closureChunks inv0;
                                   Rev2.stage := s |}) i (Rev2.invocations w))).
    { intros s Hs. apply Forall_alter; [done|]. intros x _ _. unfold pendingAudio2. simpl.
      destruct s; try done. by destruct (Hs audioBlob). }
    destruct (Rev2.stage inv), o as [v|]; simpl;
      repeat (case_match; simpl); split_and!; try done;
      try (by apply Hsusp); try (by apply Hemit).
    all: apply Forall_app; split; [by apply Hemit|]; by apply Forall_singleton.
  - split_and!; try done. by apply Hemit.
Qed.

(** X3.  In no run of either revision is [transcribeAudio] called
    without audio: every transcription request among the effects carries
    a non-empty blob. *)
Theorem X3_no_transcription_request_without_audio :
  (∀ events : list Rev1.Event,
     Forall audioNonEmpty (Rev1.effects (Rev1.run Rev1.initial events)))
  ∧
  (∀ events : list Rev2.Event,
     Forall audioNonEmpty (Rev2.effects (Rev2.run Rev2.initial events))).
Proof.
  split; intros events.
  - apply (Rev1_run_invariant audioInvariant1); [|intros w e; apply Rev1_step_audioInvariant].
    repeat split; constructor.
  - apply (Rev2_run_invariant audioInvariant2); [|intros w e; apply Rev2_step_audioInvariant].
    repeat split; constructor.
Qed.

(** ** What the flags say about the browser objects *)

Lemma Rev2_step_recordingConsistent (w : Rev2.World) (e : Rev2.Event) :
  recordingConsistent2 w → recordingConsistent2 (Rev2.step w e).
Proof.
  intros Hw. unfold recordingConsistent2 in *.
  destruct e as [|k o now|r data|r data|t now|k nd ni nt|i o n|id]; simpl.
  - unfold Rev2.click.
    destruct (Rev2.isRecording (Rev2.hooks w)) eqn:Hrec,
             (Rev2.isProcessing (Rev2.hooks w)); cbn [andb].
    + rewrite Hrec. auto.
    + unfold Rev2.stopRecording. by_cases.
    + unfold Rev2.startRecording. simpl. by rewrite Hrec.
    + unfold Rev2.startRecording. simpl. by rewrite Hrec.
  - unfold Rev2.startRecording_resume.
    destruct (Rev2.userMediaCalls w !! k) as [[chunks|]|]; try done.
    destruct o; simpl; try done.
    intros _. exists (length (Rev2.recorders w)). split; [done|].
    unfold Rev2.isRecordingState. simpl.
    rewrite list_lookup_alter_eq, lookup_app_r, Nat.sub_diag by done. done.
  - unfold Rev2.ondataavailable, Rev2.processAudioChunk. by_cases.
  - destruct (Rev2.recorders w !! r) as [[st [] tl hc]|] eqn:Hr; try done.
    unfold Rev2.onstop, Rev2.ondataavailable, Rev2.processAudioChunk. rewrite Hr.
    case_decide; simpl; intros Hrec; destruct (Hw Hrec) as (r0 & Href & Hst);
      exists r0; (split; [done|]);
      unfold Rev2.isRecordingState in *; simpl; rewrite list_lookup_alter;
      case_decide; subst; try done; rewrite Hr in *; simpl in *; done.
  - by_cases.
  - unfold Rev2.stopRecording_timeout. by_cases.
  - unfold Rev2.processAudioChunk_resume. by_cases.
  - done.
Qed.

(** X4.  Second revision: in every run, whenever [isRecording] is true
    the recorder held by [mediaRecorderRef] exists and is recording. *)
Theorem X4_isRecording_means_referenced_recorder_records :
  ∀ events : list Rev2.Event, recordingConsistent2 (Rev2.run Rev2.initial events).
Proof.
  apply Rev2_run_invariant; [done|]. intros w e. apply Rev2_step_recordingConsistent.
Qed.





(** ** First revision: a recorder records once *)

Lemma Rev1_step_closuresNotRecording (w : Rev1.World) (e : Rev1.Event) :
  closuresNotRecording1 w → closuresNotRecording1 (Rev1.step w e).
Proof.
  intros (Hu & Ht). unfold closuresNotRecording1.
  assert (Hclear : ∀ t, Forall timerClosureNotRecording
            (alter (λ x, {| Rev1.kind := Rev1.kind x; Rev1.armed := false |}) t (Rev1.timers w))).
  { intros t. apply Forall_alter; [done|]. by intros [k a] _. }
  destruct e as [nd ni nt|k o now|r data|t now|i o n n'|id]; simpl.
  - unfold Rev1.click.
    destruct (Rev1.isProcessing (Rev1.hooks w)); [done|].
    destruct (Rev1.isRecording (Rev1.hooks w)) eqn:Hrec.
    + unfold Rev1.stopRecording, Rev1.clearTimer.
      repeat (case_match; simpl); split; try done; try apply Hclear.
      all: apply Forall_alter; [apply Hclear|]; by intros [k a] _.
    + unfold Rev1.startRecording. simpl. split; [|done].
      apply Forall_app. split; [done|]. by apply Forall_singleton.
  - unfold Rev1.startRecording_resume.
    destruct (Rev1.userMediaCalls w !! k) as [[c|]|] eqn:Hk; try done.
    pose proof (Forall_lookup_1 _ _ _ _ Hu Hk) as Hc. simpl in Hc.
    assert (Forall (λ c, from_option (λ c, Rev1.closureIsRecording c = false) True c)
              (<[k:=None]> (Rev1.userMediaCalls w))) by (by apply Forall_insert).
    destruct o; simpl; split; try done.
    rewrite <- app_assoc. apply Forall_app. split; [done|].
    by repeat constructor.
  - destruct (Rev1.recorders w !! r) as [[st [] tl c]|]; try done.
    unfold Rev1.onstop, Rev1.ondataavailable. by_cases.
  - destruct (Rev1.timers w !! t) as [[[c|c|] []]|] eqn:Hti; try done.
    + pose proof (Forall_lookup_1 _ _ _ _ Ht Hti) as Hc.
      unfold Rev1.chunkInterval. repeat (case_match; simpl); split; try done.
      apply Forall_app. split; [done|]. by apply Forall_singleton.
    + unfold Rev1.chunkDelay, Rev1.clearTimer.
      repeat (case_match; simpl); split; try done; apply Hclear.
  - unfold Rev1.processAudioChunk_resume, Rev1.settled. by_cases.
  - done.
Qed.

Lemma Rev1_isRecordingState_frame (r : nat) (w w' : Rev1.World) :
  Rev1.recorders w' = Rev1.recorders w →
  Rev1.isRecordingState r w' = Rev1.isRecordingState r w.
Proof. unfold Rev1.isRecordingState. by intros ->. Qed.

Lemma Rev1_isRecordingState_alter (f : Rev1.MediaRecorder → Rev1.MediaRecorder)
    (r r' : nat) (l : list Rev1.MediaRecorder) :
  (∀ m, Rev1.state (f m) = Rev1.state m) →
  match alter f r' l !! r with
  | Some {| Rev1.state := Rev1.recording |} => true
  | _ => false
  end
  = match l !! r with
    | Some {| Rev1.state := Rev1.recording |} => true
    | _ => false
    end.
Proof.
  intros Hf. rewrite list_lookup_alter. case_decide; [subst|done].
  destruct (l !! r) as [m|]; [|done]. simpl.
  specialize (Hf m). destruct (f m), m. simpl in Hf. by subst.
Qed.

Lemma Rev1_step_never_restarts (w : Rev1.World) (e : Rev1.Event) (r : nat) :
  closuresNotRecording1 w →
  (r < length (Rev1.recorders w))%nat →
  Rev1.isRecordingState r (Rev1.step w e) = true →
  Rev1.isRecordingState r w = true.
Proof.
  intros (Hu & Ht) Hr.
  destruct e as [nd ni nt|k o now|r0 data|t now|i o n n'|id]; simpl.
  - unfold Rev1.click.
    destruct (Rev1.isProcessing (Rev1.hooks w)); [done|].
    destruct (Rev1.isRecording (Rev1.hooks w)); [|done].
    apply Rev1_stopRecording_starts_nothing.
  - unfold Rev1.startRecording_resume.
    destruct (Rev1.userMediaCalls w !! k) as [[c|]|]; try done.
    destruct o; try done. unfold Rev1.isRecordingState. simpl.
    rewrite list_lookup_alter_ne by lia. by rewrite lookup_app_l.
  - destruct (Rev1.recorders w !! r0) as [[st [] tl c]|] eqn:Hr0; try done.
    unfold Rev1.onstop, Rev1.ondataavailable.
    repeat (case_match; simpl); unfold Rev1.isRecordingState; simpl;
      rewrite ?Rev1_isRecordingState_alter; done.
  - destruct (Rev1.timers w !! t) as [[[c|c|] []]|] eqn:Hti; try done.
    + unfold Rev1.chunkInterval. repeat (case_match; simpl); try done.
      apply Rev1_isRecordingState_stop.
    + pose proof (Forall_lookup_1 _ _ _ _ Ht Hti) as Hc.
      unfold timerClosureNotRecording in Hc. simpl in Hc.
      unfold Rev1.chunkDelay. rewrite Hc. by_cases.
  - unfold Rev1.processAudioChunk_resume, Rev1.settled.
    repeat (case_match; simpl); try done;
      by rewrite Rev1_isRecordingState_stopTracks.
  - done.
Qed.

Lemma Rev1_step_recorders_length (w : Rev1.World) (e : Rev1.Event) :
  (length (Rev1.recorders w) ≤ length (Rev1.recorders (Rev1.step w e)))%nat.
Proof.
  destruct e as [nd ni nt|k o now|r0 data|t now|i o n n'|id]; simpl.
  - unfold Rev1.click, Rev1.stopRecording, Rev1.startRecording.
    repeat (case_match; simpl); rewrite ?length_alter; lia.
  - unfold Rev1.startRecording_resume.
    repeat (case_match; simpl); rewrite ?length_alter, ?length_app; simpl; lia.
  - unfold Rev1.onstop, Rev1.ondataavailable.
    repeat (case_match; simpl); rewrite ?length_alter; lia.
  - unfold Rev1.chunkInterval, Rev1.chunkDelay.
    repeat (case_match; simpl); rewrite ?length_alter; lia.
  - unfold Rev1.processAudioChunk_resume, Rev1.settled.
    repeat (case_match; simpl); rewrite ?length_alter; lia.
  - done.
Qed.

(** X6.  First revision: in a run from the initial state, a recorder
    that exists and is not recording never records again, whatever
    happens afterwards.  (The 100 ms callback that should restart it
    tests the [isRecording] of the render in which the recording was
    started, which is false.)  So after the first 5000 ms tick, or after
    a stop, the recorder of a session stays inactive. *)
Theorem X6_first_revision_recorder_never_restarts :
  ∀ (events later : list Rev1.Event) (r : nat),
    let w := Rev1.run Rev1.initial events in
    (r < length (Rev1.recorders w))%nat →
    Rev1.isRecordingState r w = false →
    Rev1.isRecordingState r (Rev1.run w later) = false.
Proof.
  intros events later r w Hr Hoff.
  assert (Hinv : ∀ l, closuresNotRecording1 (Rev1.run w l)).
  { intros l. subst w. unfold Rev1.run. rewrite <- fold_left_app.
    apply (Rev1_run_invariant closuresNotRecording1);
      [by split; constructor|intros w0 e; apply Rev1_step_closuresNotRecording]. }
  induction later as [|e later IH] using rev_ind; [done|].
  rewrite Rev1_run_snoc.
  destruct (Rev1.isRecordingState r (Rev1.step (Rev1.run w later) e)) eqn:E; [|done].
  apply Rev1_step_never_restarts in E; [congruence|apply Hinv|].
  clear -Hr. induction later as [|e' later IH] using rev_ind; [done|].
  rewrite Rev1_run_snoc. pose proof (Rev1_step_recorders_length (Rev1.run w later) e'). lia.
Qed.

Lemma X6_first_revision_recorder_never_restarts_witness :
  let events := take 3 segmentRead1 in
  let later := drop 3 segmentRead1 ++ [Rev1.TimerFires 0 11000] in
  let w := Rev1.run Rev1.initial events in
  ((0 < length (Rev1.recorders w))%nat ∧ Rev1.isRecordingState 0 w = false)
  ∧ Rev1.isRecording (Rev1.hooks (Rev1.run w later)) = true
  ∧ Rev1.isRecordingState 0 (Rev1.run w later) = false.
Proof.
  intros events later w.
  split; [split; [vm_compute; lia|vm_compute; reflexivity]|].
  split; [vm_compute; reflexivity|].
  apply (X6_first_revision_recorder_never_restarts events later 0%nat);
    [vm_compute; lia|vm_compute; reflexivity].
Defined.

(** ** The note store *)

(** X7.  [deleteNote] removes exactly the notes that have the id: a note
    is in the result if and only if it was in the list and has another
    id; the notes kept are in their former order; deletions of two ids
    commute. *)
Theorem X7_deleteNote_removes_exactly_that_id (id id' : string) (notes : list VoiceNote) :
  (∀ n, n ∈ deleteNote id notes ↔ n ∈ notes ∧ note_id n ≠ id)
  ∧ deleteNote id notes `sublist_of` notes
  ∧ deleteNote id (deleteNote id' notes) = deleteNote id' (deleteNote id notes).
Proof.
  unfold deleteNote. split_and!.
  - intros n. rewrite list_elem_of_filter. tauto.
  - apply sublist_filter.
  - rewrite !list_filter_filter. apply list_filter_iff. tauto.
Qed.

Lemma deleteNote_saveNote (ct : string) (start nd ni nt : Z) (notes : list VoiceNote) :
  deleteNote (Js.toString ni) (saveNote ct start nd ni nt notes)
  = deleteNote (Js.toString ni) notes.
Proof.
  unfold saveNote. destruct (Js.truthy (Js.trim ct)); [|done].
  unfold insertNote, deleteNote, makeNote. by rewrite filter_cons_False by (simpl; tauto).
Qed.

(** X8.  Saving a note and then deleting the id it was given leaves the
    notes that deleting that id from the old list would leave; when the
    id is not the id of an older note, the old list is back.  (An older
    note with the same id is deleted along.)  First revision: the note is
    saved by the click; second revision: when the timer of
    [stopRecording] fires. *)
Theorem X8_save_then_delete_restores_the_list :
  (∀ (w : Rev1.World) (nd ni nt : Z),
     let w' := Rev1.run w [Rev1.Click nd ni nt; Rev1.DeleteClick (Js.toString ni)] in
     Rev1.isRecording (Rev1.hooks w) = true →
     Rev1.isProcessing (Rev1.hooks w) = false →
     Rev1.voiceNotes (Rev1.hooks w')
       = deleteNote (Js.toString ni) (Rev1.voiceNotes (Rev1.hooks w))
     ∧ (Js.toString ni ∉ note_id <$> Rev1.voiceNotes (Rev1.hooks w) →
        Rev1.voiceNotes (Rev1.hooks w') = Rev1.voiceNotes (Rev1.hooks w)))
  ∧
  (∀ (w : Rev2.World) (k : nat) (nd ni nt : Z),
     let w' := Rev2.run w [Rev2.StopTimer k nd ni nt; Rev2.DeleteClick (Js.toString ni)] in
     Rev2.voiceNotes (Rev2.hooks w')
       = deleteNote (Js.toString ni) (Rev2.voiceNotes (Rev2.hooks w))
     ∧ (Js.toString ni ∉ note_id <$> Rev2.voiceNotes (Rev2.hooks w) →
        Rev2.voiceNotes (Rev2.hooks w') = Rev2.voiceNotes (Rev2.hooks w))).
Proof.
  split.
  - intros w nd ni nt w' Hrec Hproc.
    assert (E : Rev1.voiceNotes (Rev1.hooks w')
                = deleteNote (Js.toString ni) (Rev1.voiceNotes (Rev1.hooks w))).
    { subst w'. unfold Rev1.run. simpl fold_left.
      change (Rev1.deleteNoteClick ?i ?x) with (Rev1.step x (Rev1.DeleteClick i)).
      change (Rev1.click nd ni nt w) with (Rev1.step w (Rev1.Click nd ni nt)).
      rewrite !Rev1_step_voiceNotes. cbv zeta. rewrite Hrec, Hproc. simpl.
      apply deleteNote_saveNote. }
    split; [done|]. intros Hfresh. rewrite E. by apply deleteNote_absent.
  - intros w k nd ni nt w'.
    assert (E : Rev2.voiceNotes (Rev2.hooks w')
                = deleteNote (Js.toString ni) (Rev2.voiceNotes (Rev2.hooks w))).
    { subst w'. unfold Rev2.run. simpl fold_left.
      change (Rev2.deleteNoteClick ?i ?x) with (Rev2.step x (Rev2.DeleteClick i)).
      change (Rev2.stopRecording_timeout k nd ni nt w)
        with (Rev2.step w (Rev2.StopTimer k nd ni nt)).
      rewrite !Rev2_step_voiceNotes. cbv zeta.
      repeat case_match; try done. apply deleteNote_saveNote. }
    split; [done|]. intros Hfresh. rewrite E. by apply deleteNote_absent.
Qed.

Lemma X8_save_then_delete_restores_the_list_witness :
  (let w := Rev1.run Rev1.initial segmentEnhanced1 in
   let w' := Rev1.run w [Rev1.Click 9000 9001 9002; Rev1.DeleteClick (Js.toString 9001)] in
   (Rev1.isRecording (Rev1.hooks w) = true ∧ Rev1.isProcessing (Rev1.hooks w) = false)
   ∧ length (Rev1.voiceNotes (Rev1.hooks (Rev1.step w (Rev1.Click 9000 9001 9002)))) = 1%nat
   ∧ Rev1.voiceNotes (Rev1.hooks w') = Rev1.voiceNotes (Rev1.hooks w))
  ∧
  (let w := Rev2.step (Rev2.run Rev2.initial segmentsEnhanced2) Rev2.Click in
   let w' := Rev2.run w [Rev2.StopTimer 0 12000 12001 12002;
                         Rev2.DeleteClick (Js.toString 12001)] in
   length (Rev2.voiceNotes (Rev2.hooks (Rev2.step w (Rev2.StopTimer 0 12000 12001 12002))))
     = 1%nat
   ∧ Rev2.voiceNotes (Rev2.hooks w') = Rev2.voiceNotes (Rev2.hooks w)).
Proof.
  destruct X8_save_then_delete_restores_the_list as [H1 H2]. split.
  - intros w w'.
    split; [split; vm_compute; reflexivity|]. split; [vm_compute; reflexivity|].
    destruct (H1 w 9000 9001 9002) as [_ Hback]; [vm_compute; reflexivity..|].
    apply Hback. compute_done.
  - intros w w'. split; [vm_compute; reflexivity|].
    destruct (H2 w 0%nat 12000 12001 12002) as [_ Hback].
    apply Hback. compute_done.
Defined.

Lemma Rev1_step_suffix (w : Rev1.World) (e : Rev1.Event) :
  notDelete1 e = true →
  Rev1.voiceNotes (Rev1.hooks w) `suffix_of` Rev1.voiceNotes (Rev1.hooks (Rev1.step w e)).
Proof.
  intros He. rewrite Rev1_step_voiceNotes. cbv zeta. destruct e; try done.
  unfold saveNote, insertNote. repeat case_match; try done. by apply suffix_cons_r.
Qed.

Lemma Rev2_step_suffix (w : Rev2.World) (e : Rev2.Event) :
  notDelete2 e = true →
  Rev2.voiceNotes (Rev2.hooks w) `suffix_of` Rev2.voiceNotes (Rev2.hooks (Rev2.step w e)).
Proof.
  intros He. rewrite Rev2_step_voiceNotes. cbv zeta. destruct e; try done.
  unfold saveNote, insertNote. repeat case_match; try done. by apply suffix_cons_r.
Qed.

(** X9.  Only a click on a delete button removes or changes a note: over
    any events without such a click, in either revision, the notes that
    were stored are still there, unchanged and in the same order, at the
    end of the note list (new notes come in front). *)
Theorem X9_notes_survive_everything_but_delete :
  (∀ (w : Rev1.World) (events : list Rev1.Event),
     forallb notDelete1 events = true →
     Rev1.voiceNotes (Rev1.hooks w)
       `suffix_of` Rev1.voiceNotes (Rev1.hooks (Rev1.run w events)))
  ∧
  (∀ (w : Rev2.World) (events : list Rev2.Event),
     forallb notDelete2 events = true →
     Rev2.voiceNotes (Rev2.hooks w)
       `suffix_of` Rev2.voiceNotes (Rev2.hooks (Rev2.run w events))).
Proof.
  split.
  - intros w events. revert w. induction events as [|e events IH]; intros w Hev; [done|].
    simpl in Hev. apply andb_true_iff in Hev as [He Hev].
    etrans; [by apply (Rev1_step_suffix w e)|]. by apply (IH (Rev1.step w e)).
  - intros w events. revert w. induction events as [|e events IH]; intros w Hev; [done|].
    simpl in Hev. apply andb_true_iff in Hev as [He Hev].
    etrans; [by apply (Rev2_step_suffix w e)|]. by apply (IH (Rev2.step w e)).
Qed.

Lemma X9_notes_survive_everything_but_delete_witness :
  (let w := Rev1.run Rev1.initial (segmentEnhanced1 ++ [Rev1.Click 9000 9001 9002]) in
   let events := [Rev1.Click 9500 9501 9502; Rev1.UserMediaSettles 1 Denied 9600;
                  Rev1.RecorderStops 0 [x02]; Rev1.PromiseSettles 2 Rejected 9700 9700] in
   forallb notDelete1 events = true
   ∧ length (Rev1.voiceNotes (Rev1.hooks w)) = 1%nat
   ∧ Rev1.voiceNotes (Rev1.hooks w)
       `suffix_of` Rev1.voiceNotes (Rev1.hooks (Rev1.run w events)))
  ∧
  (let w := Rev2.run Rev2.initial shortRecording2 in
   let events := twoSegments2 in
   forallb notDelete2 events = true
   ∧ Rev2.voiceNotes (Rev2.hooks w)
       `suffix_of` Rev2.voiceNotes (Rev2.hooks (Rev2.run w events))).
Proof.
  destruct X9_notes_survive_everything_but_delete as [H1 H2]. split.
  - intros w events. split; [vm_compute; reflexivity|]. split; [vm_compute; reflexivity|].
    apply (H1 w events). vm_compute. reflexivity.
  - intros w events. split; [vm_compute; reflexivity|].
    apply (H2 w events). vm_compute. reflexivity.
Defined.

(** ** Durations *)




(** ** Stopping clears the timers *)

Lemma Rev1_stopRecording_timers_eq (ct : string) (nd ni nt : Z) (w : Rev1.World) :
  let clear (o : option nat) (l : list Rev1.Timer) :=
    match o with
    | Some t => alter (λ x, {| Rev1.kind := Rev1.kind x; Rev1.armed := false |}) t l
    | None => l
    end in
  Rev1.timers (Rev1.stopRecording ct nd ni nt w)
  = clear (Rev1.durationIntervalRef (Rev1.refs w))
      (clear (Rev1.chunkIntervalRef (Rev1.refs w)) (Rev1.timers w)).
Proof.
  unfold Rev1.stopRecording, Rev1.clearTimer.
  destruct (Rev1.mediaRecorderRef (Rev1.refs w)) as [r|];
    [destruct (Rev1.isRecordingState r w)|];
    unfold Rev1.recorderStop, Rev1.withRecorders; cbn;
    destruct (Rev1.chunkIntervalRef (Rev1.refs w)); cbn;
    destruct (Rev1.durationIntervalRef (Rev1.refs w)); cbn;
    by destruct (Js.truthy (Js.trim ct)).
Qed.

Lemma Rev1_stopRecording_timers (ct : string) (nd ni nt : Z) (w : Rev1.World) (t : nat)
    (x : Rev1.Timer) :
  (Rev1.chunkIntervalRef (Rev1.refs w) = Some t
   ∨ Rev1.durationIntervalRef (Rev1.refs w) = Some t) →
  Rev1.timers (Rev1.stopRecording ct nd ni nt w) !! t = Some x →
  Rev1.armed x = false.
Proof.
  intros Href. rewrite Rev1_stopRecording_timers_eq. cbv zeta.
  destruct Href as [-> | ->].
  - destruct (Rev1.durationIntervalRef (Rev1.refs w)) as [t2|].
    + rewrite list_lookup_alter. case_decide.
      * destruct (_ !! t2); [|done]. simpl. by intros [= <-].
      * rewrite list_lookup_alter_eq. destruct (Rev1.timers w !! t); [|done].
        simpl. by intros [= <-].
    + rewrite list_lookup_alter_eq. destruct (Rev1.timers w !! t); [|done].
      simpl. by intros [= <-].
  - rewrite list_lookup_alter_eq.
    destruct (_ !! t); [|done]. simpl. by intros [= <-].
Qed.

(** X11.  After a stop from the record button, the timers that the refs
    of the session hold are cleared: when they fire later nothing
    changes, so the duration shown stays as it is.  First revision: the
    5000 ms timer and the duration timer; second revision: the duration
    timer. *)
Theorem X11_stop_clears_the_timers_of_the_session :
  (∀ (w : Rev1.World) (t : nat) (nd ni nt now : Z),
     Rev1.isRecording (Rev1.hooks w) = true →
     Rev1.isProcessing (Rev1.hooks w) = false →
     (Rev1.chunkIntervalRef (Rev1.refs w) = Some t
      ∨ Rev1.durationIntervalRef (Rev1.refs w) = Some t) →
     let w' := Rev1.step w (Rev1.Click nd ni nt) in
     Rev1.step w' (Rev1.TimerFires t now) = w')
  ∧
  (∀ (w : Rev2.World) (t : nat) (now : Z),
     Rev2.isRecording (Rev2.hooks w) = true →
     Rev2.isProcessing (Rev2.hooks w) = false →
     Rev2.durationIntervalRef (Rev2.refs w) = Some t →
     let w' := Rev2.step w Rev2.Click in
     Rev2.step w' (Rev2.DurationTimer t now) = w').
Proof.
  split.
  - intros w t nd ni nt now Hrec Hproc Href w'. subst w'. simpl. unfold Rev1.click.
    rewrite Hproc, Hrec.
    destruct (Rev1.timers (Rev1.stopRecording (Rev1.currentTranscript (Rev1.hooks w))
                             nd ni nt w) !! t) as [x|] eqn:Hx; [|done].
    apply Rev1_stopRecording_timers in Hx; [|done]. destruct x as [k a]. simpl in Hx.
    by subst a.
  - intros w t now Hrec Hproc Href w'. subst w'. simpl. unfold Rev2.click.
    rewrite Hproc, Hrec. cbn [andb].
    assert (E : Rev2.intervals (Rev2.stopRecording (Rev2.currentTranscript (Rev2.hooks w)) w)
                = <[t:=false]> (Rev2.intervals w)).
    { unfold Rev2.stopRecording.
      destruct (Rev2.mediaRecorderRef (Rev2.refs w)) as [r|];
        [destruct (Rev2.isRecordingState r w)|];
        unfold Rev2.recorderStop, Rev2.withRecorders; cbn; by rewrite Href. }
    rewrite E. destruct (decide (t < length (Rev2.intervals w))%nat).
    + by rewrite list_lookup_insert_eq.
    + by rewrite lookup_ge_None_2 by (rewrite length_insert; lia).
Qed.

Lemma X11_stop_clears_the_timers_of_the_session_witness :
  (let w := Rev1.run Rev1.initial (take 2 segmentRead1) in
   let w' := Rev1.step w (Rev1.Click 3000 3001 3002) in
   (Rev1.isRecording (Rev1.hooks w) = true ∧ Rev1.isProcessing (Rev1.hooks w) = false
    ∧ Rev1.chunkIntervalRef (Rev1.refs w) = Some 0%nat
    ∧ Rev1.durationIntervalRef (Rev1.refs w) = Some 1%nat)
   ∧ Rev1.step w' (Rev1.TimerFires 0 6000) = w'
   ∧ Rev1.step w' (Rev1.TimerFires 1 4000) = w')
  ∧
  (let w := Rev2.run Rev2.initial (take 2 segmentsSent2) in
   let w' := Rev2.step w Rev2.Click in
   (Rev2.isRecording (Rev2.hooks w) = true ∧ Rev2.isProcessing (Rev2.hooks w) = false
    ∧ Rev2.durationIntervalRef (Rev2.refs w) = Some 0%nat)
   ∧ Rev2.step w' (Rev2.DurationTimer 0 4000) = w').
Proof.
  destruct X11_stop_clears_the_timers_of_the_session as [H1 H2]. split.
  - intros w w'. split; [split_and!; vm_compute; reflexivity|]. split.
    + apply (H1 w 0%nat 3000 3001 3002 6000);
        [vm_compute; reflexivity|vm_compute; reflexivity|left; vm_compute; reflexivity].
    + apply (H1 w 1%nat 3000 3001 3002 4000);
        [vm_compute; reflexivity|vm_compute; reflexivity|right; vm_compute; reflexivity].
  - intros w w'. split; [split_and!; vm_compute; reflexivity|].
    apply (H2 w 0%nat 4000); vm_compute; reflexivity.
Defined.

(** ** A start that fails *)

Lemma Rev1_run_invariant_on (ok : Rev1.Event → bool) (P : Rev1.World → Prop) :
  (∀ w e, ok e = true → P w → P (Rev1.step w e)) →
  ∀ events w, forallb ok events = true → P w → P (Rev1.run w events).
Proof.
  intros Hstep events. induction events as [|e events IH]; intros w Hev Hw; [done|].
  simpl in Hev. apply andb_true_iff in Hev as [He Hev].
  apply (IH (Rev1.step w e)); [done|]. by apply Hstep.
Qed.

Lemma Rev2_run_invariant_on (ok : Rev2.Event → bool) (P : Rev2.World → Prop) :
  (∀ w e, ok e = true → P w → P (Rev2.step w e)) →
  ∀ events w, forallb ok events = true → P w → P (Rev2.run w events).
Proof.
  intros Hstep events. induction events as [|e events IH]; intros w Hev Hw; [done|].
  simpl in Hev. apply andb_true_iff in Hev as [He Hev].
  apply (IH (Rev2.step w e)); [done|]. by apply Hstep.
Qed.

Lemma Rev1_step_neverStarted (w : Rev1.World) (e : Rev1.Event) :
  notGranted1 e = true → neverStarted1 w → neverStarted1 (Rev1.step w e).
Proof.
  intros He (Hr & Ht & Hi & Hrec & Hct & Hn & Heff). unfold neverStarted1.
  destruct w as [[rec ct chunks notes proc dur] f rs ts us invs effs].
  simpl in *. subst.
  destruct e as [nd ni nt|k o now|r data|t now|i o n n'|id]; simpl.
  - unfold Rev1.click, Rev1.startRecording. simpl. by destruct proc.
  - unfold Rev1.startRecording_resume. simpl.
    destruct (us !! k) as [[c|]|]; [|done..].
    destruct o; try done; simpl; split_and!; try done;
      by repeat (apply Forall_app; split; [|by apply Forall_singleton]).
  - done.
  - done.
  - done.
  - split_and!; try done. apply Forall_app. split; [done|]. by apply Forall_singleton.
Qed.

Lemma Rev2_step_neverStarted (w : Rev2.World) (e : Rev2.Event) :
  notGranted2 e = true → neverStarted2 w → neverStarted2 (Rev2.step w e).
Proof.
  intros He (Hr & Ht & Hto & Hi & Hrec & Hct & Hn & Heff). unfold neverStarted2.
  destruct w as [[rec ct chunks notes proc dur] f rs ts tos us invs effs].
  simpl in *. subst.
  destruct e as [|k o now|r data|r data|t now|k nd ni nt|i o n|id]; simpl.
  - done.
  - unfold Rev2.startRecording_resume. simpl.
    destruct (us !! k) as [[c|]|]; [|done..].
    destruct o; try done; simpl; split_and!; try done;
      by repeat (apply Forall_app; split; [|by apply Forall_singleton]).
  - done.
  - done.
  - done.
  - done.
  - done.
  - split_and!; try done. apply Forall_app. split; [done|]. by apply Forall_singleton.
Qed.

(** X12.  As long as no microphone is granted to a recorder (every
    [getUserMedia] is rejected, or the [MediaRecorder] constructor
    throws), nothing is recorded: in either revision no recorder and no
    timer exists, [isRecording] is false, the transcript is empty, no note
    is stored, no invocation of [processAudioChunk] was made and no
    request went to a remote service. *)
Theorem X12_no_recording_without_a_granted_microphone :
  (∀ events : list Rev1.Event,
     forallb notGranted1 events = true → neverStarted1 (Rev1.run Rev1.initial events))
  ∧
  (∀ events : list Rev2.Event,
     forallb notGranted2 events = true → neverStarted2 (Rev2.run Rev2.initial events)).
Proof.
  split; intros events Hev.
  - apply (Rev1_run_invariant_on notGranted1); [apply Rev1_step_neverStarted|done|].
    by repeat split.
  - apply (Rev2_run_invariant_on notGranted2); [apply Rev2_step_neverStarted|done|].
    by repeat split.
Qed.

Lemma X12_no_recording_without_a_granted_microphone_witness :
  (let events := [Rev1.Click 0 0 0; Rev1.UserMediaSettles 0 Denied 10;
                  Rev1.Click 20 20 20; Rev1.UserMediaSettles 1 Unsupported 30;
                  Rev1.TimerFires 0 40; Rev1.RecorderStops 0 [x01];
                  Rev1.PromiseSettles 0 (Fulfilled "hello") 50 50; Rev1.DeleteClick "0"] in
   forallb notGranted1 events = true
   ∧ length (Rev1.effects (Rev1.run Rev1.initial events)) = 5%nat
   ∧ neverStarted1 (Rev1.run Rev1.initial events))
  ∧
  (let events := [Rev2.Click; Rev2.UserMediaSettles 0 Denied 10;
                  Rev2.Click; Rev2.UserMediaSettles 1 Unsupported 30;
                  Rev2.Timeslice 0 [x01]; Rev2.RecorderStops 0 [x01];
                  Rev2.StopTimer 0 40 40 40;
                  Rev2.PromiseSettles 0 (Fulfilled "hello") 50; Rev2.DeleteClick "0"] in
   forallb notGranted2 events = true
   ∧ length (Rev2.effects (Rev2.run Rev2.initial events)) = 5%nat
   ∧ neverStarted2 (Rev2.run Rev2.initial events)).
Proof.
  destruct X12_no_recording_without_a_granted_microphone as [H1 H2]. split.
  - intros events. split; [vm_compute; reflexivity|]. split; [vm_compute; reflexivity|].
    apply (H1 events). vm_compute. reflexivity.
  - intros events. split; [vm_compute; reflexivity|]. split; [vm_compute; reflexivity|].
    apply (H2 events). vm_compute. reflexivity.
Defined.

(** ** One 5000 ms cycle of the first revision *)

(** X13.  First revision, in a run from the initial state: when the
    5000 ms timer fires while the referenced recorder records, the stop
    event of the recorder is delivered with audio, and the 100 ms
    callback runs after it, then [processAudioChunk] has been called
    twice on the same audio (once by [onstop], once by the 100 ms
    callback), the audio buffer is empty, and the recorder is not
    recording although [isRecording] is as it was. *)
Theorem X13_first_revision_segment_is_submitted_twice :
  ∀ (events : list Rev1.Event) (ti r : nat) (c : Rev1.Closure) (m : Rev1.MediaRecorder)
    (data : Blob) (now now' : Z),
    let w := Rev1.run Rev1.initial events in
    Rev1.timers w !! ti = Some {| Rev1.kind := Rev1.ChunkInterval c; Rev1.armed := true |} →
    Rev1.mediaRecorderRef (Rev1.refs w) = Some r →
    Rev1.recorders w !! r = Some m →
    Rev1.state m = Rev1.recording →
    data ≠ [] →
    let td := length (Rev1.timers w) in
    let blob := newBlob (Rev1.audioChunksRef (Rev1.refs w) ++ [data]) in
    let w' := Rev1.run w [Rev1.TimerFires ti now; Rev1.RecorderStops r data;
                          Rev1.TimerFires td now'] in
    Rev1.invocations w'
      = Rev1.invocations w
        ++ [ {| Rev1.invChunks := Rev1.closureChunks (Rev1.handlers m);
                Rev1.stage := Rev1.AwaitFileReader blob;
                Rev1.awaitedByOnstop := Some r |};
             {| Rev1.invChunks := Rev1.closureChunks c;
                Rev1.stage := Rev1.AwaitFileReader blob;
                Rev1.awaitedByOnstop := None |} ]
    ∧ Rev1.audioChunksRef (Rev1.refs w') = []
    ∧ Rev1.isRecordingState r w' = false
    ∧ Rev1.isRecording (Rev1.hooks w') = Rev1.isRecording (Rev1.hooks w).
Proof.
  intros events ti r c m data now now' w Hti Href Hm Hst Hdata td blob w'.
  assert (Hc : Rev1.closureIsRecording c = false).
  { assert (Hinv : closuresNotRecording1 w).
    { apply (Rev1_run_invariant closuresNotRecording1);
        [by split; constructor|intros w0 e; apply Rev1_step_closuresNotRecording]. }
    destruct Hinv as [_ Ht]. apply (Forall_lookup_1 _ _ _ _ Ht Hti). }
  clearbody w. subst td blob w'.
  destruct w as [h [mr buf st ci di] rs ts us invs effs]. simpl in *. subst mr.
  destruct m as [s q tl hc]. simpl in Hst. subst s.
  rewrite Hti. unfold Rev1.chunkInterval. simpl.
  unfold Rev1.isRecordingState. simpl. rewrite Hm. simpl.
  rewrite list_lookup_alter_eq, Hm. simpl.
  unfold Rev1.onstop, Rev1.ondataavailable. simpl.
  destruct data as [|b data]; [done|]. simpl.
  rewrite length_app. simpl.
  case_decide; [|lia]. simpl.
  rewrite lookup_app_r by lia. rewrite Nat.sub_diag. simpl.
  unfold Rev1.chunkDelay. simpl. rewrite length_app. simpl.
  case_decide; [|lia]. simpl. rewrite Hc.
  split_and!; try done.
  - cbn. by rewrite <- app_assoc.
  - unfold Rev1.isRecordingState. cbn. by rewrite !list_lookup_alter_eq, Hm.
Qed.

Lemma X13_first_revision_segment_is_submitted_twice_witness :
  let events := take 2 segmentRead1 in
  let c := {| Rev1.closureChunks := []; Rev1.closureIsRecording := false |} in
  let m := {| Rev1.state := Rev1.recording; Rev1.stopQueued := false;
              Rev1.tracksLive := true; Rev1.handlers := c |} in
  let w := Rev1.run Rev1.initial events in
  let w' := Rev1.run w [Rev1.TimerFires 0 6000; Rev1.RecorderStops 0 [x01];
                        Rev1.TimerFires 2 6100] in
  (Rev1.timers w !! 0%nat
     = Some {| Rev1.kind := Rev1.ChunkInterval c; Rev1.armed := true |}
   ∧ Rev1.mediaRecorderRef (Rev1.refs w) = Some 0%nat
   ∧ Rev1.recorders w !! 0%nat = Some m
   ∧ length (Rev1.timers w) = 2%nat)
  ∧ Rev1.invocations w'
    = [ {| Rev1.invChunks := []; Rev1.stage := Rev1.AwaitFileReader [x01];
           Rev1.awaitedByOnstop := Some 0%nat |};
        {| Rev1.invChunks := []; Rev1.stage := Rev1.AwaitFileReader [x01];
           Rev1.awaitedByOnstop := None |} ]
  ∧ Rev1.audioChunksRef (Rev1.refs w') = []
  ∧ Rev1.isRecordingState 0 w' = false
  ∧ Rev1.isRecording (Rev1.hooks w') = true.
Proof.
  intros events c m w w'.
  split; [split_and!; vm_compute; reflexivity|].
  destruct (X13_first_revision_segment_is_submitted_twice events 0%nat 0%nat c m [x01]
              6000 6100) as (Hi & Hb & Hs & Hr);
    [vm_compute; reflexivity|vm_compute; reflexivity|vm_compute; reflexivity
    |reflexivity|discriminate|].
  split_and!; [exact Hi|exact Hb|exact Hs|].
  etrans; [exact Hr|]. vm_compute. reflexivity.
Defined.

(** ** Second revision: the fragment list does not accumulate *)

Lemma bounded_alter (f : Rev2.MediaRecorder → Rev2.MediaRecorder) (r : nat)
    (rs : list Rev2.MediaRecorder) :
  (∀ m, Rev2.handlerChunks (f m) = Rev2.handlerChunks m) →
  (∀ j m, rs !! j = Some m → (length (Rev2.handlerChunks m) ≤ j)%nat) →
  ∀ j m, alter f r rs !! j = Some m → (length (Rev2.handlerChunks m) ≤ j)%nat.
Proof.
  intros Hf Hrs j m. destruct (decide (r = j)) as [->|Hne].
  - rewrite list_lookup_alter_eq. destruct (rs !! j) as [m0|] eqn:Hj; [|done].
    simpl. intros [= <-]. rewrite Hf. by apply Hrs.
  - rewrite list_lookup_alter_ne by done. apply Hrs.
Qed.

Lemma Rev2_step_chunksBounded (w : Rev2.World) (e : Rev2.Event) :
  chunksBounded2 w → chunksBounded2 (Rev2.step w e).
Proof.
  intros (Ha & Hb & Hc & Hd). unfold chunksBounded2.
  destruct e as [|k o now|r data|r data|t now|k nd ni nt|i o n|id]; simpl.
  - unfold Rev2.click, Rev2.stopRecording, Rev2.startRecording.
    repeat (case_match; simpl); rewrite ?length_alter; split_and!; try done;
      try (by apply bounded_alter);
      apply Forall_app; split; try done; by apply Forall_singleton.
  - unfold Rev2.startRecording_resume.
    destruct (Rev2.userMediaCalls w !! k) as [[chunks|]|] eqn:Hk; try done.
    assert (length chunks ≤ length (Rev2.recorders w))%nat
      by apply (Forall_lookup_1 _ _ _ _ Hb Hk).
    assert (Forall (λ c, from_option (λ l : list Rev2.TranscriptChunk,
                                        (length l ≤ length (Rev2.recorders w))%nat) True c)
              (<[k:=None]> (Rev2.userMediaCalls w)))
      by (by apply Forall_insert).
    destruct o; simpl; rewrite ?length_alter, ?length_app; simpl;
      split_and!; try done; try lia.
    + apply bounded_alter; [done|]. intros j m.
      destruct (decide (j < length (Rev2.recorders w))%nat).
      * rewrite lookup_app_l by done. apply Ha.
      * intros Hj. pose proof (lookup_lt_Some _ _ _ Hj) as Hlt.
        rewrite length_app in Hlt. simpl in Hlt.
        assert (j = length (Rev2.recorders w)) as -> by lia.
        rewrite lookup_app_r, Nat.sub_diag in Hj by lia. simpl in Hj.
        injection Hj as <-. done.
    + eapply Forall_impl; [done|]. intros [l|]; simpl; lia.
    + eapply Forall_impl; [done|]. simpl. lia.
  - unfold Rev2.ondataavailable, Rev2.processAudioChunk.
    destruct (Rev2.isRecordingState r w); [|done].
    destruct (Rev2.recorders w !! r) as [m|] eqn:Hm; [|done].
    case_decide; [done|]. simpl. split_and!; try done.
    apply Forall_app; split; [done|]. apply Forall_singleton. simpl.
    pose proof (Ha _ _ Hm). pose proof (lookup_lt_Some _ _ _ Hm). lia.
  - unfold Rev2.ondataavailable, Rev2.processAudioChunk, Rev2.onstop.
    destruct (Rev2.recorders w !! r) as [m|] eqn:Hm; [|done].
    pose proof (Ha _ _ Hm). pose proof (lookup_lt_Some _ _ _ Hm).
    destruct m as [st [] tl hc]; [|done].
    case_decide; simpl; rewrite ?length_alter; split_and!; try done;
      try (by apply bounded_alter).
    apply Forall_app; split; [done|]. apply Forall_singleton. simpl in *. lia.
  - by repeat (case_match; simpl).
  - unfold Rev2.stopRecording_timeout. by repeat (case_match; simpl).
  - unfold Rev2.processAudioChunk_resume.
    destruct (Rev2.invocations w !! i) as [inv|] eqn:Hinv; [|done].
    assert (length (Rev2.closureChunks inv) < length (Rev2.recorders w))%nat
      by apply (Forall_lookup_1 _ _ _ _ Hc Hinv).
    assert (Hsusp : ∀ s, Forall (λ inv, (length (Rev2.closureChunks inv)
                                         < length (Rev2.recorders w))%nat)
              (alter (λ inv, {| Rev2.closureChunks := Rev2.closureChunks inv;
                                Rev2.stage := s |}) i (Rev2.invocations w))).
    { intros s. by apply Forall_alter. }
    destruct (Rev2.stage inv), o as [v|]; simpl; try done;
      try destruct (Js.truthy (Js.trim v)) eqn:Ht; simpl;
      split_and!; try done.
    rewrite length_app. simpl. lia.
  - done.
Qed.

(** X14.  Second revision, in a run from the initial state: the fragment
    list never has more fragments than recordings were started.  So
    during the first recording it holds one fragment at most, however
    many segments were transcribed: each transcription replaces the list
    by the list of its closure and the new fragment. *)
Theorem X14_second_revision_fragments_bounded_by_recordings :
  ∀ events : list Rev2.Event,
    let w := Rev2.run Rev2.initial events in
    (length (Rev2.transcriptChunks (Rev2.hooks w)) ≤ length (Rev2.recorders w))%nat.
Proof.
  intros events w.
  assert (Hinv : chunksBounded2 w).
  { apply Rev2_run_invariant; [|intros w0 e; apply Rev2_step_chunksBounded].
    unfold chunksBounded2. simpl. split_and!; try done; constructor. }
  apply Hinv.
Qed.

(** ** Unmounting *)

Lemma clear_clear (f : Rev1.Timer → Rev1.Timer) (a b : option nat) (l : list Rev1.Timer) :
  (∀ x, f (f x) = f x) →
  let clear (o : option nat) (l : list Rev1.Timer) :=
    match o with Some t => alter f t l | None => l end in
  clear b (clear a (clear b (clear a l))) = clear b (clear a l).
Proof.
  intros Hf clear. subst clear. apply list_eq. intros j.
  destruct a as [a|], b as [b|]; try done; simpl;
    rewrite ?list_lookup_alter; repeat case_decide; subst;
    rewrite ?list_lookup_alter; repeat case_decide; try done;
    destruct (l !! _); simpl; by rewrite ?Hf.
Qed.

Lemma cleanup1_eq (w : Rev1.World) :
  cleanup1 w
  = {| Rev1.hooks := Rev1.hooks w; Rev1.refs := Rev1.refs w;
       Rev1.recorders :=
         match Rev1.mediaRecorderRef (Rev1.refs w) with
         | Some r =>
             if Rev1.isRecordingState r w
             then alter (λ m, {| Rev1.state := Rev1.inactive; Rev1.stopQueued := true;
                                 Rev1.tracksLive := Rev1.tracksLive m;
                                 Rev1.handlers := Rev1.handlers m |}) r (Rev1.recorders w)
             else Rev1.recorders w
         | None => Rev1.recorders w
         end;
       Rev1.timers :=
         let clear (o : option nat) (l : list Rev1.Timer) :=
           match o with
           | Some t => alter (λ x, {| Rev1.kind := Rev1.kind x; Rev1.armed := false |}) t l
           | None => l
           end in
         clear (Rev1.durationIntervalRef (Rev1.refs w))
           (clear (Rev1.chunkIntervalRef (Rev1.refs w)) (Rev1.timers w));
       Rev1.userMediaCalls := Rev1.userMediaCalls w;
       Rev1.invocations := Rev1.invocations w;
       Rev1.effects := Rev1.effects w |}.
Proof.
  destruct w as [h [mr buf st ci di] rs ts us invs effs]. unfold cleanup1.
  destruct ci, di, mr as [r|]; cbn; try done;
    unfold Rev1.isRecordingState; cbn; by destruct (rs !! r) as [[[] ? ? ?]|].
Qed.

Lemma cleanup2_eq (w : Rev2.World) :
  cleanup2 w
  = {| Rev2.hooks := Rev2.hooks w; Rev2.refs := Rev2.refs w;
       Rev2.recorders :=
         match Rev2.mediaRecorderRef (Rev2.refs w) with
         | Some r =>
             if Rev2.isRecordingState r w
             then alter (λ m, {| Rev2.state := Rev2.inactive; Rev2.stopQueued := true;
                                 Rev2.tracksLive := Rev2.tracksLive m;
                                 Rev2.handlerChunks := Rev2.handlerChunks m |}) r
                    (Rev2.recorders w)
             else Rev2.recorders w
         | None => Rev2.recorders w
         end;
       Rev2.intervals :=
         match Rev2.durationIntervalRef (Rev2.refs w) with
         | Some t => <[t:=false]> (Rev2.intervals w)
         | None => Rev2.intervals w
         end;
       Rev2.timeouts := Rev2.timeouts w;
       Rev2.userMediaCalls := Rev2.userMediaCalls w;
       Rev2.invocations := Rev2.invocations w;
       Rev2.effects := Rev2.effects w |}.
Proof.
  destruct w as [h [mr st di] rs ts tos us invs effs]. unfold cleanup2.
  destruct di, mr as [r|]; cbn; try done;
    unfold Rev2.isRecordingState; cbn; by destruct (rs !! r) as [[[] ? ? ?]|].
Qed.

Lemma stopped_not_recording1 (r : nat) (rs : list Rev1.MediaRecorder) :
  match alter (λ m, {| Rev1.state := Rev1.inactive; Rev1.stopQueued := true;
                       Rev1.tracksLive := Rev1.tracksLive m;
                       Rev1.handlers := Rev1.handlers m |}) r rs !! r with
  | Some {| Rev1.state := Rev1.recording |} => true
  | _ => false
  end = false.
Proof. rewrite list_lookup_alter_eq. by destruct (rs !! r). Qed.

Lemma stopped_not_recording2 (r : nat) (rs : list Rev2.MediaRecorder) :
  match alter (λ m, {| Rev2.state := Rev2.inactive; Rev2.stopQueued := true;
                       Rev2.tracksLive := Rev2.tracksLive m;
                       Rev2.handlerChunks := Rev2.handlerChunks m |}) r rs !! r with
  | Some {| Rev2.state := Rev2.recording |} => true
  | _ => false
  end = false.
Proof. rewrite list_lookup_alter_eq. by destruct (rs !! r). Qed.

(** X15.  The cleanup of the unmount effect, run in any state, leaves
    the React state, the invocations and the effects as they are; after
    it the recorder that [mediaRecorderRef] holds is not recording and
    the timers that the refs hold do nothing when they fire; running it
    again changes nothing.  The timer of [stopRecording] (second
    revision) is not touched: a note can still be saved after the
    unmount. *)
Theorem X15_unmount_stops_the_recorder_and_the_timers_of_the_refs :
  (∀ w : Rev1.World,
     let w' := cleanup1 w in
     Rev1.hooks w' = Rev1.hooks w
     ∧ Rev1.invocations w' = Rev1.invocations w
     ∧ Rev1.effects w' = Rev1.effects w
     ∧ (∀ r, Rev1.mediaRecorderRef (Rev1.refs w) = Some r →
             Rev1.isRecordingState r w' = false)
     ∧ (∀ t now, Rev1.chunkIntervalRef (Rev1.refs w) = Some t
                 ∨ Rev1.durationIntervalRef (Rev1.refs w) = Some t →
                 Rev1.step w' (Rev1.TimerFires t now) = w')
     ∧ cleanup1 w' = w')
  ∧
  (∀ w : Rev2.World,
     let w' := cleanup2 w in
     Rev2.hooks w' = Rev2.hooks w
     ∧ Rev2.invocations w' = Rev2.invocations w
     ∧ Rev2.effects w' = Rev2.effects w
     ∧ Rev2.timeouts w' = Rev2.timeouts w
     ∧ (∀ r, Rev2.mediaRecorderRef (Rev2.refs w) = Some r →
             Rev2.isRecordingState r w' = false)
     ∧ (∀ t now, Rev2.durationIntervalRef (Rev2.refs w) = Some t →
                 Rev2.step w' (Rev2.DurationTimer t now) = w')
     ∧ cleanup2 w' = w').
Proof.
  split.
  - intros w w'. subst w'. split_and!; try (by rewrite cleanup1_eq).
    + intros r Hr. rewrite cleanup1_eq. unfold Rev1.isRecordingState at 1. cbn.
      rewrite Hr. destruct (Rev1.isRecordingState r w) eqn:E; [|done].
      apply stopped_not_recording1.
    + intros t now Ht. rewrite cleanup1_eq. cbn.
      match goal with |- match ?l !! t with _ => _ end = _ =>
        assert (Hx : ∀ x, l !! t = Some x → Rev1.armed x = false) end.
      { intros x. destruct Ht as [-> | ->].
        - destruct (Rev1.durationIntervalRef (Rev1.refs w)) as [t2|].
          + rewrite list_lookup_alter. case_decide.
            * destruct (_ !! t2); [|done]. simpl. by intros [= <-].
            * rewrite list_lookup_alter_eq. destruct (Rev1.timers w !! t); [|done].
              simpl. by intros [= <-].
          + rewrite list_lookup_alter_eq. destruct (Rev1.timers w !! t); [|done].
            simpl. by intros [= <-].
        - rewrite list_lookup_alter_eq.
          destruct (_ !! t); [|done]. simpl. by intros [= <-]. }
      destruct (_ !! t) as [[k a]|]; [|done].
      specialize (Hx _ eq_refl). simpl in Hx. by subst a.
    + rewrite (cleanup1_eq (cleanup1 w)). rewrite !cleanup1_eq. cbn. f_equal.
      * unfold Rev1.isRecordingState at 1. cbn.
        destruct (Rev1.mediaRecorderRef (Rev1.refs w)) as [r|]; [|done].
        destruct (Rev1.isRecordingState r w) eqn:E;
          [|unfold Rev1.isRecordingState in E; by rewrite E].
        by rewrite stopped_not_recording1.
      * by apply (clear_clear _ _ _ (Rev1.timers w)).
  - intros w w'. subst w'. split_and!; try (by rewrite cleanup2_eq).
    + intros r Hr. rewrite cleanup2_eq. unfold Rev2.isRecordingState at 1. cbn.
      rewrite Hr. destruct (Rev2.isRecordingState r w) eqn:E; [|done].
      apply stopped_not_recording2.
    + intros t now Ht. rewrite cleanup2_eq. cbn. rewrite Ht.
      destruct (decide (t < length (Rev2.intervals w))%nat).
      * by rewrite list_lookup_insert_eq.
      * by rewrite lookup_ge_None_2 by (rewrite length_insert; lia).
    + rewrite (cleanup2_eq (cleanup2 w)). rewrite !cleanup2_eq. cbn. f_equal.
      * unfold Rev2.isRecordingState at 1. cbn.
        destruct (Rev2.mediaRecorderRef (Rev2.refs w)) as [r|]; [|done].
        destruct (Rev2.isRecordingState r w) eqn:E;
          [|unfold Rev2.isRecordingState in E; by rewrite E].
        by rewrite stopped_not_recording2.
      * destruct (Rev2.durationIntervalRef (Rev2.refs w)); [|done].
        apply list_insert_insert_eq.
Qed.

Lemma X15_unmount_stops_the_recorder_and_the_timers_of_the_refs_witness :
  (let w := Rev1.run Rev1.initial (take 2 segmentRead1) in
   let w' := cleanup1 w in
   (Rev1.mediaRecorderRef (Rev1.refs w) = Some 0%nat
    ∧ Rev1.isRecordingState 0 w = true
    ∧ Rev1.chunkIntervalRef (Rev1.refs w) = Some 0%nat
    ∧ Rev1.durationIntervalRef (Rev1.refs w) = Some 1%nat)
   ∧ Rev1.isRecordingState 0 w' = false
   ∧ Rev1.step w' (Rev1.TimerFires 0 6000) = w'
   ∧ Rev1.step w' (Rev1.TimerFires 1 4000) = w'
   ∧ cleanup1 w' = w')
  ∧
  (let w := Rev2.run Rev2.initial (take 2 segmentsSent2) in
   let w' := cleanup2 w in
   (Rev2.mediaRecorderRef (Rev2.refs w) = Some 0%nat
    ∧ Rev2.isRecordingState 0 w = true
    ∧ Rev2.durationIntervalRef (Rev2.refs w) = Some 0%nat)
   ∧ Rev2.isRecordingState 0 w' = false
   ∧ Rev2.step w' (Rev2.DurationTimer 0 4000) = w'
   ∧ cleanup2 w' = w').
Proof.
  destruct X15_unmount_stops_the_recorder_and_the_timers_of_the_refs as [H1 H2]. split.
  - intros w w'. destruct (H1 w) as (_ & _ & _ & Hr & Ht & Hi).
    split; [split_and!; vm_compute; reflexivity|]. split_and!.
    + apply Hr. vm_compute. reflexivity.
    + apply Ht. left. vm_compute. reflexivity.
    + apply Ht. right. vm_compute. reflexivity.
    + exact Hi.
  - intros w w'. destruct (H2 w) as (_ & _ & _ & _ & Hr & Ht & Hi).
    split; [split_and!; vm_compute; reflexivity|]. split_and!.
    + apply Hr. vm_compute. reflexivity.
    + apply Ht. vm_compute. reflexivity.
    + exact Hi.
Defined.

(** ** Second revision: the microphone is released *)

Lemma Rev2_step_recorder (w : Rev2.World) (e : Rev2.Event) (r : nat) (m : Rev2.MediaRecorder) :
  Rev2.recorders w !! r = Some m →
  ∃ m', Rev2.recorders (Rev2.step w e) !! r = Some m'
        ∧ Rev2.handlerChunks m' = Rev2.handlerChunks m
        ∧ (Rev2.tracksLive m = false → Rev2.tracksLive m' = false)
        ∧ (Rev2.stopQueued m = true → notStopOf2 r e = true → Rev2.stopQueued m' = true).
Proof.
  intros Hm.
  assert (Hsame : ∃ m', Rev2.recorders w !! r = Some m'
        ∧ Rev2.handlerChunks m' = Rev2.handlerChunks m
        ∧ (Rev2.tracksLive m = false → Rev2.tracksLive m' = false)
        ∧ (Rev2.stopQueued m = true → notStopOf2 r e = true → Rev2.stopQueued m' = true))
    by (by exists m).
  assert (Hstop : ∀ r', ∃ m',
            alter (λ m, {| Rev2.state := Rev2.inactive; Rev2.stopQueued := true;
                           Rev2.tracksLive := Rev2.tracksLive m;
                           Rev2.handlerChunks := Rev2.handlerChunks m |}) r'
              (Rev2.recorders w) !! r = Some m'
        ∧ Rev2.handlerChunks m' = Rev2.handlerChunks m
        ∧ (Rev2.tracksLive m = false → Rev2.tracksLive m' = false)
        ∧ (Rev2.stopQueued m = true → notStopOf2 r e = true → Rev2.stopQueued m' = true)).
  { intros r'. rewrite list_lookup_alter. case_decide; [subst r'|by exists m].
    rewrite Hm. simpl. eexists. by split_and!. }
  destruct e as [|k o now|r' data|r' data|t now|k nd ni nt|i o n|id]; simpl.
  - unfold Rev2.click, Rev2.stopRecording, Rev2.startRecording.
    repeat (case_match; simpl); first [apply Hsame|apply Hstop].
  - unfold Rev2.startRecording_resume.
    destruct (Rev2.userMediaCalls w !! k) as [[chunks|]|]; try done.
    destruct o; simpl; try done.
    pose proof (lookup_lt_Some _ _ _ Hm).
    rewrite list_lookup_alter_ne by lia. rewrite lookup_app_l by done. by exists m.
  - unfold Rev2.ondataavailable, Rev2.processAudioChunk.
    repeat (case_match; simpl); apply Hsame.
  - destruct (Rev2.recorders w !! r') as [[st [] tl hc]|] eqn:Hr'; try done.
    unfold Rev2.onstop, Rev2.ondataavailable, Rev2.processAudioChunk. rewrite Hr'.
    case_decide; simpl; rewrite list_lookup_alter; case_decide; try (by exists m);
      subst r'; rewrite Hm; simpl; eexists; split_and!; try done;
      intros _; by rewrite Nat.eqb_refl.
  - repeat (case_match; simpl); apply Hsame.
  - unfold Rev2.stopRecording_timeout. repeat (case_match; simpl); apply Hsame.
  - unfold Rev2.processAudioChunk_resume. repeat (case_match; simpl); apply Hsame.
  - done.
Qed.

Lemma released2_run (r : nat) (w : Rev2.World) (events : list Rev2.Event) :
  released2 r w → released2 r (Rev2.run w events).
Proof.
  revert w. induction events as [|e events IH]; intros w Hw; [done|].
  apply (IH (Rev2.step w e)). destruct Hw as (m & Hm & Hlive).
  destruct (Rev2_step_recorder w e r m Hm) as (m' & Hm' & _ & Hl & _).
  exists m'. auto.
Qed.

Lemma stopPending2_run (r : nat) (w : Rev2.World) (events : list Rev2.Event) :
  forallb (notStopOf2 r) events = true →
  stopPending2 r w → stopPending2 r (Rev2.run w events).
Proof.
  revert w. induction events as [|e events IH]; intros w Hev Hw; [done|].
  simpl in Hev. apply andb_true_iff in Hev as [He Hev].
  apply (IH (Rev2.step w e)); [done|]. destruct Hw as (m & Hm & Hq).
  destruct (Rev2_step_recorder w e r m Hm) as (m' & Hm' & _ & _ & Hq').
  exists m'. auto.
Qed.

Lemma stopPending2_delivered (r : nat) (data : Blob) (w : Rev2.World) :
  stopPending2 r w → released2 r (Rev2.step w (Rev2.RecorderStops r data)).
Proof.
  intros ([st q tl hc] & Hm & Hq). simpl in Hq. subst q. simpl. rewrite Hm.
  unfold Rev2.onstop, Rev2.ondataavailable, Rev2.processAudioChunk. rewrite Hm.
  unfold released2. case_decide; simpl; rewrite list_lookup_alter_eq, Hm; simpl; eauto.
Qed.

Lemma stopPending2_released (r : nat) (data : Blob) (w : Rev2.World)
    (mid later : list Rev2.Event) :
  forallb (notStopOf2 r) mid = true →
  stopPending2 r w →
  released2 r (Rev2.run w (mid ++ Rev2.RecorderStops r data :: later)).
Proof.
  intros Hmid Hw. unfold Rev2.run. rewrite fold_left_app. simpl.
  apply released2_run, stopPending2_delivered. by apply stopPending2_run.
Qed.

(** X16.  Second revision, in a run from the initial state with
    [isRecording] true: after the unmount cleanup, and after a click on
    the record button that is not disabled, the stop event of the
    recorder that [mediaRecorderRef] holds is queued; once it is
    delivered, whatever happens in between, the tracks of its stream are
    stopped, and they stay stopped whatever happens later. *)
Theorem X16_second_revision_stop_and_unmount_release_the_microphone :
  ∀ (events mid later : list Rev2.Event) (r : nat) (data : Blob),
    let w := Rev2.run Rev2.initial events in
    Rev2.isRecording (Rev2.hooks w) = true →
    Rev2.mediaRecorderRef (Rev2.refs w) = Some r →
    forallb (notStopOf2 r) mid = true →
    released2 r (Rev2.run (cleanup2 w) (mid ++ Rev2.RecorderStops r data :: later))
    ∧ (Rev2.isProcessing (Rev2.hooks w) = false →
       released2 r (Rev2.run w (Rev2.Click :: mid ++ Rev2.RecorderStops r data :: later))).
Proof.
  intros events mid later r data w Hrec Href Hmid.
  assert (Hst : Rev2.isRecordingState r w = true).
  { assert (Hinv : recordingConsistent2 w).
    { apply Rev2_run_invariant; [done|]. intros w0 e. apply Rev2_step_recordingConsistent. }
    destruct (Hinv Hrec) as (r0 & Hr0 & Hst). congruence. }
  clearbody w.
  assert (Hstop : ∀ rs, rs = Rev2.recorders w →
            ∃ m, alter (λ m, {| Rev2.state := Rev2.inactive; Rev2.stopQueued := true;
                               Rev2.tracksLive := Rev2.tracksLive m;
                               Rev2.handlerChunks := Rev2.handlerChunks m |}) r rs !! r
                 = Some m ∧ Rev2.stopQueued m = true).
  { intros rs ->. rewrite list_lookup_alter_eq. unfold Rev2.isRecordingState in Hst.
    destruct (Rev2.recorders w !! r); [|done]. simpl. eauto. }
  split.
  - apply stopPending2_released; [done|]. unfold stopPending2.
    rewrite cleanup2_eq. cbn. rewrite Href, Hst. by apply Hstop.
  - intros Hproc. change (Rev2.run w (Rev2.Click :: ?l)) with (Rev2.run (Rev2.step w Rev2.Click) l).
    apply stopPending2_released; [done|]. unfold stopPending2. simpl.
    unfold Rev2.click. rewrite Hrec, Hproc. cbn [andb]. unfold Rev2.stopRecording.
    rewrite Href, Hst. destruct (Rev2.durationIntervalRef _); cbn; by apply Hstop.
Qed.

Lemma X16_second_revision_stop_and_unmount_release_the_microphone_witness :
  let events := take 2 segmentsSent2 in
  let mid := [Rev2.DurationTimer 0 3000; Rev2.StopTimer 0 3500 3500 3500] in
  let later := [Rev2.PromiseSettles 0 (Fulfilled dataUrl) 3600; Rev2.Click] in
  let w := Rev2.run Rev2.initial events in
  (Rev2.isRecording (Rev2.hooks w) = true
   ∧ Rev2.mediaRecorderRef (Rev2.refs w) = Some 0%nat
   ∧ forallb (notStopOf2 0) mid = true
   ∧ Rev2.isProcessing (Rev2.hooks w) = false)
  ∧ released2 0 (Rev2.run (cleanup2 w) (mid ++ Rev2.RecorderStops 0 [x01] :: later))
  ∧ released2 0 (Rev2.run w (Rev2.Click :: mid ++ Rev2.RecorderStops 0 [x01] :: later)).
Proof.
  intros events mid later w.
  split; [split_and!; vm_compute; reflexivity|].
  destruct (X16_second_revision_stop_and_unmount_release_the_microphone
              events mid later 0%nat [x01]) as [Hu Hc];
    [vm_compute; reflexivity..|].
  split; [exact Hu|]. apply Hc. vm_compute. reflexivity.
Defined.

(** ** [formatDuration] *)








(** ** The number of requests *)

Lemma countIf_app {A} (p : A → bool) (l k : list A) :
  countIf p (l ++ k) = (countIf p l + countIf p k)%nat.
Proof. induction l as [|x l IH]; [done|]. simpl. rewrite IH. lia. Qed.

Lemma countIf_alter {A} (p : A → bool) (f : A → A) (i : nat) (l : list A) (x : A) :
  l !! i = Some x →
  (countIf p (alter f i l) + (if p x then 1 else 0)
   = countIf p l + (if p (f x) then 1 else 0))%nat.
Proof.
  revert i. induction l as [|y l IH]; intros [|i] Hi; try done; simpl in *.
  - injection Hi as ->. destruct (p x), (p (f x)); lia.
  - specialize (IH i Hi). fold (alter f i l).
    destruct (p x), (p (f x)), (p y); lia.
Qed.

Ltac count_alter Hinv :=
  repeat match goal with
  | |- context [countIf ?p (alter ?f ?i ?l)] =>
      lazymatch goal with
      | _ : (countIf p (alter f i l) + _ = _)%nat |- _ => fail
      | _ => pose proof (countIf_alter p f i l _ Hinv)
      end
  end.

Lemma Rev1_step_requestsBounded (w : Rev1.World) (e : Rev1.Event) :
  requestsBounded1 w → requestsBounded1 (Rev1.step w e).
Proof.
  intros [Hg Ht]. unfold requestsBounded1.
  destruct e as [nd ni nt|k o now|r data|t now|i o n n'|id]; simpl.
  - unfold Rev1.click, Rev1.stopRecording, Rev1.startRecording.
    repeat (case_match; simpl); rewrite ?countIf_app; simpl; lia.
  - unfold Rev1.startRecording_resume.
    repeat (case_match; simpl); rewrite ?countIf_app; simpl; lia.
  - unfold Rev1.onstop, Rev1.ondataavailable.
    repeat (case_match; simpl); rewrite ?countIf_app, ?length_app; simpl; lia.
  - unfold Rev1.chunkInterval, Rev1.chunkDelay.
    repeat (case_match; simpl); rewrite ?countIf_app, ?length_app; simpl; lia.
  - unfold Rev1.processAudioChunk_resume.
    destruct (Rev1.invocations w !! i) as [[chunks st by_]|] eqn:Hinv; [|done].
    unfold Rev1.settled.
    destruct st, o as [v|]; simpl; repeat (case_match; simpl);
      rewrite ?countIf_app, ?length_alter; simpl;
      count_alter Hinv; unfold atFileReader1, atTranscribeAudio1 in *; simpl in *; lia.
  - rewrite ?countIf_app; simpl; lia.
Qed.

Lemma Rev2_step_requestsBounded (w : Rev2.World) (e : Rev2.Event) :
  requestsBounded2 w → requestsBounded2 (Rev2.step w e).
Proof.
  intros [Hg Ht]. unfold requestsBounded2.
  destruct e as [|k o now|r data|r data|t now|k nd ni nt|i o n|id]; simpl.
  - unfold Rev2.click, Rev2.stopRecording, Rev2.startRecording.
    repeat (case_match; simpl); rewrite ?countIf_app; simpl; lia.
  - unfold Rev2.startRecording_resume.
    repeat (case_match; simpl); rewrite ?countIf_app; simpl; lia.
  - unfold Rev2.ondataavailable, Rev2.processAudioChunk.
    repeat (case_match; simpl); rewrite ?countIf_app, ?length_app; simpl; lia.
  - unfold Rev2.ondataavailable, Rev2.processAudioChunk, Rev2.onstop.
    repeat (case_match; simpl); rewrite ?countIf_app, ?length_app; simpl; lia.
  - repeat (case_match; simpl); lia.
  - unfold Rev2.stopRecording_timeout.
    repeat (case_match; simpl); rewrite ?countIf_app; simpl; lia.
  - unfold Rev2.processAudioChunk_resume.
    destruct (Rev2.invocations w !! i) as [[chunks st]|] eqn:Hinv; [|done].
    destruct st, o as [v|]; simpl; repeat (case_match; simpl);
      rewrite ?countIf_app, ?length_alter; simpl;
      count_alter Hinv; unfold atFileReader2, atTranscribeAudio2 in *; simpl in *; lia.
  - rewrite ?countIf_app; simpl; lia.
Qed.

(** X18.  In every run of either revision, the number of enhancement
    requests is at most the number of transcription requests, and the
    number of transcription requests is at most the number of calls of
    [processAudioChunk]: a call costs one transcription and one
    enhancement at most. *)
Theorem X18_one_transcription_and_one_enhancement_per_call_at_most :
  (∀ events : list Rev1.Event,
     let w := Rev1.run Rev1.initial events in
     (countIf isGenerateText (Rev1.effects w) ≤ countIf isTranscribeAudio (Rev1.effects w)
      ≤ length (Rev1.invocations w))%nat)
  ∧
  (∀ events : list Rev2.Event,
     let w := Rev2.run Rev2.initial events in
     (countIf isGenerateText (Rev2.effects w) ≤ countIf isTranscribeAudio (Rev2.effects w)
      ≤ length (Rev2.invocations w))%nat).
Proof.
  split; intros events w.
  - assert (Hinv : requestsBounded1 w).
    { apply Rev1_run_invariant; [|intros w0 e; apply Rev1_step_requestsBounded].
      unfold requestsBounded1. simpl. lia. }
    destruct Hinv. lia.
  - assert (Hinv : requestsBounded2 w).
    { apply Rev2_run_invariant; [|intros w0 e; apply Rev2_step_requestsBounded].
      unfold requestsBounded2. simpl. lia. }
    destruct Hinv. lia.
Qed.

(** ** First revision: how long the microphone is held *)

Lemma tracksHeld1_alter (f : Rev1.MediaRecorder → Rev1.MediaRecorder) (r' : nat)
    (rs : list Rev1.MediaRecorder) (invs : list Rev1.Invocation) :
  (∀ m, stopHandled1 (f m) → Rev1.tracksLive (f m) = true →
        stopHandled1 m ∧ Rev1.tracksLive m = true) →
  tracksHeld1 rs invs → tracksHeld1 (alter f r' rs) invs.
Proof.
  intros Hf H r m. rewrite list_lookup_alter. case_decide; [subst r'|apply H].
  destruct (rs !! r) as [m0|] eqn:Hm0; [|done]. simpl. intros [= <-] Hh Hl.
  destruct (Hf m0 Hh Hl). by apply (H r m0).
Qed.

Lemma tracksHeld1_call (rs : list Rev1.MediaRecorder) (invs new : list Rev1.Invocation) :
  tracksHeld1 rs invs → tracksHeld1 rs (invs ++ new).
Proof.
  intros H r m Hm Hh Hl. destruct (H r m Hm Hh Hl) as (i & inv & Hi & Hrest).
  exists i, inv. split; [|done]. by apply lookup_app_l_Some.
Qed.

Lemma tracksHeld1_suspend (s : Rev1.Stage) (i : nat)
    (rs : list Rev1.MediaRecorder) (invs : list Rev1.Invocation) :
  s ≠ Rev1.Settled →
  tracksHeld1 rs invs →
  tracksHeld1 rs (alter (λ inv, {| Rev1.invChunks := Rev1.invChunks inv; Rev1.stage := s;
                                   Rev1.awaitedByOnstop := Rev1.awaitedByOnstop inv |}) i invs).
Proof.
  intros Hs H r m Hm Hh Hl. destruct (H r m Hm Hh Hl) as (i0 & inv & Hi & Ha & Hst).
  destruct (decide (i = i0)) as [->|Hne].
  - eexists i0, _. rewrite list_lookup_alter_eq, Hi. simpl. done.
  - exists i0, inv. by rewrite list_lookup_alter_ne.
Qed.

Lemma tracksHeld1_settled (i : nat) (inv : Rev1.Invocation)
    (rs : list Rev1.MediaRecorder) (invs : list Rev1.Invocation) :
  invs !! i = Some inv →
  tracksHeld1 rs invs →
  tracksHeld1
    (match Rev1.awaitedByOnstop inv with
     | Some r => alter (λ m, {| Rev1.state := Rev1.state m;
                                Rev1.stopQueued := Rev1.stopQueued m;
                                Rev1.tracksLive := false;
                                Rev1.handlers := Rev1.handlers m |}) r rs
     | None => rs
     end)
    (alter (λ inv, {| Rev1.invChunks := Rev1.invChunks inv; Rev1.stage := Rev1.Settled;
                      Rev1.awaitedByOnstop := Rev1.awaitedByOnstop inv |}) i invs).
Proof.
  intros Hinv H r m Hm Hh Hl.
  assert (Hold : rs !! r = Some m ∧ Rev1.awaitedByOnstop inv ≠ Some r).
  { destruct (Rev1.awaitedByOnstop inv) as [r0|]; [|done].
    rewrite list_lookup_alter in Hm. case_decide; [subst r0|by split; [|congruence]].
    destruct (rs !! r); [|done]. simpl in Hm. injection Hm as <-. done. }
  destruct Hold as [Hm0 Hne].
  destruct (H r m Hm0 Hh Hl) as (i0 & inv0 & Hi & Ha & Hst).
  exists i0, inv0. rewrite list_lookup_alter_ne; [done|]. intros ->. congruence.
Qed.

Lemma Rev1_step_tracksHeld (w : Rev1.World) (e : Rev1.Event) :
  tracksHeld1 (Rev1.recorders w) (Rev1.invocations w) →
  tracksHeld1 (Rev1.recorders (Rev1.step w e)) (Rev1.invocations (Rev1.step w e)).
Proof.
  intros Hw.
  assert (Hstop : ∀ r', tracksHeld1
            (alter (λ m, {| Rev1.state := Rev1.inactive; Rev1.stopQueued := true;
                            Rev1.tracksLive := Rev1.tracksLive m;
                            Rev1.handlers := Rev1.handlers m |}) r' (Rev1.recorders w))
            (Rev1.invocations w)).
  { intros r'. apply tracksHeld1_alter; [|done]. by intros m [_ ?]. }
  destruct e as [nd ni nt|k o now|r' data|t now|i o n n'|id]; simpl.
  - unfold Rev1.click, Rev1.stopRecording, Rev1.startRecording.
    repeat (case_match; simpl); first [apply Hw|apply Hstop].
  - unfold Rev1.startRecording_resume.
    destruct (Rev1.userMediaCalls w !! k) as [[c|]|]; try done.
    destruct o; simpl; try done.
    intros r m. rewrite list_lookup_alter. case_decide.
    + subst r. rewrite lookup_app_r, Nat.sub_diag by done. simpl.
      by intros [= <-] [? _].
    + intros Hm. apply Hw.
      destruct (decide (r < length (Rev1.recorders w))%nat).
      * by rewrite lookup_app_l in Hm.
      * pose proof (lookup_lt_Some _ _ _ Hm) as Hlt. rewrite length_app in Hlt.
        simpl in Hlt. lia.
  - destruct (Rev1.recorders w !! r') as [[st [] tl c]|] eqn:Hr'; try done.
    unfold Rev1.onstop, Rev1.ondataavailable.
    assert (Hcall : ∀ chunks blob, tracksHeld1
              (alter (λ m, {| Rev1.state := Rev1.state m; Rev1.stopQueued := false;
                              Rev1.tracksLive := Rev1.tracksLive m;
                              Rev1.handlers := Rev1.handlers m |}) r' (Rev1.recorders w))
              (Rev1.invocations w
               ++ [{| Rev1.invChunks := chunks; Rev1.stage := Rev1.AwaitFileReader blob;
                      Rev1.awaitedByOnstop := Some r' |}])).
    { intros chunks blob r m. rewrite list_lookup_alter. case_decide.
      - subst r'. intros _ _ _. eexists (length (Rev1.invocations w)), _.
        rewrite lookup_app_r, Nat.sub_diag by done. simpl. done.
      - intros Hm Hh Hl. destruct (Hw r m Hm Hh Hl) as (i & inv & Hi & Hrest).
        exists i, inv. split; [|done]. by apply lookup_app_l_Some. }
    assert (Hnone : tracksHeld1
              (alter (λ m, {| Rev1.state := Rev1.state m; Rev1.stopQueued := Rev1.stopQueued m;
                              Rev1.tracksLive := false; Rev1.handlers := Rev1.handlers m |}) r'
                 (alter (λ m, {| Rev1.state := Rev1.state m; Rev1.stopQueued := false;
                                 Rev1.tracksLive := Rev1.tracksLive m;
                                 Rev1.handlers := Rev1.handlers m |}) r' (Rev1.recorders w)))
              (Rev1.invocations w)).
    { rewrite list_alter_alter_eq. by apply tracksHeld1_alter. }
    repeat (case_decide; simpl); first [apply Hcall|apply Hnone].
  - destruct (Rev1.timers w !! t) as [[[c|c|] []]|]; try done.
    + unfold Rev1.chunkInterval. repeat (case_match; simpl); first [apply Hw|apply Hstop].
    + unfold Rev1.chunkDelay.
      assert (Hstart : ∀ r invs, tracksHeld1 (Rev1.recorders w) invs →
                tracksHeld1
                  (alter (λ m, {| Rev1.state := Rev1.recording;
                                  Rev1.stopQueued := Rev1.stopQueued m;
                                  Rev1.tracksLive := Rev1.tracksLive m;
                                  Rev1.handlers := Rev1.handlers m |}) r (Rev1.recorders w))
                  invs).
      { intros r invs. apply tracksHeld1_alter. by intros m [? _]. }
      repeat (case_match; simpl);
        first [apply Hw|apply Hstart; first [apply Hw|by apply tracksHeld1_call]
              |by apply tracksHeld1_call].
  - unfold Rev1.processAudioChunk_resume.
    destruct (Rev1.invocations w !! i) as [inv|] eqn:Hinv; [|done].
    unfold Rev1.settled.
    pose proof (tracksHeld1_settled i inv _ _ Hinv Hw) as Hset.
    destruct (Rev1.stage inv), o as [v|]; simpl;
      repeat (case_match; simpl); try done;
      first [by apply tracksHeld1_suspend|apply Hset|idtac].
  - done.
Qed.

(** X19.  First revision, in a run from the initial state: a recorder
    whose stop event has been handled has live tracks only while the call
    of [processAudioChunk] that its [onstop] handler awaits has not
    returned.  So the microphone is released when that call returns, or
    at once when there was no audio; it is held for as long as the call
    does not return. *)
Theorem X19_first_revision_microphone_held_only_while_onstop_awaits :
  ∀ (events : list Rev1.Event) (r : nat) (m : Rev1.MediaRecorder),
    let w := Rev1.run Rev1.initial events in
    Rev1.recorders w !! r = Some m →
    stopHandled1 m →
    Rev1.tracksLive m = true →
    ∃ i inv, Rev1.invocations w !! i = Some inv
             ∧ Rev1.awaitedByOnstop inv = Some r
             ∧ Rev1.stage inv ≠ Rev1.Settled.
Proof.
  intros events r m w.
  apply (Rev1_run_invariant
           (λ w, tracksHeld1 (Rev1.recorders w) (Rev1.invocations w)));
    [by intros ? ?|intros w0 e; apply Rev1_step_tracksHeld].
Qed.

Lemma X19_first_revision_microphone_held_only_while_onstop_awaits_witness :
  let events := take 2 segmentRead1 ++ [Rev1.Click 3000 3000 3000; Rev1.RecorderStops 0 [x01]] in
  let m := {| Rev1.state := Rev1.inactive; Rev1.stopQueued := false;
              Rev1.tracksLive := true;
              Rev1.handlers := {| Rev1.closureChunks := [];
                                  Rev1.closureIsRecording := false |} |} in
  let w := Rev1.run Rev1.initial events in
  (Rev1.recorders w !! 0%nat = Some m ∧ stopHandled1 m ∧ Rev1.tracksLive m = true)
  ∧ ∃ i inv, Rev1.invocations w !! i = Some inv
             ∧ Rev1.awaitedByOnstop inv = Some 0%nat
             ∧ Rev1.stage inv ≠ Rev1.Settled.
Proof.
  intros events m w.
  split; [split_and!; [vm_compute; reflexivity|by split|reflexivity]|].
  apply (X19_first_revision_microphone_held_only_while_onstop_awaits events 0%nat m);
    [vm_compute; reflexivity|by split|reflexivity].
Defined.

(** ** One note per recording at most *)

Lemma countIf_insert {A} (p : A → bool) (i : nat) (l : list A) (x y : A) :
  l !! i = Some x →
  (countIf p (<[i:=y]> l) + (if p x then 1 else 0)
   = countIf p l + (if p y then 1 else 0))%nat.
Proof.
  revert i. induction l as [|z l IH]; intros [|i] Hi; try done; simpl in *.
  - injection Hi as ->. destruct (p x), (p y); lia.
  - specialize (IH i Hi). fold (<[i:=y]> l).
    destruct (p x), (p y), (p z); lia.
Qed.

Lemma length_deleteNote (id : string) (notes : list VoiceNote) :
  (length (deleteNote id notes) ≤ length notes)%nat.
Proof. apply length_filter. Qed.

Lemma length_saveNote (ct : string) (start nd ni nt : Z) (notes : list VoiceNote) :
  (length (saveNote ct start nd ni nt notes) ≤ S (length notes))%nat.
Proof. unfold saveNote, insertNote. case_match; simpl; lia. Qed.

Lemma Rev1_step_notesBounded (w : Rev1.World) (e : Rev1.Event) :
  notesBounded1 w → notesBounded1 (Rev1.step w e).
Proof.
  unfold notesBounded1. intros Hw.
  destruct e as [nd ni nt|k o now|r data|t now|i o n n'|id]; simpl.
  - unfold Rev1.click, Rev1.stopRecording, Rev1.startRecording.
    destruct (Rev1.isRecording (Rev1.hooks w)) eqn:Hrec;
      repeat (case_match; simpl); rewrite ?length_alter, ?Hrec; simpl; lia.
  - unfold Rev1.startRecording_resume.
    repeat (case_match; simpl); rewrite ?length_alter, ?length_app; simpl; lia.
  - unfold Rev1.onstop, Rev1.ondataavailable.
    repeat (case_match; simpl); rewrite ?length_alter; lia.
  - unfold Rev1.chunkInterval, Rev1.chunkDelay.
    repeat (case_match; simpl); rewrite ?length_alter; lia.
  - unfold Rev1.processAudioChunk_resume, Rev1.settled.
    repeat (case_match; simpl); rewrite ?length_alter; lia.
  - pose proof (length_deleteNote id (Rev1.voiceNotes (Rev1.hooks w))). lia.
Qed.

Lemma Rev2_step_notesBounded (w : Rev2.World) (e : Rev2.Event) :
  notesBounded2 w → notesBounded2 (Rev2.step w e).
Proof.
  unfold notesBounded2. intros Hw.
  destruct e as [|k o now|r data|r data|t now|k nd ni nt|i o n|id]; simpl.
  - unfold Rev2.click, Rev2.stopRecording, Rev2.startRecording.
    destruct (Rev2.isRecording (Rev2.hooks w)) eqn:Hrec;
      repeat (case_match; simpl); rewrite ?length_alter, ?countIf_app, ?Hrec; simpl; lia.
  - unfold Rev2.startRecording_resume.
    repeat (case_match; simpl); rewrite ?length_alter, ?length_app; simpl; lia.
  - unfold Rev2.ondataavailable, Rev2.processAudioChunk.
    repeat (case_match; simpl); lia.
  - unfold Rev2.ondataavailable, Rev2.processAudioChunk, Rev2.onstop.
    repeat (case_match; simpl); rewrite ?length_alter; lia.
  - repeat (case_match; simpl); lia.
  - unfold Rev2.stopRecording_timeout.
    destruct (Rev2.timeouts w !! k) as [[ct|]|] eqn:Hk; try done.
    pose proof (countIf_insert isPending k _ _ None Hk) as Hc. simpl in Hc.
    pose proof (length_saveNote ct (Rev2.recordingStartTimeRef (Rev2.refs w)) nd ni nt
                  (Rev2.voiceNotes (Rev2.hooks w))).
    destruct (Js.truthy (Js.trim ct)); simpl; lia.
  - unfold Rev2.processAudioChunk_resume.
    repeat (case_match; simpl); lia.
  - pose proof (length_deleteNote id (Rev2.voiceNotes (Rev2.hooks w))). lia.
Qed.

(** X20.  In every run of either revision there are never more notes
    than recordings that were started: a recording gives one note at
    most.  (Second revision: the timer of a [stopRecording] saves once;
    when it fires again nothing is saved.) *)
Theorem X20_one_note_per_recording_at_most :
  (∀ events : list Rev1.Event,
     let w := Rev1.run Rev1.initial events in
     (length (Rev1.voiceNotes (Rev1.hooks w)) ≤ length (Rev1.recorders w))%nat)
  ∧
  (∀ events : list Rev2.Event,
     let w := Rev2.run Rev2.initial events in
     (length (Rev2.voiceNotes (Rev2.hooks w)) ≤ length (Rev2.recorders w))%nat).
Proof.
  split; intros events w.
  - assert (Hinv : notesBounded1 w).
    { apply Rev1_run_invariant; [|intros w0 e; apply Rev1_step_notesBounded].
      unfold notesBounded1. simpl. lia. }
    unfold notesBounded1 in Hinv. lia.
  - assert (Hinv : notesBounded2 w).
    { apply Rev2_run_invariant; [|intros w0 e; apply Rev2_step_notesBounded].
      unfold notesBounded2. simpl. lia. }
    unfold notesBounded2 in Hinv. lia.
Qed.

(** ** The fragment list of the first revision only grows *)

Lemma Rev1_step_chunks_prefix (w : Rev1.World) (e : Rev1.Event) :
  notGranted1 e = true →
  Rev1.transcriptChunks (Rev1.hooks w)
    `prefix_of` Rev1.transcriptChunks (Rev1.hooks (Rev1.step w e)).
Proof.
  intros He.
  destruct e as [nd ni nt|k o now|r data|t now|i o n n'|id]; simpl.
  - unfold Rev1.click, Rev1.stopRecording, Rev1.startRecording. by_cases.
  - unfold Rev1.startRecording_resume. destruct o; try done; by_cases.
  - unfold Rev1.onstop, Rev1.ondataavailable. by_cases.
  - unfold Rev1.chunkInterval, Rev1.chunkDelay. by_cases.
  - unfold Rev1.processAudioChunk_resume, Rev1.settled.
    repeat (case_match; simpl); try done; by apply prefix_app_r.
  - done.
Qed.

(** X21.  First revision: as long as no new recording starts, the
    fragment list only grows at its end: the fragments it held are still
    there, unchanged and in the same order, at the front of the list. *)
Theorem X21_first_revision_fragments_are_kept_until_the_next_start :
  ∀ (w : Rev1.World) (events : list Rev1.Event),
    forallb notGranted1 events = true →
    Rev1.transcriptChunks (Rev1.hooks w)
      `prefix_of` Rev1.transcriptChunks (Rev1.hooks (Rev1.run w events)).
Proof.
  intros w events. revert w. induction events as [|e events IH]; intros w Hev; [done|].
  simpl in Hev. apply andb_true_iff in Hev as [He Hev].
  etrans; [by apply (Rev1_step_chunks_prefix w e)|]. by apply (IH (Rev1.step w e)).
Qed.

Lemma X21_first_revision_fragments_are_kept_until_the_next_start_witness :
  let w := Rev1.run Rev1.initial
             (segmentSent1 ++ [Rev1.PromiseSettles 0 (Fulfilled "hello") 6300 6300]) in
  let events := [Rev1.PromiseSettles 1 (Fulfilled "hello there") 6400 6400;
                 Rev1.PromiseSettles 0 (Fulfilled "Hello.") 6500 6500;
                 Rev1.Click 7000 7001 7002] in
  forallb notGranted1 events = true
  ∧ Rev1.text <$> Rev1.transcriptChunks (Rev1.hooks w) = ["hello"]
  ∧ Rev1.text <$> Rev1.transcriptChunks (Rev1.hooks (Rev1.run w events))
    = ["hello"; "hello there"]
  ∧ Rev1.transcriptChunks (Rev1.hooks w)
      `prefix_of` Rev1.transcriptChunks (Rev1.hooks (Rev1.run w events)).
Proof.
  intros w events. split_and!; [vm_compute; reflexivity..|].
  apply (X21_first_revision_fragments_are_kept_until_the_next_start w events).
  vm_compute. reflexivity.
Defined.

(** ** The note holds the transcript that was shown *)

Lemma Rev1_step_isTrimmed (w : Rev1.World) (e : Rev1.Event) :
  isTrimmed (Rev1.currentTranscript (Rev1.hooks w)) →
  isTrimmed (Rev1.currentTranscript (Rev1.hooks (Rev1.step w e))).
Proof.
  intros Hw. unfold isTrimmed in *.
  destruct e as [nd ni nt|k o now|r data|t now|i o n n'|id]; simpl.
  - unfold Rev1.click, Rev1.stopRecording, Rev1.startRecording. by_cases.
  - unfold Rev1.startRecording_resume. by_cases.
  - unfold Rev1.onstop, Rev1.ondataavailable. by_cases.
  - unfold Rev1.chunkInterval, Rev1.chunkDelay. by_cases.
  - unfold Rev1.processAudioChunk_resume, Rev1.settled.
    repeat (case_match; simpl); try done; apply trim_idempotent.
  - done.
Qed.

Lemma Rev2_step_transcriptsTrimmed (w : Rev2.World) (e : Rev2.Event) :
  transcriptsTrimmed2 w → transcriptsTrimmed2 (Rev2.step w e).
Proof.
  intros [Hct Hto]. unfold transcriptsTrimmed2, isTrimmed in *.
  destruct e as [|k o now|r data|r data|t now|k nd ni nt|i o n|id]; simpl.
  - unfold Rev2.click, Rev2.stopRecording, Rev2.startRecording.
    repeat (case_match; simpl); split; try done;
      apply Forall_app; (split; [done|]); by apply Forall_singleton.
  - unfold Rev2.startRecording_resume. by repeat (case_match; simpl).
  - unfold Rev2.ondataavailable, Rev2.processAudioChunk. by repeat (case_match; simpl).
  - unfold Rev2.ondataavailable, Rev2.processAudioChunk, Rev2.onstop.
    by repeat (case_match; simpl).
  - by repeat (case_match; simpl).
  - unfold Rev2.stopRecording_timeout.
    repeat (case_match; simpl); split; try done; by apply Forall_insert.
  - unfold Rev2.processAudioChunk_resume.
    repeat (case_match; simpl); split; try done; apply trim_idempotent.
  - done.
Qed.

Lemma isTrimmed_truthy (s : string) : isTrimmed s → s ≠ "" → Js.truthy (Js.trim s) = true.
Proof. intros ->. by destruct s. Qed.

(** X22.  In a run from the initial state the transcript shown is
    always trimmed, so the note that a stop saves holds exactly the
    transcript (not a shortened one), with the id, the time stamp and the
    duration of the clock readings, in front of the older notes.  First
    revision: the click saves the transcript of that render.  Second
    revision: the timer of [stopRecording] saves the transcript it
    holds. *)
Theorem X22_note_holds_exactly_the_transcript_shown :
  (∀ (events : list Rev1.Event) (nd ni nt : Z),
     let w := Rev1.run Rev1.initial events in
     Rev1.isRecording (Rev1.hooks w) = true →
     Rev1.isProcessing (Rev1.hooks w) = false →
     Rev1.currentTranscript (Rev1.hooks w) ≠ "" →
     Rev1.voiceNotes (Rev1.hooks (Rev1.step w (Rev1.Click nd ni nt)))
     = {| note_id := Js.toString ni;
          note_text := Rev1.currentTranscript (Rev1.hooks w);
          note_timestamp := nt;
          note_duration :=
            Js.floorDiv (nd - Rev1.recordingStartTimeRef (Rev1.refs w)) 1000 |}
         :: Rev1.voiceNotes (Rev1.hooks w))
  ∧
  (∀ (events : list Rev2.Event) (k : nat) (ct : string) (nd ni nt : Z),
     let w := Rev2.run Rev2.initial events in
     Rev2.timeouts w !! k = Some (Some ct) →
     ct ≠ "" →
     Rev2.voiceNotes (Rev2.hooks (Rev2.step w (Rev2.StopTimer k nd ni nt)))
     = {| note_id := Js.toString ni;
          note_text := ct;
          note_timestamp := nt;
          note_duration :=
            Js.floorDiv (nd - Rev2.recordingStartTimeRef (Rev2.refs w)) 1000 |}
         :: Rev2.voiceNotes (Rev2.hooks w)).
Proof.
  split.
  - intros events nd ni nt w Hrec Hproc Hne.
    assert (Htrim : isTrimmed (Rev1.currentTranscript (Rev1.hooks w))).
    { apply (Rev1_run_invariant (λ w, isTrimmed (Rev1.currentTranscript (Rev1.hooks w))));
        [done|intros w0 e; apply Rev1_step_isTrimmed]. }
    rewrite Rev1_step_voiceNotes. cbv zeta. rewrite Hrec, Hproc.
    unfold saveNote, insertNote, makeNote.
    rewrite isTrimmed_truthy by done. by rewrite Htrim.
  - intros events k ct nd ni nt w Hk Hne.
    assert (Htrim : isTrimmed ct).
    { assert (Hinv : transcriptsTrimmed2 w).
      { apply Rev2_run_invariant; [|intros w0 e; apply Rev2_step_transcriptsTrimmed].
        split; [done|constructor]. }
      destruct Hinv as [_ Hto]. apply (Forall_lookup_1 _ _ _ _ Hto Hk). }
    rewrite Rev2_step_voiceNotes. cbv zeta. rewrite Hk.
    unfold saveNote, insertNote, makeNote.
    rewrite isTrimmed_truthy by done. by rewrite Htrim.
Qed.

Lemma X22_note_holds_exactly_the_transcript_shown_witness :
  (let w := Rev1.run Rev1.initial segmentEnhanced1 in
   (Rev1.isRecording (Rev1.hooks w) = true ∧ Rev1.isProcessing (Rev1.hooks w) = false
    ∧ Rev1.currentTranscript (Rev1.hooks w) = "Hello there.")
   ∧ Rev1.voiceNotes (Rev1.hooks (Rev1.step w (Rev1.Click 9000 9001 9002)))
     = [ {| note_id := "9001"; note_text := "Hello there."; note_timestamp := 9002;
            note_duration := 8 |} ])
  ∧
  (let w := Rev2.run Rev2.initial (segmentsEnhanced2 ++ [Rev2.Click]) in
   Rev2.timeouts w !! 0%nat = Some (Some "World.")
   ∧ Rev2.voiceNotes (Rev2.hooks (Rev2.step w (Rev2.StopTimer 0 12000 12001 12002)))
     = [ {| note_id := "12001"; note_text := "World."; note_timestamp := 12002;
            note_duration := 11 |} ]).
Proof.
  destruct X22_note_holds_exactly_the_transcript_shown as [H1 H2]. split.
  - intros w. split; [split_and!; vm_compute; reflexivity|]. subst w.
    rewrite (H1 segmentEnhanced1 9000 9001 9002);
      [vm_compute; reflexivity|vm_compute; reflexivity|vm_compute; reflexivity
      |vm_compute; discriminate].
  - intros w. split; [vm_compute; reflexivity|]. subst w.
    rewrite (H2 (segmentsEnhanced2 ++ [Rev2.Click]) 0%nat "World." 12000 12001 12002);
      [vm_compute; reflexivity|vm_compute; reflexivity|discriminate].
Defined.
